(** * NASCAR 25 stream overlay: alerts, chat and ticker widgets

    A shallow embedding of [assets/js/shared.js], [assets/js/alerts.js],
    [assets/js/chat.js] and [assets/js/ticker.js].

    The widgets are scripts over module-level mutable variables and the DOM.
    Each widget is embedded as a record holding its module variables and the
    part of the document it touches, and every JavaScript function becomes a
    function from state to state.  DOM elements that the scripts compare by
    identity or mutate after sharing them (alert and chat message elements)
    live in a store and are named by their index in it; everything else is a
    plain tree.  [setTimeout] callbacks are kept in the state as pending
    timers with their due time and are fired by the host event loop. *)

From Stdlib Require Import List String Ascii ZArith Arith Lia Bool DecimalString Sorted
  Permutation.
Import ListNotations.
Set Warnings "-register-all,-abstract-large-number".
Local Open Scope string_scope.

(* ================================================================== *)
(** * shared.js and the DOM it builds *)
(* ================================================================== *)

Module Dom.

(** An element, over the type of its child nodes. *)
Record ElementOf (N : Type) : Type := mkElement {
  tagName : string;
  classList : list string;
  attributes : list (string * string);
  style : list (string * string);
  childNodes : list N
}.
Arguments mkElement {N} _ _ _ _ _.
Arguments tagName {N} _.
Arguments classList {N} _.
Arguments attributes {N} _.
Arguments style {N} _.
Arguments childNodes {N} _.

(** A DOM subtree.  [Text] is what assigning [textContent] leaves behind and
    [InnerHTML] what assigning [innerHTML] leaves behind (the markup is kept
    as written, it is not parsed). *)
Inductive Node : Type :=
| Elem (e : ElementOf Node)
| Text (data : string)
| InnerHTML (markup : string).

Definition Element : Type := ElementOf Node.

(** A destructuring default, [{ member = d }]: [None] is a member left
    out. *)
Definition default {A : Type} (d : A) (o : option A) : A :=
  match o with Some v => v | None => d end.

(** Elements that the scripts compare by identity are named by a number;
    [differs x] is the test [a => a !== x]. *)
Definition differs (x : nat) (a : nat) : bool := negb (a =? x)%nat.

Definition truthy (s : string) : bool := negb (s =? "").

Definition mem (s : string) (l : list string) : bool :=
  existsb (String.eqb s) l.

(** ASCII white space, as DOMTokenList understands it. *)
Definition is_ascii_whitespace (c : ascii) : bool :=
  let n := nat_of_ascii c in
  ((n =? 9) || (n =? 10) || (n =? 12) || (n =? 13) || (n =? 32))%nat.

Fixpoint has_whitespace (s : string) : bool :=
  match s with
  | EmptyString => false
  | String c rest => is_ascii_whitespace c || has_whitespace rest
  end.

(** [classList.add] throws a DOMException on an empty token and on a token
    with white space in it. *)
Definition valid_token (s : string) : bool :=
  truthy s && negb (has_whitespace s).

(** [element.classList.add(...tokens)]: a class list is an ordered set. *)
Fixpoint classList_add (cl tokens : list string) : list string :=
  match tokens with
  | [] => cl
  | t :: rest => classList_add (if mem t cl then cl else cl ++ [t]) rest
  end.

Fixpoint setAttribute (attrs : list (string * string)) (key value : string)
  : list (string * string) :=
  match attrs with
  | [] => [(key, value)]
  | (k, v) :: rest =>
      if k =? key then (k, value) :: rest
      else (k, v) :: setAttribute rest key value
  end.

(** The [options] argument of [createElement]; an absent or falsy member is
    the empty list or the empty string. *)
Record Options : Type := mkOptions {
  classes : list string;
  attrs : list (string * string);
  text : string;
  html : string
}.

Definition opts (cls : list string) : Options :=
  {| classes := cls; attrs := []; text := ""; html := "" |}.
Definition opts_text (cls : list string) (t : string) : Options :=
  {| classes := cls; attrs := []; text := t; html := "" |}.
Definition opts_attrs (cls : list string) (a : list (string * string)) : Options :=
  {| classes := cls; attrs := a; text := ""; html := "" |}.

Definition lower_ascii (c : ascii) : ascii :=
  let n := nat_of_ascii c in
  if ((65 <=? n) && (n <=? 90))%nat then ascii_of_nat (n + 32) else c.

(** ASCII lower case, as [setAttribute] applies it to the name. *)
Fixpoint toLowerCase (s : string) : string :=
  match s with
  | EmptyString => EmptyString
  | String c rest => String (lower_ascii c) (toLowerCase rest)
  end.

(** The pieces of [s] between runs of white space; [current] is the piece
    being read. *)
Fixpoint split_whitespace (current s : string) : list string :=
  match s with
  | EmptyString => if truthy current then [current] else []
  | String c rest =>
      if is_ascii_whitespace c
      then (if truthy current then [current] else []) ++ split_whitespace "" rest
      else split_whitespace (current ++ String c "") rest
  end.

(** The class list a [class] attribute with this value stands for: its
    tokens, each once, in the order of their first occurrence. *)
Definition class_tokens (value : string) : list string :=
  classList_add [] (split_whitespace "" value).

(** [element.setAttribute(name, value)] on an HTML element.  The name is
    taken in lower case.  The [class] attribute and [classList] are one
    thing, and so are the [style] attribute and [style]: [attributes] holds
    the other attributes.  The declarations of a [style] attribute are kept
    as written, under [cssText]; they are not parsed. *)
Definition set_attribute (name value : string) (e : Element) : Element :=
  let name := toLowerCase name in
  if name =? "class"
  then mkElement (tagName e) (class_tokens value) (attributes e) (style e) (childNodes e)
  else if name =? "style"
  then mkElement (tagName e) (classList e) (attributes e) [("cssText", value)] (childNodes e)
  else mkElement (tagName e) (classList e) (setAttribute (attributes e) name value)
                 (style e) (childNodes e).

(** [createElement(tag, options)]: the classes are added first, then the
    attributes are set, then the text and the markup.  The class tokens are
    those the callers pass; a caller that passes tokens it does not control
    checks them with [valid_token] first (see [Chat.addChatLine]). *)
Definition createElement (tag : string) (options : Options) : Element :=
  let element := mkElement tag (classList_add [] (classes options)) [] [] [] in
  let element :=
    fold_left (fun e kv => set_attribute (fst kv) (snd kv) e) (attrs options) element in
  let kids := if truthy (text options) then [Text (text options)] else [] in
  let kids := if truthy (html options) then [InnerHTML (html options)] else kids in
  mkElement (tagName element) (classList element) (attributes element) (style element) kids.

Definition set_childNodes (kids : list Node) (e : Element) : Element :=
  mkElement (tagName e) (classList e) (attributes e) (style e) kids.

Definition appendChild (parent child : Element) : Element :=
  set_childNodes (childNodes parent ++ [Elem child]) parent.

(** Assigning [innerHTML]. *)
Definition set_innerHTML (markup : string) (e : Element) : Element :=
  set_childNodes (if truthy markup then [InnerHTML markup] else []) e.

Definition has_class (c : string) (n : Node) : bool :=
  match n with
  | Elem e => mem c (classList e)
  | _ => false
  end.

Definition add_class (c : string) (e : Element) : Element :=
  mkElement (tagName e) (classList_add (classList e) [c]) (attributes e)
            (style e) (childNodes e).

Definition remove_class (c : string) (e : Element) : Element :=
  mkElement (tagName e) (filter (fun x => negb (x =? c)) (classList e))
            (attributes e) (style e) (childNodes e).

Definition set_style (prop value : string) (e : Element) : Element :=
  mkElement (tagName e) (classList e) (attributes e)
            (setAttribute (style e) prop value) (childNodes e).

(** The text and markup in a subtree, in document order. *)
Fixpoint text_nodes (n : Node) : list string :=
  match n with
  | Elem (mkElement _ _ _ _ kids) =>
      (fix go (ns : list Node) : list string :=
         match ns with
         | [] => []
         | k :: rest => (text_nodes k ++ go rest)%list
         end) kids
  | Text data => [data]
  | InnerHTML markup => [markup]
  end.

(** [escapeHtml]: the text is stored in a scratch element and read back as
    markup, which is the HTML serialisation of a text node: the ampersand,
    the angle brackets and the no-break space (bytes 194 160 in UTF-8) are
    replaced by character references. *)
Fixpoint escapeHtml (s : string) : string :=
  match s with
  | EmptyString => EmptyString
  | String c rest =>
      if Ascii.eqb c "&" then "&amp;" ++ escapeHtml rest
      else if Ascii.eqb c "<" then "&lt;" ++ escapeHtml rest
      else if Ascii.eqb c ">" then "&gt;" ++ escapeHtml rest
      else
        match rest with
        | String c2 rest2 =>
            if ((nat_of_ascii c =? 194) && (nat_of_ascii c2 =? 160))%nat
            then "&nbsp;" ++ escapeHtml rest2
            else String c (escapeHtml rest)
        | EmptyString => String c EmptyString
        end
  end.

(** The decimal digits of [toString] on an integral number. *)
Definition digits (n : Z) : string := NilZero.string_of_uint (N.to_uint (Z.to_N (Z.abs n))).

(** The replacement [/\B(?=(\d{3})+(?!\d))/g -> ','] on a run of digits: a
    comma goes before every group of three digits counted from the end,
    except at the start. *)
Fixpoint group_thousands (ds : string) : string :=
  match ds with
  | EmptyString => EmptyString
  | String d rest =>
      let n := String.length rest in
      if ((0 <? n) && (n mod 3 =? 0))%nat
      then String d ("," ++ group_thousands rest)
      else String d (group_thousands rest)
  end.

(** [formatNumber(num)] on an integer. *)
Definition formatNumber (num : Z) : string :=
  (if (num <? 0)%Z then "-" else "") ++ group_thousands (digits num).

(** [formatCurrency(amount)] on a whole amount: [toFixed(2)] prints the
    digits and two zero decimals. *)
Definition formatCurrency (amount : Z) : string :=
  "$" ++ (if (amount <? 0)%Z then "-" else "") ++ digits amount ++ ".00".

Record Date : Type := mkDate { getHours : nat; getMinutes : nat; getSeconds : nat }.

Definition nat_string (n : nat) : string := NilZero.string_of_uint (Nat.to_uint n).

(** [n.toString().padStart(2, '0')] *)
Definition pad2 (n : nat) : string :=
  let s := nat_string n in
  if (String.length s <? 2)%nat then "0" ++ s else s.

Definition formatTimestamp (date : Date) (includeSeconds : bool) : string :=
  let hours := pad2 (getHours date) in
  let minutes := pad2 (getMinutes date) in
  let seconds := pad2 (getSeconds date) in
  if includeSeconds then hours ++ ":" ++ minutes ++ ":" ++ seconds
  else hours ++ ":" ++ minutes.

Definition upper_ascii (c : ascii) : ascii :=
  let n := nat_of_ascii c in
  if ((97 <=? n) && (n <=? 122))%nat then ascii_of_nat (n - 32) else c.

(** [toUpperCase] on the ASCII letters. *)
Fixpoint toUpperCase (s : string) : string :=
  match s with
  | EmptyString => EmptyString
  | String c rest => String (upper_ascii c) (toUpperCase rest)
  end.

(** ** Property lookup on an object literal

    [obj[key]] on an object literal first looks among the literal's own
    members and then along the prototype chain, which for a literal is
    [Object.prototype]. *)
Definition object_prototype_keys : list string :=
  [ "constructor"; "__defineGetter__"; "__defineSetter__"; "hasOwnProperty";
    "__lookupGetter__"; "__lookupSetter__"; "isPrototypeOf";
    "propertyIsEnumerable"; "toString"; "valueOf"; "__proto__";
    "toLocaleString" ].

Inductive Lookup (V : Type) : Type :=
| Own (v : V)
| Inherited (key : string)
| Undefined.
Arguments Own {V} v.
Arguments Inherited {V} key.
Arguments Undefined {V}.

Fixpoint own_lookup {V : Type} (members : list (string * V)) (key : string)
  : option V :=
  match members with
  | [] => None
  | (k, v) :: rest => if k =? key then Some v else own_lookup rest key
  end.

Definition lookup {V : Type} (members : list (string * V)) (key : string)
  : Lookup V :=
  match own_lookup members key with
  | Some v => Own v
  | None => if mem key object_prototype_keys then Inherited key else Undefined
  end.

(** What [String(v)] gives for a member of [Object.prototype]: the methods
    are native functions and [__proto__] reads as [Object.prototype]
    itself. *)
Definition inherited_to_string (key : string) : string :=
  if key =? "__proto__" then "[object Object]"
  else "function " ++ (if key =? "constructor" then "Object" else key)
       ++ "() { [native code] }".

End Dom.

(* ================================================================== *)
(** * alerts.js *)
(* ================================================================== *)

Module Alerts.
Import Dom.

(** ** Configuration ([ALERT_CONFIG]) *)

Definition ALERT_LIFETIME : nat := 8000.
Definition MAX_ALERTS : nat := 3.
(** The delay of the inner [setTimeout] of [removeAlert], in milliseconds. *)
Definition EXIT_DELAY : nat := 600.

Record TypeConfig : Type := mkTypeConfig {
  icon : string;
  header : string;
  color : string;
  sound : option string
}.

Definition types : list (string * TypeConfig) :=
  [ ("follow",    mkTypeConfig "👤" "New Follower"   "var(--racing-blue)"   None);
    ("subscribe", mkTypeConfig "⭐" "New Subscriber" "var(--racing-yellow)" None);
    ("donation",  mkTypeConfig "💵" "Donation"       "var(--racing-red)"    None);
    ("cheer",     mkTypeConfig "💎" "Bits Cheered"   "var(--neon-color)"    None) ].

(** Reading [icon], [header] and [sound] off whatever [ALERT_CONFIG.types[type]]
    gave: a member of [Object.prototype] has none of them. *)
Definition config_of (found : Lookup TypeConfig) : option TypeConfig :=
  match found with
  | Own c => Some c
  | Inherited _ => Some (mkTypeConfig "" "" "" None)
  | Undefined => None
  end.

(** ** Data *)

(** The argument of [createAlert]; [None] is a member left out, which the
    destructuring replaces by its default. *)
Record AlertData : Type := mkAlertData {
  type : option string;
  username : option string;
  message : option string;
  amount : option Z;
  bits : option Z;
  months : option Z;
  mega : option bool
}.

(** An alert element is named by its index in [store]. *)
Abbreviation Ref := nat (only parsing).

(** What a pending [setTimeout] runs: the callback of [displayAlert], which
    calls [removeAlert], or the inner callback of [removeAlert]. *)
Inductive Callback : Type :=
| Lifetime (alert : Ref)
| ExitDone (alert : Ref).

Record Timer : Type := mkTimer { due : nat; callback : Callback }.

(** [#alerts-container]: the element as found or created, and after its
    children the alert elements appended to it. *)
Record Container : Type := mkContainer {
  element : Element;
  shown : list Ref
}.

Record State : Type := mkState {
  store : list Element;
  alertQueue : list Ref;
  activeAlerts : list Ref;
  alertContainer : option Container;
  timers : list Timer;
  clock : nat;
  console : list string;
  played : list string
}.

Definition initial : State :=
  mkState [] [] [] None [] 0 [] [].

Definition set_store (v : list Element) (s : State) : State :=
  mkState v (alertQueue s) (activeAlerts s) (alertContainer s) (timers s)
          (clock s) (console s) (played s).
Definition set_alertQueue (v : list Ref) (s : State) : State :=
  mkState (store s) v (activeAlerts s) (alertContainer s) (timers s)
          (clock s) (console s) (played s).
Definition set_activeAlerts (v : list Ref) (s : State) : State :=
  mkState (store s) (alertQueue s) v (alertContainer s) (timers s)
          (clock s) (console s) (played s).
Definition set_alertContainer (v : option Container) (s : State) : State :=
  mkState (store s) (alertQueue s) (activeAlerts s) v (timers s)
          (clock s) (console s) (played s).
Definition set_timers (v : list Timer) (s : State) : State :=
  mkState (store s) (alertQueue s) (activeAlerts s) (alertContainer s) v
          (clock s) (console s) (played s).
Definition set_clock (v : nat) (s : State) : State :=
  mkState (store s) (alertQueue s) (activeAlerts s) (alertContainer s)
          (timers s) v (console s) (played s).
Definition console_error (msg : string) (s : State) : State :=
  mkState (store s) (alertQueue s) (activeAlerts s) (alertContainer s)
          (timers s) (clock s) (console s ++ [msg]) (played s).
Definition playAlertSound (soundPath : string) (s : State) : State :=
  mkState (store s) (alertQueue s) (activeAlerts s) (alertContainer s)
          (timers s) (clock s) (console s) (played s ++ [soundPath]).

Definition setTimeout (cb : Callback) (delay : nat) (s : State) : State :=
  set_timers (timers s ++ [mkTimer (clock s + delay) cb]) s.

Definition removeChild (alert : Ref) (c : Container) : Container :=
  mkContainer (element c) (filter (differs alert) (shown c)).

(** [alert.parentNode]: an alert element is only ever appended to the
    container. *)
Definition parentNode (alert : Ref) (s : State) : bool :=
  match alertContainer s with
  | Some c => existsb (Nat.eqb alert) (shown c)
  | None => false
  end.

(** [if (alert.parentNode) alert.parentNode.removeChild(alert)] *)
Definition detach (alert : Ref) (s : State) : State :=
  if parentNode alert s
  then set_alertContainer (option_map (removeChild alert) (alertContainer s)) s
  else s.

Fixpoint update {A : Type} (i : nat) (f : A -> A) (l : list A) : list A :=
  match l, i with
  | [], _ => []
  | x :: rest, 0 => f x :: rest
  | x :: rest, S j => x :: update j f rest
  end.

(** ** Alert creation and management *)

Definition displayAlert (alert : Ref) (s : State) : State :=
  match alertContainer s with
  | None => console_error "Alert container not found" s
  | Some c =>
      let s := set_activeAlerts (activeAlerts s ++ [alert]) s in
      let c := mkContainer (element c) (filter (differs alert) (shown c) ++ [alert]) in
      let s := set_alertContainer (Some c) s in
      setTimeout (Lifetime alert) ALERT_LIFETIME s
  end.

(** The element tree [createAlert] assembles. *)
Definition alertElement (type : string) (config : TypeConfig) (username message : string)
    (amount bits months : Z) (mega : bool) : Element :=
  let alert := createElement "div"
    (opts_attrs (filter truthy ["alert"; if mega then "mega" else ""])
                [("data-type", type)]) in
  let accentStripe := createElement "div" (opts ["alert-accent-stripe"]) in
  let content := createElement "div" (opts ["alert-content"]) in
  let icon := createElement "div" (opts_text ["alert-icon"] (icon config)) in
  let header := createElement "div" (opts_text ["alert-header"] (header config)) in
  let mainMessage := createElement "div" (opts_text ["alert-message"] username) in
  let content := appendChild content icon in
  let content := appendChild content header in
  let content := appendChild content mainMessage in
  let content :=
    if (type =? "subscribe") && (1 <? months)%Z
    then appendChild content
           (createElement "div"
              (opts_text ["alert-sub-message"]
                 (digits months ++ " month" ++ (if (1 <? months)%Z then "s" else "") ++ "!")))
    else content in
  let content :=
    if (type =? "donation") && (0 <? amount)%Z
    then appendChild content
           (createElement "div" (opts_text ["alert-amount"] (formatCurrency amount)))
    else content in
  let content :=
    if (type =? "cheer") && (0 <? bits)%Z
    then appendChild content
           (createElement "div" (opts_text ["alert-amount"] (formatNumber bits ++ " bits")))
    else content in
  let content :=
    if truthy message
    then appendChild content
           (createElement "div" (opts_text ["alert-sub-message"] (escapeHtml message)))
    else content in
  let alert := appendChild alert accentStripe in
  appendChild alert content.

Definition createAlert (alertData : AlertData) (s : State) : State :=
  let type := default "follow" (type alertData) in
  let username := default "Anonymous" (username alertData) in
  let message := default "" (message alertData) in
  let amount := default 0%Z (amount alertData) in
  let bits := default 0%Z (bits alertData) in
  let months := default 1%Z (months alertData) in
  let mega := default false (mega alertData) in
  match config_of (lookup types type) with
  | None => console_error ("Invalid alert type: " ++ type) s
  | Some config =>
      let alert := List.length (store s) in
      let s := set_store
                 (store s ++ [alertElement type config username message amount bits months mega]) s in
      let s :=
        if (List.length (activeAlerts s) <? MAX_ALERTS)%nat
        then displayAlert alert s
        else set_alertQueue (alertQueue s ++ [alert]) s in
      match sound config with
      | Some soundPath => if truthy soundPath then playAlertSound soundPath s else s
      | None => s
      end
  end.

(** [removeAlert(alert)] up to its [setTimeout]. *)
Definition removeAlert (alert : Ref) (s : State) : State :=
  let s := set_store (update alert (add_class "exiting") (store s)) s in
  setTimeout (ExitDone alert) EXIT_DELAY s.

(** The callback [removeAlert] hands to [setTimeout]. *)
Definition removeAlert_done (alert : Ref) (s : State) : State :=
  let s := detach alert s in
  let s := set_activeAlerts (filter (differs alert) (activeAlerts s)) s in
  match alertQueue s with
  | nextAlert :: rest => displayAlert nextAlert (set_alertQueue rest s)
  | [] => s
  end.

Definition clearAlerts (s : State) : State :=
  let s := fold_left (fun s alert => detach alert s) (activeAlerts s) s in
  let s := set_activeAlerts [] s in
  set_alertQueue [] s.

(** [initAlerts], given what [document.getElementById('alerts-container')]
    found.  (The demo generator it starts is one more caller of
    [createAlert]; its calls are [Create] events below.) *)
Definition initAlerts (found : option Element) (s : State) : State :=
  match found with
  | Some el => set_alertContainer (Some (mkContainer el [])) s
  | None =>
      let s := console_error "Alert container not found. Creating one..." s in
      set_alertContainer
        (Some (mkContainer (createElement "div" (opts_attrs [] [("id", "alerts-container")])) [])) s
  end.

(** ** The host event loop *)

Definition run_callback (cb : Callback) (s : State) : State :=
  match cb with
  | Lifetime alert => removeAlert alert s
  | ExitDone alert => removeAlert_done alert s
  end.

Fixpoint remove_nth {A : Type} (k : nat) (l : list A) : list A :=
  match l, k with
  | [], _ => []
  | _ :: rest, 0 => rest
  | x :: rest, S j => x :: remove_nth j rest
  end.

(** The [k]-th pending timer fires, if it is due: a timer never fires
    early, and among the timers that are due the loop may take any. *)
Definition fire (k : nat) (s : State) : State :=
  match nth_error (timers s) k with
  | Some t =>
      if (due t <=? clock s)%nat
      then run_callback (callback t) (set_timers (remove_nth k (timers s)) s)
      else s
  | None => s
  end.

Inductive Event : Type :=
| Create (alertData : AlertData)
| Clear
| Elapse (ms : nat)
| Fire (k : nat).

Definition step (s : State) (e : Event) : State :=
  match e with
  | Create d => createAlert d s
  | Clear => clearAlerts s
  | Elapse ms => set_clock (clock s + ms) s
  | Fire k => fire k s
  end.

Definition run (events : list Event) (s : State) : State :=
  fold_left step events s.

(** The widget once the page is ready. *)
Definition ready (found : option Element) : State := initAlerts found initial.

Definition alert_of (ty user : string) : AlertData :=
  mkAlertData (Some ty) (Some user) None None None None None.

(** ** Invariants of the reachable states *)

(** A type of the registry proper: one of the four members of
    [ALERT_CONFIG.types]. *)
Definition valid_type (d : AlertData) : Prop :=
  exists config, own_lookup types (default "follow" (type d)) = Some config.

(** The container exists and holds exactly the active alerts, in the same
    order; active and queued alerts are distinct elements, in the order of
    their creation, the queued ones younger than the active ones; and
    nothing waits while a slot is free. *)
Record Inv (s : State) : Prop := mkInv {
  inv_container : exists c, alertContainer s = Some c /\ shown c = activeAlerts s;
  inv_sorted : StronglySorted lt (activeAlerts s ++ alertQueue s);
  inv_fresh : Forall (fun r => r < List.length (store s)) (activeAlerts s ++ alertQueue s);
  inv_waiting : alertQueue s <> [] -> MAX_ALERTS <= List.length (activeAlerts s)
}.

Definition alert_of_callback (cb : Callback) : Ref :=
  match cb with
  | Lifetime a => a
  | ExitDone a => a
  end.

(** Every pending timer belongs to an active alert, and no two to the same
    one.  [clearAlerts] breaks this: it empties the active alerts and leaves
    their timers pending. *)
Record TimersInv (s : State) : Prop := mkTimersInv {
  tinv_distinct : NoDup (map (fun t => alert_of_callback (callback t)) (timers s));
  tinv_active : Forall (fun t => In (alert_of_callback (callback t)) (activeAlerts s)) (timers s)
}.

(** What holds as long as nothing is cleared. *)
Definition Good (s : State) : Prop :=
  Inv s /\ TimersInv s /\ List.length (activeAlerts s) <= MAX_ALERTS.

Definition is_clear (e : Event) : bool :=
  match e with
  | Clear => true
  | _ => false
  end.

End Alerts.

(* ================================================================== *)
(** * chat.js *)
(* ================================================================== *)

Module Chat.
Import Dom.

(** ** Configuration ([CHAT_CONFIG]) *)

Definition MAX_MESSAGES : nat := 50.
Definition AUTO_SCROLL : bool := true.

(** ** Data *)

(** The argument of [addChatLine]; [None] is a member left out. *)
Record MessageData : Type := mkMessageData {
  username : option string;
  message : option string;
  badges : option (list string);
  highlighted : option bool;
  system : option bool;
  cheer : option bool;
  bits : option Z;
  color : option string
}.

(** A message element is named by its index in [store]. *)
Abbreviation Ref := nat (only parsing).

(** What the browser's layout decides for [.chat-messages]: the height of
    its box and the height its children take when laid out. *)
Record Layout : Type := mkLayout {
  clientHeight : nat;
  contentHeight : list Node -> nat
}.

(** [.chat-messages]: the element with the children it had in the page,
    after them the message elements appended to it, and its scroll offset. *)
Record Container : Type := mkContainer {
  element : Element;
  shown : list Ref;
  scrollTop : nat
}.

Record State : Type := mkState {
  store : list Element;
  chatMessages : list Ref;
  chatContainer : option Container;
  isAutoScrollEnabled : bool;
  layout : Layout;
  console : list string
}.

Definition initial (l : Layout) : State :=
  mkState [] [] None AUTO_SCROLL l [].

Definition set_store (v : list Element) (s : State) : State :=
  mkState v (chatMessages s) (chatContainer s) (isAutoScrollEnabled s)
          (layout s) (console s).
Definition set_chatMessages (v : list Ref) (s : State) : State :=
  mkState (store s) v (chatContainer s) (isAutoScrollEnabled s)
          (layout s) (console s).
Definition set_chatContainer (v : option Container) (s : State) : State :=
  mkState (store s) (chatMessages s) v (isAutoScrollEnabled s)
          (layout s) (console s).
Definition console_error (msg : string) (s : State) : State :=
  mkState (store s) (chatMessages s) (chatContainer s) (isAutoScrollEnabled s)
          (layout s) (console s ++ [msg]).

(** The child nodes of the container, in document order. *)
Definition children (s : State) (c : Container) : list Node :=
  childNodes (element c)
  ++ flat_map (fun r => match nth_error (store s) r with
                        | Some e => [Elem e]
                        | None => []
                        end) (shown c).

(** [scrollHeight]: the height of the content, and no less than the box. *)
Definition scrollHeight (s : State) (c : Container) : nat :=
  Nat.max (clientHeight (layout s)) (contentHeight (layout s) (children s c)).

(** The largest scroll offset the element can take. *)
Definition scrollTopMax (s : State) (c : Container) : nat :=
  scrollHeight s c - clientHeight (layout s).

(** Assigning [scrollTop]: the browser clamps the value to the scrollable
    range. *)
Definition set_scrollTop (v : nat) (s : State) (c : Container) : Container :=
  mkContainer (element c) (shown c) (Nat.min v (scrollTopMax s c)).

(** What the browser does when it lays the container out after its
    children have changed: a scroll offset beyond the scrollable range is
    clamped to it.  The scripts change the children and return; the layout
    follows before the offset is read again. *)
Definition reflow (s : State) : State :=
  match chatContainer s with
  | Some c => set_chatContainer (Some (set_scrollTop (scrollTop c) s c)) s
  | None => s
  end.

(** ** Message management *)

Definition scrollToBottom (s : State) : State :=
  match chatContainer s with
  | Some c => set_chatContainer (Some (set_scrollTop (scrollHeight s c) s c)) s
  | None => s
  end.

(** The element tree [addChatLine] assembles. *)
Definition messageElement (now : Date) (username message : string)
    (badges : list string) (highlighted system cheer : bool) (bits : Z)
    (color : string) : Element :=
  let messageClasses := ["chat-message"] in
  let messageClasses := if highlighted then (messageClasses ++ ["highlighted"])%list else messageClasses in
  let messageClasses := if system then (messageClasses ++ ["system"])%list else messageClasses in
  let messageClasses := if cheer then (messageClasses ++ ["cheer"])%list else messageClasses in
  let messageElement := createElement "div" (opts messageClasses) in
  let messageHeader := createElement "div" (opts ["message-header"]) in
  let usernameSection := createElement "div" (opts ["message-username-section"]) in
  let usernameSection :=
    if (0 <? List.length badges)%nat
    then
      let badgesContainer := createElement "div" (opts ["message-badges"]) in
      let badgesContainer :=
        fold_left
          (fun container badgeType =>
             appendChild container
               (createElement "span" (opts_text ["badge"; badgeType] (toUpperCase badgeType))))
          badges badgesContainer in
      appendChild usernameSection badgesContainer
    else usernameSection in
  let usernameElement := createElement "span" (opts_text ["message-username"] username) in
  let usernameElement :=
    if truthy color then set_style "color" color usernameElement else usernameElement in
  let usernameSection := appendChild usernameSection usernameElement in
  let messageHeader := appendChild messageHeader usernameSection in
  let timestamp := createElement "span"
                     (opts_text ["message-timestamp"] (formatTimestamp now false)) in
  let messageHeader := appendChild messageHeader timestamp in
  let contentElement := createElement "div" (opts ["message-content"]) in
  let processedMessage := escapeHtml message in
  let processedMessage :=
    if cheer && (0 <? bits)%Z
    then "Cheered " ++ formatNumber bits ++ " bits: " ++ processedMessage
    else processedMessage in
  let contentElement := set_innerHTML processedMessage contentElement in
  let messageElement := appendChild messageElement messageHeader in
  appendChild messageElement contentElement.

(** [addChatLine(messageData)], called when the clock reads [now].  The
    result is [None] when the call throws: [classList.add] refuses a badge
    type that is no class token, before anything has been changed.  Without
    auto-scroll the script does not touch the scroll offset, and the browser
    clamps it when the eviction has made the content shorter. *)
Definition addChatLine (now : Date) (messageData : MessageData) (s : State)
  : option State :=
  let username := default "Anonymous" (username messageData) in
  let message := default "" (message messageData) in
  let badges := default [] (badges messageData) in
  let highlighted := default false (highlighted messageData) in
  let system := default false (system messageData) in
  let cheer := default false (cheer messageData) in
  let bits := default 0%Z (bits messageData) in
  let color := default "" (color messageData) in
  match chatContainer s with
  | None => Some (console_error "Chat container not found" s)
  | Some c =>
      if negb (forallb valid_token badges) then None
      else
        let messageElement := List.length (store s) in
        let s := set_store
                   (store s ++ [Chat.messageElement now username message badges
                                  highlighted system cheer bits color]) s in
        let c := mkContainer (element c)
                   (filter (differs messageElement) (shown c) ++ [messageElement])
                   (scrollTop c) in
        let s := set_chatContainer (Some c) s in
        let s := set_chatMessages (chatMessages s ++ [messageElement]) s in
        let s :=
          if (MAX_MESSAGES <? List.length (chatMessages s))%nat
          then
            match chatMessages s with
            | oldMessage :: rest =>
                let s := set_chatMessages rest s in
                if existsb (Nat.eqb oldMessage) (shown c)
                then set_chatContainer
                       (Some (mkContainer (element c)
                                (filter (differs oldMessage) (shown c)) (scrollTop c))) s
                else s
            | [] => s
            end
          else s in
        Some (if isAutoScrollEnabled s then scrollToBottom s else reflow s)
  end.

Definition addSystemMessage (now : Date) (message : string) (s : State)
  : option State :=
  addChatLine now
    (mkMessageData (Some "System") (Some message) (Some []) None (Some true)
       None None None) s.

Definition clearChat (s : State) : State :=
  let s :=
    match chatContainer s with
    | Some c =>
        set_chatContainer
          (Some (mkContainer (set_innerHTML "" (element c)) [] (scrollTop c))) s
    | None => s
    end in
  reflow (set_chatMessages [] s).

Definition setAutoScroll (enabled : bool) (s : State) : State :=
  mkState (store s) (chatMessages s) (chatContainer s) enabled
          (layout s) (console s).

(** [initChat], given what [document.querySelector('.chat-messages')]
    found and where that element is scrolled to.  (The status indicator it
    resets is another element; the demo generator it starts is one more
    caller of [addChatLine], its calls are [Add] events below.) *)
Definition initChat (found : option (Element * nat)) (s : State) : State :=
  match found with
  | None => console_error "Chat messages container not found" s
  | Some (el, top) => reflow (set_chatContainer (Some (mkContainer el [] top)) s)
  end.

Inductive Event : Type :=
| Add (now : Date) (messageData : MessageData)
| Clear
| AutoScroll (enabled : bool).

(** A call that throws leaves the state as it was. *)
Definition step (s : State) (e : Event) : State :=
  match e with
  | Add now d => match addChatLine now d s with Some s' => s' | None => s end
  | Clear => clearChat s
  | AutoScroll b => setAutoScroll b s
  end.

Definition run (events : list Event) (s : State) : State :=
  fold_left step events s.

Definition ready (l : Layout) (found : option (Element * nat)) : State :=
  initChat found (initial l).

(** The last child of the container. *)
Definition lastChild (s : State) : option Node :=
  match chatContainer s with
  | Some c => last (map Some (children s c)) None
  | None => None
  end.

(** The element [addChatLine] builds from [messageData] at [now]. *)
Definition element_of (now : Date) (messageData : MessageData) : Element :=
  messageElement now
    (default "Anonymous" (username messageData))
    (default "" (message messageData))
    (default [] (badges messageData))
    (default false (highlighted messageData))
    (default false (system messageData))
    (default false (cheer messageData))
    (default 0%Z (bits messageData))
    (default "" (color messageData)).

(** The markup an element got by an assignment to [innerHTML]. *)
Definition innerHTML (e : Element) : option string :=
  match childNodes e with
  | [] => Some ""
  | [InnerHTML markup] => Some markup
  | _ => None
  end.

(** The markup of the [.message-content] child of a message element. *)
Definition messageContent (messageElement : Element) : option string :=
  match find (has_class "message-content") (childNodes messageElement) with
  | Some (Elem contentElement) => innerHTML contentElement
  | _ => None
  end.

(** ** Invariant of the reachable states *)

(** Message elements are named by indices of the store, and the list of
    messages is within its capacity. *)
Record Inv (s : State) : Prop := mkInv {
  inv_messages : Forall (fun r => r < List.length (store s)) (chatMessages s);
  inv_bound : List.length (chatMessages s) <= MAX_MESSAGES
}.

(** The scroll offset of the container is one the browser allows. *)
Definition in_range (s : State) : Prop :=
  match chatContainer s with
  | Some c => scrollTop c <= scrollTopMax s c
  | None => True
  end.

End Chat.

(* ================================================================== *)
(** * ticker.js *)
(* ================================================================== *)

Module Ticker.
Import Dom.

(** ** Configuration ([TICKER_CONFIG]) *)

Definition MAX_ITEMS : nat := 20.
Definition SCROLL_SPEED : nat := 30.

Definition icons : list (string * string) :=
  [ ("follow", "👤"); ("subscribe", "⭐"); ("donation", "💵");
    ("cheer", "💎"); ("raid", "🚀"); ("host", "📺") ].

(** ** Data *)

(** The argument of [addTickerItem]; [None] is a member left out. *)
Record ItemData : Type := mkItemData {
  type : option string;
  username : option string;
  action : option string;
  detail : option string
}.

(** [.ticker-track] and the other children of its parent element, those
    before it and those after it in document order. *)
Record Surface : Type := mkSurface {
  track : Element;
  before : list Node;
  after : list Node
}.

Record State : Type := mkState {
  tickerItems : list ItemData;
  tickerTrack : option Surface;
  console : list string
}.

Definition initial : State := mkState [] None [].

Definition console_error (msg : string) (s : State) : State :=
  mkState (tickerItems s) (tickerTrack s) (console s ++ [msg]).
Definition set_tickerItems (v : list ItemData) (s : State) : State :=
  mkState v (tickerTrack s) (console s).
Definition set_tickerTrack (v : option Surface) (s : State) : State :=
  mkState (tickerItems s) v (console s).

(** [TICKER_CONFIG.icons[type] || '●'], as the text it becomes. *)
Definition icon_text (type : string) : string :=
  match lookup icons type with
  | Own i => if truthy i then i else "●"
  | Inherited key => inherited_to_string key
  | Undefined => "●"
  end.

Definition createTickerItem (itemData : ItemData) : Element :=
  let type := default "follow" (type itemData) in
  let username := default "Anonymous" (username itemData) in
  let action := default "followed" (action itemData) in
  let detail := default "" (detail itemData) in
  let item := createElement "div" (opts_attrs ["ticker-item"] [("data-type", type)]) in
  let icon := createElement "div" (opts_text ["ticker-icon"] (icon_text type)) in
  let textContent := createElement "div" (opts ["ticker-text"]) in
  let usernameSpan := createElement "span" (opts_text ["ticker-username"] username) in
  let actionSpan := createElement "span" (opts_text ["ticker-action"] action) in
  let textContent := appendChild textContent usernameSpan in
  let textContent := appendChild textContent actionSpan in
  let textContent :=
    if truthy detail
    then appendChild textContent
           (createElement "span" (opts_text ["ticker-detail"] detail))
    else textContent in
  let item := appendChild item icon in
  appendChild item textContent.

Definition separator : Element := createElement "span" (opts ["ticker-separator"]).

(** One pass of [items.forEach] in [renderTicker]: every item followed by a
    separator. *)
Definition render_set (items : list ItemData) : list Node :=
  flat_map (fun itemData => [Elem (createTickerItem itemData); Elem separator]) items.

(** [n] without the first of its descendants, in document order, that has
    class [c]; [None] when there is none. *)
Fixpoint remove_first (c : string) (n : Node) : option Node :=
  match n with
  | Elem (mkElement t cl a st kids) =>
      option_map (fun kids' => Elem (mkElement t cl a st kids'))
        ((fix go (ns : list Node) : option (list Node) :=
            match ns with
            | [] => None
            | k :: rest =>
                if has_class c k then Some rest
                else match remove_first c k with
                     | Some k' => Some (k' :: rest)
                     | None => option_map (cons k) (go rest)
                     end
            end) kids)
  | _ => None
  end.

Fixpoint remove_first_in (c : string) (ns : list Node) : option (list Node) :=
  match ns with
  | [] => None
  | k :: rest =>
      if has_class c k then Some rest
      else match remove_first c k with
           | Some k' => Some (k' :: rest)
           | None => option_map (cons k) (remove_first_in c rest)
           end
  end.

(** [parentElement.querySelector('.ticker-empty')] followed by [remove()],
    at a moment when the track has no children. *)
Definition remove_empty_message (sf : Surface) : Surface :=
  match remove_first_in "ticker-empty" (before sf) with
  | Some b => mkSurface (track sf) b (after sf)
  | None =>
      match remove_first_in "ticker-empty" (after sf) with
      | Some a => mkSurface (track sf) (before sf) a
      | None => sf
      end
  end.

Definition updateScrollSpeed (s : State) : State :=
  match tickerTrack s with
  | Some sf =>
      let duration := Nat.max SCROLL_SPEED (List.length (tickerItems s) * 2) in
      set_tickerTrack
        (Some (mkSurface (set_style "animationDuration" (nat_string duration ++ "s") (track sf))
                 (before sf) (after sf))) s
  | None => s
  end.

(** The placeholder [renderTicker] shows for an empty list. *)
Definition emptyMessage : Element :=
  createElement "div" (opts_text ["ticker-empty"] "No recent events").

Definition renderTicker (items : list ItemData) (s : State) : State :=
  match tickerTrack s with
  | None => console_error "Ticker track not found" s
  | Some sf =>
      let sf := mkSurface (set_childNodes [] (track sf)) (before sf) (after sf) in
      if (List.length items =? 0)%nat
      then
        set_tickerTrack (Some (mkSurface (track sf) (before sf) (after sf ++ [Elem emptyMessage]))) s
      else
        let sf := remove_empty_message sf in
        let sf := mkSurface (set_childNodes (childNodes (track sf) ++ render_set items) (track sf))
                    (before sf) (after sf) in
        let sf := mkSurface (set_childNodes (childNodes (track sf) ++ render_set items) (track sf))
                    (before sf) (after sf) in
        updateScrollSpeed (set_tickerTrack (Some sf) s)
  end.

Definition addTickerItem (itemData : ItemData) (s : State) : State :=
  let s := set_tickerItems (itemData :: tickerItems s) s in
  let s :=
    if (MAX_ITEMS <? List.length (tickerItems s))%nat
    then set_tickerItems (firstn MAX_ITEMS (tickerItems s)) s
    else s in
  renderTicker (tickerItems s) s.

Definition clearTicker (s : State) : State :=
  let s := set_tickerItems [] s in
  renderTicker (tickerItems s) s.

Definition on_track (f : Element -> Element) (s : State) : State :=
  match tickerTrack s with
  | Some sf => set_tickerTrack (Some (mkSurface (f (track sf)) (before sf) (after sf))) s
  | None => s
  end.

Definition setTickerSpeed (speed : string) (s : State) : State :=
  on_track
    (fun t =>
       let t := remove_class "fast" (remove_class "slow" t) in
       if speed =? "slow" then add_class "slow" t
       else if speed =? "fast" then add_class "fast" t
       else t) s.

Definition pauseTicker (s : State) : State :=
  on_track (set_style "animationPlayState" "paused") s.

Definition resumeTicker (s : State) : State :=
  on_track (set_style "animationPlayState" "running") s.

(** [initTicker], given what [document.querySelector('.ticker-track')]
    found.  (The demo generator it starts is one more caller of
    [addTickerItem]; [window.tickerItems] is a second name of the list and is
    kept equal to it.) *)
Definition initTicker (found : option Surface) (s : State) : State :=
  match found with
  | None => console_error "Ticker track not found" s
  | Some sf => set_tickerTrack (Some sf) s
  end.

Inductive Event : Type :=
| Add (itemData : ItemData)
| Clear
| Speed (speed : string)
| Pause
| Resume.

Definition step (s : State) (e : Event) : State :=
  match e with
  | Add d => addTickerItem d s
  | Clear => clearTicker s
  | Speed v => setTickerSpeed v s
  | Pause => pauseTicker s
  | Resume => resumeTicker s
  end.

Definition run (events : list Event) (s : State) : State :=
  fold_left step events s.

Definition ready (found : option Surface) : State := initTicker found initial.

(** An empty [.ticker-track] alone in its parent. *)
Definition bare : Surface :=
  mkSurface (createElement "div" (opts ["ticker-track"])) [] [].

Definition item_of (ty user act det : string) : ItemData :=
  mkItemData (Some ty) (Some user) (Some act) (Some det).

(** [tickerTrack.style.animationDuration], when it has been set. *)
Definition animationDuration (s : State) : option string :=
  match tickerTrack s with
  | Some sf => own_lookup (style (track sf)) "animationDuration"
  | None => None
  end.

(** The children of the track. *)
Definition rendered (s : State) : option (list Node) :=
  option_map (fun sf => childNodes (track sf)) (tickerTrack s).

(** The placeholders among the siblings that follow the track. *)
Definition placeholders (s : State) : option (list Node) :=
  option_map (fun sf => filter (has_class "ticker-empty") (after sf)) (tickerTrack s).

End Ticker.

(* ================================================================== *)
(** * Observations on strings *)
(* ================================================================== *)

Module Text.

(** Every character of [s] satisfies [p]. *)
Fixpoint all_chars (p : ascii -> bool) (s : string) : bool :=
  match s with
  | EmptyString => true
  | String c rest => p c && all_chars p rest
  end.

(** The number of characters of [s] that satisfy [p]. *)
Fixpoint count_chars (p : ascii -> bool) (s : string) : nat :=
  match s with
  | EmptyString => 0
  | String c rest => (if p c then 1 else 0) + count_chars p rest
  end.

(** [s] without the characters that satisfy [p]. *)
Fixpoint drop_chars (p : ascii -> bool) (s : string) : string :=
  match s with
  | EmptyString => EmptyString
  | String c rest => if p c then drop_chars p rest else String c (drop_chars p rest)
  end.

Definition is_comma (c : ascii) : bool := Ascii.eqb c ",".

(** The lengths of the pieces of [s] between its commas, from left to
    right. *)
Fixpoint group_lengths (s : string) : list nat :=
  match s with
  | EmptyString => [0]
  | String c rest =>
      if is_comma c then 0 :: group_lengths rest
      else match group_lengths rest with
           | g :: gs => S g :: gs
           | [] => [1]
           end
  end.

Definition is_digit (c : ascii) : bool :=
  let n := nat_of_ascii c in ((48 <=? n) && (n <=? 57))%nat.

(** The characters that open or close a tag. *)
Definition is_angle (c : ascii) : bool := Ascii.eqb c "<" || Ascii.eqb c ">".

(** The characters of markup: the ampersand and the angle brackets. *)
Definition is_markup (c : ascii) : bool :=
  Ascii.eqb c "&" || Ascii.eqb c "<" || Ascii.eqb c ">".

(** [s] holds a no-break space, the bytes 194 160 one after the other. *)
Fixpoint has_nbsp (s : string) : bool :=
  match s with
  | EmptyString => false
  | String c rest =>
      match rest with
      | String c2 _ =>
          ((nat_of_ascii c =? 194) && (nat_of_ascii c2 =? 160))%nat || has_nbsp rest
      | EmptyString => false
      end
  end.

(** [s] holds a character of markup or a no-break space. *)
Definition needs_escape (s : string) : bool :=
  negb (all_chars (fun c => negb (is_markup c)) s) || has_nbsp s.

Definition is_letter (c : ascii) : bool :=
  let n := nat_of_ascii c in
  (((65 <=? n) && (n <=? 90)) || ((97 <=? n) && (n <=? 122)))%nat.

(** A letter followed by letters, digits, "-" and "_": a name that
    [setAttribute] accepts. *)
Definition attribute_name (s : string) : bool :=
  match s with
  | EmptyString => false
  | String c rest =>
      is_letter c
      && all_chars (fun c => is_letter c || is_digit c || Ascii.eqb c "-" || Ascii.eqb c "_")
           rest
  end.

(** An attribute that [setAttribute] accepts and that is not the [class]
    attribute. *)
Definition other_attribute (kv : string * string) : bool :=
  attribute_name (fst kv) && negb (Dom.toLowerCase (fst kv) =? "class")%string.

(** The number two decimal digits write. *)
Definition two_digits (a b : ascii) : option nat :=
  if is_digit a && is_digit b
  then Some (10 * (nat_of_ascii a - 48) + (nat_of_ascii b - 48))
  else None.

(** Reading a time of day back from "HH:MM" or "HH:MM:SS": the hours, the
    minutes and, when they are written, the seconds. *)
Definition read_time (s : string) : option (nat * nat * option nat) :=
  match s with
  | String h1 (String h2 (String c1 (String m1 (String m2 rest)))) =>
      if Ascii.eqb c1 ":" then
        match two_digits h1 h2, two_digits m1 m2 with
        | Some h, Some m =>
            match rest with
            | EmptyString => Some (h, m, None)
            | String c2 (String s1 (String s2 EmptyString)) =>
                if Ascii.eqb c2 ":" then
                  match two_digits s1 s2 with
                  | Some sec => Some (h, m, Some sec)
                  | None => None
                  end
                else None
            | _ => None
            end
        | _, _ => None
        end
      else None
  | _ => None
  end.

End Text.

(* ================================================================== *)
(** * Observations on the ticker *)
(* ================================================================== *)

Module TickerView.
Import Dom Ticker.

(** [tickerTrack.style.animationPlayState], when it has been set. *)
Definition animationPlayState (s : State) : option string :=
  match tickerTrack s with
  | Some sf => own_lookup (style (track sf)) "animationPlayState"
  | None => None
  end.

Definition is_resume (e : Event) : bool :=
  match e with
  | Resume => true
  | _ => false
  end.

End TickerView.

(* ================================================================== *)
(** * Observations on the chat *)
(* ================================================================== *)

Module ChatView.
Import Dom Chat.

(** The Backing List is the run of the most recently created message
    elements, oldest first, and the container shows exactly these after the
    children it had in the page. *)
Record Window (s : State) : Prop := mkWindow {
  win_fresh : List.length (chatMessages s) <= List.length (store s);
  win_run : chatMessages s
            = seq (List.length (store s) - List.length (chatMessages s))
                  (List.length (chatMessages s));
  win_shown : match chatContainer s with
              | Some c => shown c = chatMessages s
              | None => chatMessages s = []
              end
}.

(** The record [addSystemMessage] hands to [addChatLine]. *)
Definition systemData (message : string) : MessageData :=
  mkMessageData (Some "System") (Some message) (Some []) None (Some true)
    None None None.

End ChatView.

(* ================================================================== *)
(** * Observations on the alerts *)
(* ================================================================== *)

Module AlertsView.
Import Dom Alerts.

(** The alerts the pending timers are about, one entry a timer. *)
Definition pending (s : State) : list nat :=
  map (fun t => alert_of_callback (callback t)) (timers s).

(** Every active alert has a pending timer, and no pending timer is due
    later than one lifetime from now. *)
Record Covered (s : State) : Prop := mkCovered {
  cov_active : Forall (fun a => In a (pending s)) (activeAlerts s);
  cov_due : Forall (fun t => due t <= clock s + ALERT_LIFETIME) (timers s)
}.

End AlertsView.

(* ================================================================== *)
(** * shared.js: random choices *)
(* ================================================================== *)

Module Shared.
Import Dom.

(** A value of [Math.random()]: a number of the interval from 0 to 1, 1
    excluded, here the fraction [num / (num + gap + 1)].  Products with it
    are taken exactly. *)
Record Random : Type := mkRandom { num : nat; gap : nat }.

Definition den (r : Random) : nat := num r + gap r + 1.

(** [Math.floor(r * n)] for a length [n]. *)
Definition floor_mul (r : Random) (n : nat) : nat := (num r * n) / den r.

(** [Math.floor(r * k)] for an integer [k] of any sign. *)
Definition floor_mulZ (r : Random) (k : Z) : Z :=
  (Z.of_nat (num r) * k / Z.of_nat (den r))%Z.

(** A computation that calls [Math.random()]: it is given the values the
    calls return, by the number of the call, and the number of calls made
    so far; it gives its result and the number of calls made after it. *)
Definition Gen (A : Type) : Type := (nat -> Random) -> nat -> A * nat.

Definition ret {A : Type} (a : A) : Gen A := fun _ calls => (a, calls).

Definition bind {A B : Type} (m : Gen A) (f : A -> Gen B) : Gen B :=
  fun source calls => let (a, calls') := m source calls in f a source calls'.

Definition random : Gen Random := fun source calls => (source calls, S calls).

Notation "x <- m ;; f" := (bind m (fun x => f))
  (at level 61, m at next level, right associativity).

(** [randomItem(array)]: [None] is [undefined], the value of an index the
    array does not have. *)
Definition randomItem {A : Type} (array : list A) : Gen (option A) :=
  r <- random ;;
  ret (nth_error array (floor_mul r (List.length array))).

Definition randomInt (min max : Z) : Gen Z :=
  r <- random ;;
  ret (floor_mulZ r (max - min + 1) + min)%Z.

(** [[a[i], a[j]] = [a[j], a[i]]]: both elements are read, then [a[i]] and
    [a[j]] are written, in this order.  ([shuffleArray] calls it with
    indices of the array only.) *)
Definition swap {A : Type} (i j : nat) (a : list A) : list A :=
  match nth_error a i, nth_error a j with
  | Some x, Some y => Alerts.update j (fun _ => x) (Alerts.update i (fun _ => y) a)
  | _, _ => a
  end.

(** The loop of [shuffleArray], from index [i] down to 1. *)
Fixpoint shuffle_from {A : Type} (i : nat) (shuffled : list A) : Gen (list A) :=
  match i with
  | 0 => ret shuffled
  | S i' =>
      r <- random ;;
      let j := floor_mul r (i + 1) in
      shuffle_from i' (swap i j shuffled)
  end.

Definition shuffleArray {A : Type} (array : list A) : Gen (list A) :=
  let shuffled := array in
  shuffle_from (List.length shuffled - 1) shuffled.

End Shared.

(* ================================================================== *)
(** * shared.js: throttle and debounce *)
(* ================================================================== *)

(** [throttle(func, limit)]: the state of one throttled function, with the
    reset callbacks it has handed to [setTimeout] and the calls of [func] it
    has made. *)
Module Throttle.
Section Throttled.

Variable Args : Type.
Variable limit : nat.

(** How a call of [func] ends. *)
Inductive Outcome : Type :=
| Returns
| Throws.

(** What [func] does in one call: the calls of the throttled function it
    makes while it runs, each with what [func] does if that call reaches
    it, and how it ends. *)
Inductive Behaviour : Type :=
| mkBehaviour (reentrant : list (Args * Behaviour)) (outcome : Outcome).

Record State : Type := mkState {
  inThrottle : bool;
  (** the times at which the pending [() => inThrottle = false] are due *)
  timers : list nat;
  clock : nat;
  (** the calls of [func]: when, and with which arguments *)
  invoked : list (nat * Args)
}.

(** [inThrottle] starts [undefined], which is falsy. *)
Definition initial : State := mkState false [] 0 [].

(** [executedFunction(...args)], when [func] behaves as [b] says.  [func]
    is called first: while it runs the throttle is still open, and when it
    throws the flag is not set and no timer is started. *)
Fixpoint executedFunction (args : Args) (b : Behaviour) (s : State) {struct b}
  : State :=
  if inThrottle s then s
  else
    match b with
    | mkBehaviour reentrant outcome =>
        let s := mkState (inThrottle s) (timers s) (clock s)
                         (invoked s ++ [(clock s, args)]) in
        let s :=
          (fix calls (l : list (Args * Behaviour)) (s : State) : State :=
             match l with
             | [] => s
             | (a, b') :: rest => calls rest (executedFunction a b' s)
             end) reentrant s in
        match outcome with
        | Throws => s
        | Returns => mkState true (timers s ++ [clock s + limit]) (clock s) (invoked s)
        end
    end.

(** The [k]-th pending timer fires, if it is due. *)
Definition fire (k : nat) (s : State) : State :=
  match nth_error (timers s) k with
  | Some due =>
      if (due <=? clock s)%nat
      then mkState false (Alerts.remove_nth k (timers s)) (clock s) (invoked s)
      else s
  | None => s
  end.

Inductive Event : Type :=
| Call (args : Args) (b : Behaviour)
| Elapse (ms : nat)
| Fire (k : nat).

Definition step (s : State) (e : Event) : State :=
  match e with
  | Call args b => executedFunction args b s
  | Elapse ms => mkState (inThrottle s) (timers s) (clock s + ms) (invoked s)
  | Fire k => fire k s
  end.

Definition run (events : list Event) (s : State) : State :=
  fold_left step events s.

(** A [func] that returns and does not call the throttled function. *)
Definition plain : Behaviour := mkBehaviour [] Returns.

(** A [func] that throws. *)
Definition throwing : Behaviour := mkBehaviour [] Throws.

(** A [func] that calls the throttled function once more, with [args], and
    returns, as does the call it leads to. *)
Definition again (args : Args) : Behaviour := mkBehaviour [(args, plain)] Returns.

Definition is_plain (e : Event) : bool :=
  match e with
  | Call _ (mkBehaviour [] Returns) => true
  | Call _ _ => false
  | _ => true
  end.

(** While the throttle is closed exactly one reset is pending, due [limit]
    after the last call of [func]; while it is open none is pending and the
    last call of [func] is at least [limit] old.  The calls of [func] are at
    least [limit] apart. *)
Record Inv (s : State) : Prop := mkInv {
  inv_spaced : StronglySorted (fun a b => fst a + limit <= fst b) (invoked s);
  inv_timers :
    if inThrottle s
    then exists due, timers s = [due] /\ due <= clock s + limit /\
                     Forall (fun a => fst a + limit <= due) (invoked s)
    else timers s = [] /\ Forall (fun a => fst a + limit <= clock s) (invoked s);
  inv_past : Forall (fun a => fst a <= clock s) (invoked s)
}.

End Throttled.

Arguments mkBehaviour {Args} _ _.
Arguments mkState {Args} _ _ _ _.
Arguments inThrottle {Args} _.
Arguments timers {Args} _.
Arguments clock {Args} _.
Arguments invoked {Args} _.
Arguments initial {Args}.
Arguments executedFunction {Args} _ _ _ _.
Arguments fire {Args} _ _.
Arguments Call {Args} _ _.
Arguments Elapse {Args} _.
Arguments Fire {Args} _.
Arguments step {Args} _ _ _.
Arguments run {Args} _ _ _.
Arguments plain {Args}.
Arguments throwing {Args}.
Arguments again {Args} _.
Arguments is_plain {Args} _.
Arguments Inv {Args} _ _.

End Throttle.

(** [debounce(func, wait)]: the state of one debounced function.  A timer
    has the identifier [setTimeout] returned for it. *)
Module Debounce.
Section Debounced.

Variable Args : Type.
Variable wait : nat.

(** A pending [later]: its identifier, when it is due, and the arguments
    of the call that made it. *)
Record Timer : Type := mkTimer { id : nat; due : nat; args : Args }.

Record State : Type := mkState {
  (** [timeout]; [None] is [undefined] *)
  timeout : option nat;
  timers : list Timer;
  (** the identifier the next [setTimeout] returns *)
  nextId : nat;
  clock : nat;
  (** the calls of [func]: when, and with which arguments *)
  invoked : list (nat * Args)
}.

Definition initial : State := mkState None [] 1 0 [].

(** [clearTimeout(id)]: nothing happens when no pending timer has this
    identifier. *)
Definition clearTimeout (i : option nat) (s : State) : State :=
  match i with
  | Some i =>
      mkState (timeout s) (filter (fun t => negb (id t =? i)%nat) (timers s))
              (nextId s) (clock s) (invoked s)
  | None => s
  end.

Definition executedFunction (a : Args) (s : State) : State :=
  let s := clearTimeout (timeout s) s in
  mkState (Some (nextId s)) (timers s ++ [mkTimer (nextId s) (clock s + wait) a])
          (S (nextId s)) (clock s) (invoked s).

(** The callback [later] of the call with the arguments [a]. *)
Definition later (a : Args) (s : State) : State :=
  let s := clearTimeout (timeout s) s in
  mkState (timeout s) (timers s) (nextId s) (clock s) (invoked s ++ [(clock s, a)]).

(** The [k]-th pending timer fires, if it is due. *)
Definition fire (k : nat) (s : State) : State :=
  match nth_error (timers s) k with
  | Some t =>
      if (due t <=? clock s)%nat
      then later (args t)
             (mkState (timeout s) (Alerts.remove_nth k (timers s)) (nextId s)
                      (clock s) (invoked s))
      else s
  | None => s
  end.

Inductive Event : Type :=
| Call (a : Args)
| Elapse (ms : nat)
| Fire (k : nat).

Definition step (s : State) (e : Event) : State :=
  match e with
  | Call a => executedFunction a s
  | Elapse ms => mkState (timeout s) (timers s) (nextId s) (clock s + ms) (invoked s)
  | Fire k => fire k s
  end.

Definition run (events : list Event) (s : State) : State :=
  fold_left step events s.

(** The last call of the debounced function among [events], with its time
    and its arguments, when the clock reads [now] before the first event and
    the last call before it is [previous]. *)
Fixpoint last_from (events : list Event) (now : nat) (previous : option (nat * Args))
  : option (nat * Args) :=
  match events with
  | [] => previous
  | Call a :: rest => last_from rest now (Some (now, a))
  | Elapse ms :: rest => last_from rest (now + ms) previous
  | Fire _ :: rest => last_from rest now previous
  end.

Definition last_call (events : list Event) : option (nat * Args) :=
  last_from events 0 None.

(** At most one timer is pending: the one of the last call, named by
    [timeout]. *)
Definition Pending (s : State) (last : option (nat * Args)) : Prop :=
  timers s = [] \/
  exists i called a,
    timers s = [mkTimer i (called + wait) a] /\ timeout s = Some i /\
    last = Some (called, a).

End Debounced.

Arguments mkTimer {Args} _ _ _.
Arguments id {Args} _.
Arguments due {Args} _.
Arguments args {Args} _.
Arguments mkState {Args} _ _ _ _ _.
Arguments timeout {Args} _.
Arguments timers {Args} _.
Arguments nextId {Args} _.
Arguments clock {Args} _.
Arguments invoked {Args} _.
Arguments initial {Args}.
Arguments clearTimeout {Args} _ _.
Arguments executedFunction {Args} _ _ _.
Arguments later {Args} _ _.
Arguments fire {Args} _ _.
Arguments Call {Args} _.
Arguments Elapse {Args} _.
Arguments Fire {Args} _.
Arguments step {Args} _ _ _.
Arguments run {Args} _ _ _.
Arguments last_from {Args} _ _ _.
Arguments last_call {Args} _.
Arguments Pending {Args} _ _ _.

End Debounce.

(* ================================================================== *)
(** * The demo generators *)
(* ================================================================== *)

(** alerts.js: [generateDemoAlert] *)
Module AlertsDemo.
Import Dom Shared.

Definition usernames : list string :=
  [ "SpeedRacer88"; "TurboDriver"; "NitroBoost"; "CheckeredFlag";
    "PitCrewPro"; "FastLane99"; "RacingLegend"; "TrackStar";
    "ThrottleMax"; "VictoryLap"; "PolesPosition"; "DraftMaster" ].

Definition messages : list string :=
  [ "Great stream!"; "Love the content!"; "Keep it up!"; "Amazing race!";
    "You got this!"; "GG WP"; "Hype!"; "Let's go!" ].

(** [r > 0.7], with the fraction the constant [0.7] stands for. *)
Definition above_0_7 (r : Random) : bool :=
  (3152519739159347 * Z.of_nat (den r) <? Z.of_nat (num r) * 4503599627370496)%Z.

(** [type === v], where [type] may be [undefined]. *)
Definition equals (type : option string) (v : string) : bool :=
  match type with
  | Some t => (t =? v)%string
  | None => false
  end.

(** The record [generateDemoAlert] builds. *)
Definition alertData : Gen Alerts.AlertData :=
  let types := ["follow"; "subscribe"; "donation"; "cheer"] in
  type <- randomItem types ;;
  username <- randomItem usernames ;;
  r <- random ;;
  message <- (if above_0_7 r then randomItem messages else ret (Some "")) ;;
  if equals type "subscribe" then
    months <- randomInt 1 24 ;;
    ret (Alerts.mkAlertData type username message None None (Some months) None)
  else if equals type "donation" then
    amount <- randomInt 1 100 ;;
    ret (Alerts.mkAlertData type username message (Some amount) None None
           (Some (50 <=? amount)%Z))
  else if equals type "cheer" then
    bits <- randomInt 100 10000 ;;
    ret (Alerts.mkAlertData type username message None (Some bits) None
           (Some (5000 <=? bits)%Z))
  else
    ret (Alerts.mkAlertData type username message None None None None).

Definition generateDemoAlert (s : Alerts.State) : Gen Alerts.State :=
  d <- alertData ;;
  ret (Alerts.createAlert d s).

End AlertsDemo.

(** ticker.js: [generateDemoEvent] *)
Module TickerDemo.
Import Dom Shared.

Definition usernames : list string :=
  [ "SpeedDemon"; "RoadRunner"; "FastFurious"; "NOS_Master";
    "DriftKing"; "ApexHunter"; "GridStartPro"; "Overtaker";
    "SlipstreamAce"; "PolePosition"; "PitStop"; "FuelStrategy" ].

Definition types : list string :=
  ["follow"; "subscribe"; "donation"; "cheer"; "raid"].

(** The [switch (type)]: the action and the detail of the event. *)
Definition describe (type : option string) : Gen (string * string) :=
  if AlertsDemo.equals type "follow" then ret ("followed", "")
  else if AlertsDemo.equals type "subscribe" then
    months <- randomInt 1 24 ;;
    if (months =? 1)%Z then ret ("subscribed", "")
    else ret ("subscribed for", digits months ++ " months")
  else if AlertsDemo.equals type "donation" then
    amount <- randomInt 5 100 ;;
    ret ("donated", formatCurrency amount)
  else if AlertsDemo.equals type "cheer" then
    bits <- randomInt 100 5000 ;;
    ret ("cheered", formatNumber bits ++ " bits")
  else if AlertsDemo.equals type "raid" then
    viewers <- randomInt 10 500 ;;
    ret ("raided with", formatNumber viewers ++ " viewers")
  else ret ("", "").

(** The record [generateDemoEvent] builds. *)
Definition itemData : Gen Ticker.ItemData :=
  type <- randomItem types ;;
  username <- randomItem usernames ;;
  texts <- describe type ;;
  ret (Ticker.mkItemData type username (Some (fst texts)) (Some (snd texts))).

Definition generateDemoEvent (s : Ticker.State) : Gen Ticker.State :=
  d <- itemData ;;
  ret (Ticker.addTickerItem d s).

End TickerDemo.

(** chat.js: [generateDemoMessage] *)
Module ChatDemo.
Import Dom Shared.

Record User : Type := mkUser { name : string; badges : list string; color : string }.

Definition usernames : list User :=
  [ mkUser "SpeedRacer88" ["subscriber"] "#FF6B6B";
      mkUser "TurboDriver" ["moderator"] "#4ECDC4";
      mkUser "NitroBoost" ["vip"] "#FFE66D";
      mkUser "CheckeredFlag" [] "#95E1D3";
      mkUser "PitCrewPro" ["subscriber"] "#FF8B94";
      mkUser "FastLane99" [] "#C7CEEA";
      mkUser "RacingLegend" ["subscriber"; "vip"] "#FECA57";
      mkUser "TrackStar" [] "#48DBFB";
      mkUser "ThrottleMax" ["moderator"; "subscriber"] "#FF9FF3";
      mkUser "VictoryLap" [] "#54A0FF" ].

Definition messages : list string :=
  [ "Great race!";
      "Nice overtake!";
      "What setup are you using?";
      "That was close!";
      "GG!";
      "Love this track";
      "You got this!";
      "Clean racing üëç";
      "Amazing driving!";
      "Hype!";
      "Let's go!";
      "Good pit strategy";
      "Watch out for turn 3";
      "Great stream!";
      "First time here, enjoying the content!";
      "What's the lap time?";
      "You're in P1!";
      "Don't give up!";
      "Incredible save!";
      "That was intense!" ].

Definition systemMessages : list string :=
  [ "{user} just followed!";
      "{user} subscribed!";
      "{user} is gifting subs!";
      "{user} raided with 50 viewers!" ].

(** [r < p / q] *)
Definition below (r : Random) (p q : Z) : bool :=
  (Z.of_nat (num r) * q <? p * Z.of_nat (den r))%Z.

(** The fractions the constants [0.05], [0.1] and [0.15] stand for. *)
Definition below_0_05 (r : Random) : bool := below r 3602879701896397 72057594037927936.
Definition below_0_1 (r : Random) : bool := below r 3602879701896397 36028797018963968.
Definition below_0_15 (r : Random) : bool := below r 5404319552844595 36028797018963968.

(** [s.replace(pattern, replacement)] for a pattern that is a string: the
    first occurrence is replaced.  (No replacement here has a "$" in it.) *)
Fixpoint replace (pattern replacement s : string) {struct s} : string :=
  if String.prefix pattern s
  then replacement
       ++ substring (String.length pattern) (String.length s - String.length pattern) s
  else match s with
       | EmptyString => EmptyString
       | String c rest => String c (replace pattern replacement rest)
       end.

(** [generateDemoMessage], called when the clock reads [now].  [None] is a
    call that throws: reading a member of [undefined] does, and so does
    [addChatLine] on a badge that is no class token. *)
Definition generateDemoMessage (now : Date) (s : Chat.State) : Gen (option Chat.State) :=
  userObj <- randomItem usernames ;;
  message <- randomItem messages ;;
  rand <- random ;;
  if below_0_05 rand then
    systemMsg <- randomItem systemMessages ;;
    systemUser <- randomItem usernames ;;
    match systemUser, systemMsg with
    | Some u, Some m => ret (Chat.addSystemMessage now (replace "{user}" (name u) m) s)
    | _, _ => ret None
    end
  else if below_0_1 rand then
    match userObj with
    | Some u =>
        bits <- randomInt 100 5000 ;;
        ret (Chat.addChatLine now
               (Chat.mkMessageData (Some (name u)) message (Some (badges u)) None None
                  (Some true) (Some bits) (Some (color u))) s)
    | None => ret None
    end
  else if below_0_15 rand then
    match userObj with
    | Some u =>
        ret (Chat.addChatLine now
               (Chat.mkMessageData (Some (name u)) message (Some (badges u)) (Some true)
                  None None None (Some (color u))) s)
    | None => ret None
    end
  else
    match userObj with
    | Some u =>
        ret (Chat.addChatLine now
               (Chat.mkMessageData (Some (name u)) message (Some (badges u)) None None
                  None None (Some (color u))) s)
    | None => ret None
    end.

End ChatDemo.

(* ================================================================== *)
(** * shared.js: fading an element *)
(* ================================================================== *)

Module Fade.
Import Dom.

(** One element, the callbacks [fadeOut] has handed to [setTimeout] (each
    hides the element and resolves its promise) by the time they are due,
    and the number of promises resolved so far. *)
Record State : Type := mkState {
  element : Element;
  timers : list nat;
  clock : nat;
  resolved : nat
}.

Definition on_element (f : Element -> Element) (s : State) : State :=
  mkState (f (element s)) (timers s) (clock s) (resolved s).

Definition transition (duration : nat) : string :=
  "opacity " ++ nat_string duration ++ "ms ease".

Definition fadeIn (duration : nat) (s : State) : State :=
  let s := on_element (set_style "opacity" "0") s in
  let s := on_element (set_style "display" "block") s in
  let s := on_element (set_style "transition" (transition duration)) s in
  on_element (set_style "opacity" "1") s.

Definition fadeOut (duration : nat) (s : State) : State :=
  let s := on_element (set_style "transition" (transition duration)) s in
  let s := on_element (set_style "opacity" "0") s in
  mkState (element s) (timers s ++ [clock s + duration]) (clock s) (resolved s).

(** The [k]-th pending timer fires, if it is due. *)
Definition fire (k : nat) (s : State) : State :=
  match nth_error (timers s) k with
  | Some due =>
      if (due <=? clock s)%nat
      then
        let s := mkState (element s) (Alerts.remove_nth k (timers s)) (clock s)
                         (resolved s) in
        let s := on_element (set_style "display" "none") s in
        mkState (element s) (timers s) (clock s) (S (resolved s))
      else s
  | None => s
  end.

Inductive Event : Type :=
| FadeIn (duration : nat)
| FadeOut (duration : nat)
| Elapse (ms : nat)
| Fire (k : nat).

Definition step (s : State) (e : Event) : State :=
  match e with
  | FadeIn d => fadeIn d s
  | FadeOut d => fadeOut d s
  | Elapse ms => mkState (element s) (timers s) (clock s + ms) (resolved s)
  | Fire k => fire k s
  end.

Definition run (events : list Event) (s : State) : State :=
  fold_left step events s.

Definition start (e : Element) : State := mkState e [] 0 0.

Definition display (s : State) : option string := own_lookup (style (element s)) "display".
Definition opacity (s : State) : option string := own_lookup (style (element s)) "opacity".

(** The calls of [fadeOut] among the events. *)
Definition fadeOuts (events : list Event) : nat :=
  List.length (filter (fun e => match e with FadeOut _ => true | _ => false end) events).

End Fade.

(* ================================================================== *)
(** * Demo mode: [startDemoMode] and [stopDemoMode] *)
(* ================================================================== *)

(** The three widgets start and stop their demo generator in the same way,
    but for what a start does first: the alerts generate one alert, the
    ticker adds its initial events, and the chat adds a welcome message and
    sets five timers, 500 ms apart, that each generate one message.
    [DEMO_INTERVAL] is 12000 for the alerts, 5000 for the chat and 8000 for
    the ticker; [first] holds the delays of the timers a start sets. *)
Module DemoMode.
Section Widget.

Variable DEMO_INTERVAL : nat.
Variable first : list nat.

Record State : Type := mkState {
  (** [demoInterval]; [None] is [null] *)
  demoInterval : option nat;
  (** the identifiers of the intervals that are running *)
  intervals : list nat;
  (** the times at which the pending one-shot timers are due *)
  timeouts : list nat;
  (** the identifier the next [setTimeout] or [setInterval] returns *)
  nextId : nat;
  clock : nat;
  (** how often demo mode has been started *)
  started : nat;
  (** how often a timer or an interval has run the generator *)
  generated : nat
}.

Definition initial : State := mkState None [] [] 1 0 0 0.

(** An interval identifier is a number other than 0. *)
Definition truthy_id (i : option nat) : bool :=
  match i with
  | Some n => negb (n =? 0)%nat
  | None => false
  end.

Definition startDemoMode (s : State) : State :=
  if (0 <? DEMO_INTERVAL)%nat && negb (truthy_id (demoInterval s))
  then
    let id := nextId s + List.length first in
    mkState (Some id) (intervals s ++ [id])
            (timeouts s ++ map (fun delay => clock s + delay) first)
            (S id) (clock s) (S (started s)) (generated s)
  else s.

Definition stopDemoMode (s : State) : State :=
  match demoInterval s with
  | Some i =>
      if truthy_id (Some i)
      then mkState None (filter (fun j => negb (j =? i)%nat) (intervals s)) (timeouts s)
                   (nextId s) (clock s) (started s) (generated s)
      else s
  | None => s
  end.

(** The [k]-th pending one-shot timer fires, if it is due, and runs the
    generator. *)
Definition fire (k : nat) (s : State) : State :=
  match nth_error (timeouts s) k with
  | Some due =>
      if (due <=? clock s)%nat
      then mkState (demoInterval s) (intervals s) (Alerts.remove_nth k (timeouts s))
                   (nextId s) (clock s) (started s) (S (generated s))
      else s
  | None => s
  end.

(** The [k]-th running interval fires and runs the generator. *)
Definition tick (k : nat) (s : State) : State :=
  match nth_error (intervals s) k with
  | Some _ => mkState (demoInterval s) (intervals s) (timeouts s) (nextId s) (clock s)
                      (started s) (S (generated s))
  | None => s
  end.

Inductive Event : Type :=
| Start
| Stop
| Elapse (ms : nat)
| Fire (k : nat)
| Tick (k : nat).

Definition step (s : State) (e : Event) : State :=
  match e with
  | Start => startDemoMode s
  | Stop => stopDemoMode s
  | Elapse ms => mkState (demoInterval s) (intervals s) (timeouts s) (nextId s)
                         (clock s + ms) (started s) (generated s)
  | Fire k => fire k s
  | Tick k => tick k s
  end.

Definition run (events : list Event) (s : State) : State :=
  fold_left step events s.

(** What holds of the interval registry in every state: identifiers are
    positive, the running intervals are the one [demoInterval] names, and
    no one-shot timer exists in a widget that sets none. *)
Definition registry (s : State) : Prop :=
  0 < nextId s /\
  intervals s = match demoInterval s with Some i => [i] | None => [] end /\
  match demoInterval s with Some i => 0 < i | None => True end /\
  (DEMO_INTERVAL = 0 \/ first = [] -> timeouts s = []).

End Widget.

(** The timers the chat's [startDemoMode] sets: [i * 500] for [i] from 0
    to 4. *)
Definition chat_first : list nat := map (fun i => i * 500) (seq 0 5).

End DemoMode.


(* ================================================================== *)
(** * Properties *)
(* ================================================================== *)

Import Dom.
Local Open Scope list_scope.

(** ** The scenarios of the specification *)

(** A donation of 25 by X: the alert shows the header "Donation" and the
    amount "$25.00". *)
Example alerts_donation_scenario :
  let d := Alerts.mkAlertData (Some "donation") (Some "X") None (Some 25%Z)
             None None None in
  let s := Alerts.createAlert d (Alerts.ready None) in
  option_map (fun e => text_nodes (Elem e)) (nth_error (Alerts.store s) 0)
    = Some ["💵"; "Donation"; "X"; "$25.00"]%string /\
  Alerts.activeAlerts s = [0].
Proof. vm_compute. split; reflexivity. Qed.

(** One item in the ticker: the track shows its text twice. *)
Example ticker_single_item_scenario :
  let d := Ticker.item_of "subscribe" "Y" "subscribed for" "6 months" in
  let s := Ticker.addTickerItem d (Ticker.ready (Some Ticker.bare)) in
  List.length (Ticker.tickerItems s) = 1 /\
  option_map (flat_map text_nodes) (Ticker.rendered s)
    = Some ["⭐"; "Y"; "subscribed for"; "6 months";
            "⭐"; "Y"; "subscribed for"; "6 months"]%string.
Proof. vm_compute. split; reflexivity. Qed.

(** 25 chat lines are all kept; the 51st evicts the first, from the list
    and from the container.  With a box 100 high and lines 40 high the chat
    is then scrolled to 50 * 40 - 100. *)
Example chat_eviction_scenario :
  let l := Chat.mkLayout 100 (fun kids => 40 * List.length kids) in
  let line := Chat.Add (mkDate 20 15 0)
                (Chat.mkMessageData (Some "TrackStar") (Some "GG!") None None None
                   None None None) in
  let s0 := Chat.ready l (Some (createElement "div" (opts ["chat-messages"]), 0)) in
  let s25 := Chat.run (repeat line 25) s0 in
  let s51 := Chat.run (repeat line 51) s0 in
  Chat.chatMessages s25 = seq 0 25 /\
  Chat.chatMessages s51 = seq 1 50 /\
  option_map Chat.shown (Chat.chatContainer s51) = Some (seq 1 50) /\
  option_map Chat.scrollTop (Chat.chatContainer s51) = Some 1900.
Proof. vm_compute. repeat split; reflexivity. Qed.

(** ** Lists *)

Section ListFacts.

Lemma filter_differs_In (a x : nat) (l : list nat) :
  In x (filter (differs a) l) <-> In x l /\ x <> a.
Proof.
  rewrite filter_In. unfold differs.
  rewrite negb_true_iff, Nat.eqb_neq. tauto.
Qed.

Lemma filter_differs_notin (a : nat) (l : list nat) :
  ~ In a l -> filter (differs a) l = l.
Proof.
  induction l as [|x l IH]; simpl; intros H; [reflexivity|].
  unfold differs at 1.
  destruct (Nat.eqb_spec x a) as [->|Hne]; simpl.
  - exfalso; apply H; now left.
  - f_equal. apply IH. intros Hin; apply H; now right.
Qed.

Lemma existsb_eqb_In (a : nat) (l : list nat) :
  existsb (Nat.eqb a) l = true <-> In a l.
Proof.
  rewrite existsb_exists. split.
  - intros (x & Hin & Heq). apply Nat.eqb_eq in Heq. now subst.
  - intros Hin. exists a. split; [assumption | apply Nat.eqb_refl].
Qed.

Lemma sorted_app (l1 l2 : list nat) :
  StronglySorted lt (l1 ++ l2) <->
  StronglySorted lt l1 /\ StronglySorted lt l2 /\
  (forall x y, In x l1 -> In y l2 -> x < y).
Proof.
  induction l1 as [|a l1 IH]; simpl.
  - split.
    + intros H. repeat split; [constructor | assumption | contradiction].
    + tauto.
  - split.
    + intros H. inversion H as [|? ? Hs Hall]; subst.
      apply IH in Hs. destruct Hs as (H1 & H2 & H12).
      rewrite Forall_app in Hall. destruct Hall as [Ha1 Ha2].
      repeat split; [constructor; assumption | assumption |].
      intros x y [<-|Hx] Hy.
      * rewrite Forall_forall in Ha2. now apply Ha2.
      * now apply H12.
    + intros (H1 & H2 & H12). inversion H1 as [|? ? Hs Hall]; subst.
      constructor.
      * apply IH. repeat split; try assumption.
        intros x y Hx Hy. apply H12; [now right | assumption].
      * rewrite Forall_app. split; [assumption|].
        rewrite Forall_forall. intros y Hy. apply H12; [now left | assumption].
Qed.

Lemma sorted_filter (f : nat -> bool) (l : list nat) :
  StronglySorted lt l -> StronglySorted lt (filter f l).
Proof.
  induction 1 as [|a l Hs IH Hall]; simpl; [constructor|].
  destruct (f a); [|assumption].
  constructor; [assumption|].
  rewrite Forall_forall in *. intros x Hx. apply Hall.
  apply filter_In in Hx. tauto.
Qed.

Lemma sorted_NoDup (l : list nat) : StronglySorted lt l -> NoDup l.
Proof.
  induction 1 as [|a l Hs IH Hall]; constructor; [|assumption].
  intros Hin. rewrite Forall_forall in Hall. specialize (Hall a Hin). lia.
Qed.

Lemma filter_differs_length_In (a : nat) (l : list nat) :
  NoDup l -> In a l ->
  List.length l = S (List.length (filter (differs a) l)).
Proof.
  induction 1 as [|x l Hx Hnd IH]; simpl; [contradiction|].
  intros [->|Hin].
  - unfold differs at 1. rewrite Nat.eqb_refl. simpl.
    now rewrite filter_differs_notin.
  - unfold differs at 1.
    destruct (Nat.eqb_spec x a) as [->|Hne]; [contradiction|].
    simpl. now rewrite <- IH.
Qed.

Lemma filter_differs_length (a : nat) (l : list nat) :
  NoDup l -> List.length l <= S (List.length (filter (differs a) l)).
Proof.
  intros Hnd. destruct (in_dec Nat.eq_dec a l) as [Hin|Hnot].
  - rewrite (filter_differs_length_In a l Hnd Hin). lia.
  - rewrite filter_differs_notin by assumption. lia.
Qed.

End ListFacts.

(** ** Alerts: the invariants of the reachable states *)

Section AlertsInvariants.
Import Alerts.

Lemma detach_eq (a : nat) (s : State) (c : Container) :
  alertContainer s = Some c ->
  detach a s = set_alertContainer (Some (removeChild a c)) s.
Proof.
  intros Hc. unfold detach, parentNode. rewrite Hc.
  destruct (existsb (Nat.eqb a) (shown c)) eqn:E; [reflexivity|].
  assert (Hnot : ~ In a (shown c)).
  { intros Hin. apply existsb_eqb_In in Hin. congruence. }
  unfold removeChild. rewrite filter_differs_notin by assumption.
  destruct s, c; simpl in *. now subst.
Qed.

Lemma detach_fields (a : nat) (s : State) :
  store (detach a s) = store s /\ alertQueue (detach a s) = alertQueue s /\
  activeAlerts (detach a s) = activeAlerts s /\ timers (detach a s) = timers s /\
  clock (detach a s) = clock s /\ console (detach a s) = console s /\
  played (detach a s) = played s.
Proof.
  unfold detach. destruct (parentNode a s); simpl; repeat split; reflexivity.
Qed.

Lemma clear_fold_eq (l : list nat) (s : State) (c : Container) :
  alertContainer s = Some c ->
  fold_left (fun s alert => detach alert s) l s =
  set_alertContainer
    (Some (mkContainer (element c)
             (fold_left (fun sh alert => filter (differs alert) sh) l (shown c)))) s.
Proof.
  revert s c. induction l as [|a l IH]; intros s c Hc; simpl.
  - destruct s, c; simpl in *. now subst.
  - rewrite (detach_eq a s c Hc).
    rewrite (IH _ (removeChild a c)) by reflexivity.
    destruct s; reflexivity.
Qed.

Lemma fold_filter_In (l sh : list nat) (x : nat) :
  In x (fold_left (fun sh alert => filter (differs alert) sh) l sh) ->
  In x sh /\ ~ In x l.
Proof.
  revert sh. induction l as [|a l IH]; simpl; intros sh H; [tauto|].
  apply IH in H. destruct H as [H1 H2].
  apply filter_differs_In in H1. destruct H1 as [H1 Hne].
  split; [assumption|]. intros [Heq|Hin]; [congruence | contradiction].
Qed.

Lemma fold_filter_self (l : list nat) :
  fold_left (fun sh alert => filter (differs alert) sh) l l = [].
Proof.
  destruct (fold_left (fun sh alert => filter (differs alert) sh) l l) as [|x r] eqn:E;
    [reflexivity|].
  assert (H : In x (fold_left (fun sh alert => filter (differs alert) sh) l l))
    by (rewrite E; now left).
  apply fold_filter_In in H. tauto.
Qed.

Lemma Inv_ext (s s' : State) :
  List.length (store s') = List.length (store s) ->
  alertQueue s' = alertQueue s ->
  activeAlerts s' = activeAlerts s ->
  alertContainer s' = alertContainer s ->
  Inv s -> Inv s'.
Proof.
  intros Hst Hq Ha Hc [H1 H2 H3 H4].
  constructor; rewrite ?Hst, ?Hq, ?Ha, ?Hc; assumption.
Qed.

(** A state that differs from one satisfying [Inv] in fields [Inv] does not
    read. *)
Ltac inv_same HI := eapply Inv_ext; [| | | |exact HI]; reflexivity.

Lemma Inv_displayAlert_fresh (s : State) (el : Element) :
  Inv s -> alertQueue s = [] ->
  Inv (displayAlert (List.length (store s)) (set_store (store s ++ [el]) s)).
Proof.
  intros [(c & Hc & Hsh) Hsorted Hfresh Hwait] Hq.
  rewrite Hq, app_nil_r in *.
  assert (Hnot : ~ In (List.length (store s)) (activeAlerts s)).
  { intros Hin. rewrite Forall_forall in Hfresh. specialize (Hfresh _ Hin). lia. }
  unfold displayAlert. simpl. rewrite Hc.
  constructor; simpl.
  - eexists. split; [reflexivity|]. simpl.
    rewrite Hsh, filter_differs_notin by assumption. reflexivity.
  - rewrite Hq, app_nil_r. apply sorted_app. repeat split.
    + assumption.
    + repeat constructor.
    + intros x y Hx [<-|[]]. rewrite Forall_forall in Hfresh. now apply Hfresh.
  - rewrite Hq, app_nil_r, length_app. simpl.
    rewrite Forall_app. split.
    + eapply Forall_impl; [|exact Hfresh]. simpl. intros; lia.
    + repeat constructor. lia.
  - rewrite Hq. congruence.
Qed.

Lemma Inv_enqueue (s : State) (el : Element) :
  Inv s -> MAX_ALERTS <= List.length (activeAlerts s) ->
  Inv (set_alertQueue (alertQueue s ++ [List.length (store s)])
         (set_store (store s ++ [el]) s)).
Proof.
  intros [(c & Hc & Hsh) Hsorted Hfresh Hwait] Hfull.
  constructor; simpl.
  - now exists c.
  - rewrite app_assoc. apply sorted_app. repeat split.
    + assumption.
    + repeat constructor.
    + intros x y Hx [<-|[]]. rewrite Forall_forall in Hfresh. now apply Hfresh.
  - rewrite app_assoc, length_app. simpl.
    rewrite Forall_app. split.
    + eapply Forall_impl; [|exact Hfresh]. simpl. intros; lia.
    + repeat constructor. lia.
  - intros _. assumption.
Qed.

Lemma Inv_createAlert (d : AlertData) (s : State) :
  Inv s -> Inv (createAlert d s).
Proof.
  intros HI. unfold createAlert.
  destruct (config_of _) as [config|].
  2:{ inv_same HI. }
  set (el := alertElement _ _ _ _ _ _ _ _).
  assert (HI' : Inv (if (List.length (activeAlerts (set_store (store s ++ [el]) s)) <? MAX_ALERTS)%nat
                     then displayAlert (List.length (store s)) (set_store (store s ++ [el]) s)
                     else set_alertQueue
                            (alertQueue (set_store (store s ++ [el]) s) ++ [List.length (store s)])
                            (set_store (store s ++ [el]) s))).
  { simpl activeAlerts. simpl alertQueue.
    destruct (Nat.ltb_spec (List.length (activeAlerts s)) MAX_ALERTS) as [Hlt|Hge].
    - apply Inv_displayAlert_fresh; [assumption|].
      destruct (alertQueue s) eqn:Hq; [reflexivity|].
      destruct HI as [_ _ _ Hwait]. rewrite Hq in Hwait.
      assert (MAX_ALERTS <= List.length (activeAlerts s)) by (apply Hwait; discriminate).
      lia.
    - now apply Inv_enqueue. }
  destruct (sound config) as [p|]; [|exact HI'].
  destruct (truthy p); [|exact HI'].
  inv_same HI'.
Qed.

Lemma length_update {A : Type} (i : nat) (f : A -> A) (l : list A) :
  List.length (update i f l) = List.length l.
Proof.
  revert i. induction l as [|x l IH]; intros [|i]; simpl; auto.
Qed.

Lemma Inv_removeAlert (a : nat) (s : State) : Inv s -> Inv (removeAlert a s).
Proof.
  intros HI. eapply Inv_ext; [| | | |exact HI]; try reflexivity.
  simpl. apply length_update.
Qed.

Lemma removeAlert_done_eq (a : nat) (s : State) (c : Container) :
  alertContainer s = Some c ->
  removeAlert_done a s =
  let s1 := set_activeAlerts (filter (differs a) (activeAlerts s))
              (set_alertContainer (Some (removeChild a c)) s) in
  match alertQueue s with
  | nextAlert :: rest => displayAlert nextAlert (set_alertQueue rest s1)
  | [] => s1
  end.
Proof.
  intros Hc. unfold removeAlert_done. rewrite (detach_eq a s c Hc). reflexivity.
Qed.

Lemma Inv_removeAlert_done (a : nat) (s : State) :
  Inv s -> Inv (removeAlert_done a s).
Proof.
  intros [(c & Hc & Hsh) Hsorted Hfresh Hwait].
  rewrite (removeAlert_done_eq a s c Hc). simpl.
  pose proof Hsorted as Hs. apply sorted_app in Hs. destruct Hs as (Hsa & Hsq & Hlt).
  rewrite Forall_app in Hfresh. destruct Hfresh as [Hfa Hfq].
  destruct (alertQueue s) as [|h rest] eqn:Hq.
  - constructor; simpl.
    + eexists. split; [reflexivity|]. simpl. now rewrite Hsh.
    + rewrite Hq, app_nil_r. now apply sorted_filter.
    + rewrite Hq, app_nil_r. rewrite Forall_forall in *. intros x Hx.
      apply filter_differs_In in Hx. apply Hfa. tauto.
    + rewrite Hq. congruence.
  - assert (Hh : ~ In h (activeAlerts s)).
    { intros Hin. specialize (Hlt h h Hin (or_introl eq_refl)). lia. }
    unfold displayAlert. simpl.
    inversion Hsq as [|? ? Hsrest Hhrest]; subst.
    inversion Hfq as [|? ? Hfh Hfrest]; subst.
    constructor; simpl.
    + eexists. split; [reflexivity|]. simpl. rewrite Hsh.
      rewrite (filter_differs_notin h); [reflexivity|].
      intros Hin. apply filter_differs_In in Hin. tauto.
    + rewrite <- app_assoc. simpl. apply sorted_app. repeat split.
      * now apply sorted_filter.
      * assumption.
      * intros x y Hx Hy. apply filter_differs_In in Hx. apply Hlt; tauto.
    + rewrite <- app_assoc. simpl. rewrite Forall_app. split.
      * rewrite Forall_forall in *. intros x Hx.
        apply filter_differs_In in Hx. apply Hfa. tauto.
      * constructor; assumption.
    + intros _. rewrite length_app. simpl.
      assert (MAX_ALERTS <= List.length (activeAlerts s)) by (apply Hwait; discriminate).
      pose proof (filter_differs_length a (activeAlerts s) (sorted_NoDup _ Hsa)).
      lia.
Qed.

Lemma clearAlerts_eq (s : State) (c : Container) :
  alertContainer s = Some c -> shown c = activeAlerts s ->
  clearAlerts s =
  set_alertQueue [] (set_activeAlerts []
    (set_alertContainer (Some (mkContainer (element c) [])) s)).
Proof.
  intros Hc Hsh. unfold clearAlerts.
  rewrite (clear_fold_eq _ s c Hc), Hsh, fold_filter_self. reflexivity.
Qed.

Lemma Inv_clearAlerts (s : State) : Inv s -> Inv (clearAlerts s).
Proof.
  intros [(c & Hc & Hsh) Hsorted Hfresh Hwait].
  rewrite (clearAlerts_eq s c Hc Hsh).
  constructor; simpl.
  - eexists. split; reflexivity.
  - constructor.
  - constructor.
  - congruence.
Qed.

Lemma Inv_fire (k : nat) (s : State) : Inv s -> Inv (fire k s).
Proof.
  intros HI. unfold fire.
  destruct (nth_error (timers s) k) as [t|]; [|assumption].
  destruct (due t <=? clock s)%nat; [|assumption].
  assert (HI' : Inv (set_timers (remove_nth k (timers s)) s))
    by inv_same HI.
  destruct (callback t); simpl.
  - now apply Inv_removeAlert.
  - now apply Inv_removeAlert_done.
Qed.

Lemma Inv_step (s : State) (e : Event) : Inv s -> Inv (step s e).
Proof.
  intros HI. destruct e; simpl.
  - now apply Inv_createAlert.
  - now apply Inv_clearAlerts.
  - inv_same HI.
  - now apply Inv_fire.
Qed.

Lemma Inv_ready (found : option Element) : Inv (ready found).
Proof.
  destruct found; constructor; simpl;
    try (eexists; split; reflexivity); try constructor; congruence.
Qed.

Lemma Inv_run (events : list Event) (s : State) : Inv s -> Inv (run events s).
Proof.
  revert s. induction events as [|e events IH]; intros s HI; simpl; [assumption|].
  apply IH. now apply Inv_step.
Qed.

Lemma Inv_reachable (found : option Element) (events : list Event) :
  Inv (run events (ready found)).
Proof. apply Inv_run, Inv_ready. Qed.

End AlertsInvariants.

(** ** Alerts: admission and promotion *)

Section AlertsAdmission.
Import Alerts.

Lemma createAlert_valid (d : AlertData) (s : State) :
  valid_type d ->
  exists el,
    createAlert d s =
    let s1 := set_store (store s ++ [el]) s in
    if (List.length (activeAlerts s) <? MAX_ALERTS)%nat
    then displayAlert (List.length (store s)) s1
    else set_alertQueue (alertQueue s ++ [List.length (store s)]) s1.
Proof.
  intros (config & Hcfg). unfold createAlert, lookup. rewrite Hcfg. simpl config_of.
  eexists. cbv zeta.
  assert (Hs : sound config = None).
  { unfold types in Hcfg. simpl in Hcfg.
    repeat match type of Hcfg with
           | (if ?b then _ else _) = _ => destruct b
           end; try discriminate; now inversion Hcfg. }
  rewrite Hs. reflexivity.
Qed.

Lemma fold_detach_timers (l : list nat) (s : State) :
  timers (fold_left (fun s alert => detach alert s) l s) = timers s.
Proof.
  revert s. induction l as [|a l IH]; intros s; simpl; [reflexivity|].
  rewrite IH. apply detach_fields.
Qed.

Lemma clearAlerts_timers (s : State) : timers (clearAlerts s) = timers s.
Proof. unfold clearAlerts. simpl. apply fold_detach_timers. Qed.

Lemma nth_error_update_other {A : Type} (i r : nat) (f : A -> A) (l : list A) :
  r <> i -> nth_error (update i f l) r = nth_error l r.
Proof.
  revert i r. induction l as [|x l IH]; intros [|i] [|r] Hne; simpl;
    try reflexivity; try congruence.
  apply IH. congruence.
Qed.

End AlertsAdmission.

(** C1.  In every state the alert widget reaches after [initAlerts]
    (whatever was created, cleared, and whichever timers fired), a
    [createAlert] with a type of the registry creates one new element and,
    while fewer than [MAX_ALERTS] alerts are active, appends it to the active
    alerts and to the container at once; at capacity it appends it to the end
    of [alertQueue] and displays nothing.  The retirement callback takes the
    head of [alertQueue], and nothing else of it, and appends it to the active
    alerts and the container.  Active and queued alerts are always in the
    order of their creation, the queued ones after the active ones. *)
Theorem alerts_admission_fifo :
  forall (found : option Element) (events : list Alerts.Event) (d : Alerts.AlertData),
    Alerts.valid_type d ->
    let s := Alerts.run events (Alerts.ready found) in
    let alert := List.length (Alerts.store s) in
    let s' := Alerts.createAlert d s in
    (List.length (Alerts.activeAlerts s) < Alerts.MAX_ALERTS ->
       Alerts.activeAlerts s' = Alerts.activeAlerts s ++ [alert] /\
       Alerts.alertQueue s' = Alerts.alertQueue s /\
       Alerts.parentNode alert s' = true) /\
    (Alerts.MAX_ALERTS <= List.length (Alerts.activeAlerts s) ->
       Alerts.alertQueue s' = Alerts.alertQueue s ++ [alert] /\
       Alerts.activeAlerts s' = Alerts.activeAlerts s /\
       Alerts.parentNode alert s' = false) /\
    (forall retired head rest,
       Alerts.alertQueue s = head :: rest ->
       let s'' := Alerts.removeAlert_done retired s in
       Alerts.alertQueue s'' = rest /\
       Alerts.activeAlerts s'' =
         filter (differs retired) (Alerts.activeAlerts s) ++ [head] /\
       Alerts.parentNode head s'' = true) /\
    StronglySorted lt (Alerts.activeAlerts s ++ Alerts.alertQueue s).
Proof.
  intros found events d Hvalid s alert s'.
  pose proof (Inv_reachable found events) as HI. fold s in HI.
  destruct HI as [(c & Hc & Hsh) Hsorted Hfresh Hwait].
  destruct (createAlert_valid d s Hvalid) as (el & Hcreate).
  fold s' in Hcreate. cbv zeta in Hcreate.
  assert (Hnew : ~ In alert (Alerts.activeAlerts s)).
  { intros Hin. rewrite Forall_app, Forall_forall in Hfresh.
    destruct Hfresh as [Hfa _]. specialize (Hfa _ Hin). unfold alert in Hfa. lia. }
  repeat split.
  - rewrite Hcreate.
    destruct (Nat.ltb_spec (List.length (Alerts.activeAlerts s)) Alerts.MAX_ALERTS); [|lia].
    unfold Alerts.displayAlert. simpl. rewrite Hc. reflexivity.
  - rewrite Hcreate.
    destruct (Nat.ltb_spec (List.length (Alerts.activeAlerts s)) Alerts.MAX_ALERTS); [|lia].
    unfold Alerts.displayAlert. simpl. rewrite Hc. reflexivity.
  - rewrite Hcreate.
    destruct (Nat.ltb_spec (List.length (Alerts.activeAlerts s)) Alerts.MAX_ALERTS); [|lia].
    unfold Alerts.displayAlert, Alerts.parentNode. simpl. rewrite Hc. simpl.
    apply existsb_eqb_In, in_or_app. right. now left.
  - rewrite Hcreate.
    destruct (Nat.ltb_spec (List.length (Alerts.activeAlerts s)) Alerts.MAX_ALERTS); [lia|].
    reflexivity.
  - rewrite Hcreate.
    destruct (Nat.ltb_spec (List.length (Alerts.activeAlerts s)) Alerts.MAX_ALERTS); [lia|].
    reflexivity.
  - rewrite Hcreate.
    destruct (Nat.ltb_spec (List.length (Alerts.activeAlerts s)) Alerts.MAX_ALERTS); [lia|].
    unfold Alerts.parentNode. simpl. rewrite Hc.
    destruct (existsb (Nat.eqb alert) (Alerts.shown c)) eqn:E; [|reflexivity].
    apply existsb_eqb_In in E. rewrite Hsh in E. contradiction.
  - rewrite (removeAlert_done_eq retired s c Hc), H. cbv zeta.
    unfold Alerts.displayAlert. reflexivity.
  - rewrite (removeAlert_done_eq retired s c Hc), H. cbv zeta.
    unfold Alerts.displayAlert. reflexivity.
  - rewrite (removeAlert_done_eq retired s c Hc), H. cbv zeta.
    unfold Alerts.displayAlert, Alerts.parentNode. simpl.
    apply existsb_eqb_In, in_or_app. right. now left.
  - exact Hsorted.
Qed.

(** The scenario of C1: A, B and C are displayed, D waits; when A retires D
    is promoted, behind B and C. *)
Lemma alerts_admission_fifo_witness :
  Alerts.valid_type (Alerts.alert_of "cheer" "D") /\
  let s := Alerts.run [Alerts.Create (Alerts.alert_of "follow" "A");
                       Alerts.Create (Alerts.alert_of "subscribe" "B");
                       Alerts.Create (Alerts.alert_of "donation" "C")]
                      (Alerts.ready None) in
  let s' := Alerts.createAlert (Alerts.alert_of "cheer" "D") s in
  Alerts.activeAlerts s' = [0; 1; 2] /\ Alerts.alertQueue s' = [3] /\
  Alerts.parentNode 3 s' = false /\
  let s'' := Alerts.removeAlert_done 0 s' in
  Alerts.activeAlerts s'' = [1; 2; 3] /\ Alerts.alertQueue s'' = [] /\
  Alerts.parentNode 3 s'' = true.
Proof.
  assert (Hv : Alerts.valid_type (Alerts.alert_of "cheer" "D"))
    by (eexists; reflexivity).
  split; [exact Hv|].
  pose proof (alerts_admission_fifo None
                [Alerts.Create (Alerts.alert_of "follow" "A");
                 Alerts.Create (Alerts.alert_of "subscribe" "B");
                 Alerts.Create (Alerts.alert_of "donation" "C")]
                (Alerts.alert_of "cheer" "D") Hv) as (_ & Hfull & _).
  pose proof (alerts_admission_fifo None
                [Alerts.Create (Alerts.alert_of "follow" "A");
                 Alerts.Create (Alerts.alert_of "subscribe" "B");
                 Alerts.Create (Alerts.alert_of "donation" "C");
                 Alerts.Create (Alerts.alert_of "cheer" "D")]
                (Alerts.alert_of "cheer" "D") Hv) as (_ & _ & Hretire & _).
  cbv zeta in *.
  destruct Hfull as (Hq & Ha & Hp); [vm_compute; lia|].
  specialize (Hretire 0 3 [] eq_refl). destruct Hretire as (Hq' & Ha' & Hp').
  vm_compute in Ha, Hq, Hp, Ha', Hq', Hp'. vm_compute.
  split; [exact Ha|].
  split; [exact Hq|].
  split; [exact Hp|].
  split; [exact Ha'|].
  split; [exact Hq' | exact Hp'].
Defined.

(** C8.  In every state the alert widget reaches after [initAlerts], when
    the retirement callback runs for an alert that is not among the active
    alerts, the alert elements, the active alerts and the children of the
    container stay as they are, except that the head of a non-empty
    [alertQueue] is dequeued and appended to both: the active alerts grow by
    one.  [clearAlerts] leaves every pending timer in place, and
    [removeAlert] schedules the callback whatever the alert, touching no
    element but that alert's own and neither the active alerts nor the
    queue. *)
Theorem alerts_stale_retirement_promotes :
  forall (found : option Element) (events : list Alerts.Event) (alert : nat),
    let s := Alerts.run events (Alerts.ready found) in
    ~ In alert (Alerts.activeAlerts s) ->
    let s' := Alerts.removeAlert_done alert s in
    Alerts.store s' = Alerts.store s /\
    (exists c c',
       Alerts.alertContainer s = Some c /\ Alerts.alertContainer s' = Some c' /\
       Alerts.element c' = Alerts.element c /\
       match Alerts.alertQueue s with
       | [] =>
           Alerts.activeAlerts s' = Alerts.activeAlerts s /\
           Alerts.shown c' = Alerts.shown c /\
           Alerts.alertQueue s' = []
       | head :: rest =>
           Alerts.activeAlerts s' = Alerts.activeAlerts s ++ [head] /\
           Alerts.shown c' = Alerts.shown c ++ [head] /\
           Alerts.alertQueue s' = rest
       end) /\
    Alerts.timers (Alerts.clearAlerts s) = Alerts.timers s /\
    Alerts.timers (Alerts.removeAlert alert s) =
      Alerts.timers s ++ [Alerts.mkTimer (Alerts.clock s + Alerts.EXIT_DELAY)
                                         (Alerts.ExitDone alert)] /\
    (forall r, r <> alert ->
       nth_error (Alerts.store (Alerts.removeAlert alert s)) r
       = nth_error (Alerts.store s) r) /\
    Alerts.activeAlerts (Alerts.removeAlert alert s) = Alerts.activeAlerts s /\
    Alerts.alertQueue (Alerts.removeAlert alert s) = Alerts.alertQueue s.
Proof.
  intros found events alert s Hnot s'.
  pose proof (Inv_reachable found events) as HI. fold s in HI.
  destruct HI as [(c & Hc & Hsh) Hsorted Hfresh Hwait].
  assert (Hnot' : ~ In alert (Alerts.shown c)) by now rewrite Hsh.
  unfold s'. rewrite (removeAlert_done_eq alert s c Hc). cbv zeta.
  unfold Alerts.removeChild.
  rewrite !filter_differs_notin by assumption.
  split; [|split; [|split; [|split; [|split; [|split]]]]].
  - destruct (Alerts.alertQueue s); reflexivity.
  - exists c. destruct (Alerts.alertQueue s) as [|head rest] eqn:Hq.
    + eexists. simpl. repeat split; try reflexivity; assumption.
    + assert (Hh : ~ In head (Alerts.shown c)).
      { rewrite Hsh. intros Hin. apply sorted_app in Hsorted.
        destruct Hsorted as (_ & _ & Hlt).
        specialize (Hlt head head Hin (or_introl eq_refl)). lia. }
      unfold Alerts.displayAlert. simpl. eexists.
      repeat split; try reflexivity; try assumption.
      simpl. now rewrite filter_differs_notin.
  - apply clearAlerts_timers.
  - reflexivity.
  - intros r Hr. simpl. now apply nth_error_update_other.
  - reflexivity.
  - reflexivity.
Qed.

(** The stale timer of C8 at work: A is displayed and cleared, then B, C
    and D are displayed and E waits; A's timers fire all the same and the
    second promotes E. *)
Lemma alerts_stale_retirement_promotes_witness :
  let s := Alerts.run [Alerts.Create (Alerts.alert_of "follow" "A");
                       Alerts.Elapse 1000; Alerts.Clear;
                       Alerts.Create (Alerts.alert_of "follow" "B");
                       Alerts.Create (Alerts.alert_of "follow" "C");
                       Alerts.Create (Alerts.alert_of "follow" "D");
                       Alerts.Create (Alerts.alert_of "follow" "E");
                       Alerts.Elapse 7000; Alerts.Fire 0; Alerts.Elapse 600]
                      (Alerts.ready None) in
  ~ In 0 (Alerts.activeAlerts s) /\
  Alerts.activeAlerts s = [1; 2; 3] /\ Alerts.alertQueue s = [4] /\
  Alerts.activeAlerts (Alerts.removeAlert_done 0 s) = [1; 2; 3; 4] /\
  Alerts.alertQueue (Alerts.removeAlert_done 0 s) = [].
Proof.
  cbv zeta.
  set (events := [Alerts.Create (Alerts.alert_of "follow" "A");
                  Alerts.Elapse 1000; Alerts.Clear;
                  Alerts.Create (Alerts.alert_of "follow" "B");
                  Alerts.Create (Alerts.alert_of "follow" "C");
                  Alerts.Create (Alerts.alert_of "follow" "D");
                  Alerts.Create (Alerts.alert_of "follow" "E");
                  Alerts.Elapse 7000; Alerts.Fire 0; Alerts.Elapse 600]).
  assert (Hnot : ~ In 0 (Alerts.activeAlerts (Alerts.run events (Alerts.ready None)))).
  { vm_compute. intros [H|[H|[H|[]]]]; discriminate. }
  split; [exact Hnot|].
  pose proof (alerts_stale_retirement_promotes None events 0 Hnot)
    as (_ & (c & c' & Hc & Hc' & _ & Hq) & _).
  assert (Ha : Alerts.activeAlerts (Alerts.run events (Alerts.ready None)) = [1; 2; 3])
    by (vm_compute; reflexivity).
  assert (Hqueue : Alerts.alertQueue (Alerts.run events (Alerts.ready None)) = [4])
    by (vm_compute; reflexivity).
  rewrite Hqueue in Hq. destruct Hq as (Ha' & _ & Hq').
  rewrite Ha in Ha'.
  split; [exact Ha|].
  split; [exact Hqueue|].
  split; [exact Ha' | exact Hq'].
Defined.

(** ** Alerts: the bound on the active alerts *)

Section AlertsBound.
Import Alerts.

Lemma config_sound (ty : string) (config : TypeConfig) :
  config_of (lookup types ty) = Some config -> sound config = None.
Proof.
  unfold lookup, types. simpl own_lookup.
  repeat match goal with
         | |- context [if ?b then _ else _] => destruct b
         end; simpl; intros H; inversion H; reflexivity.
Qed.

Lemma createAlert_cases (d : AlertData) (s : State) :
  (exists msg, createAlert d s = console_error msg s) \/
  (exists el,
     createAlert d s =
     let s1 := set_store (store s ++ [el]) s in
     if (List.length (activeAlerts s) <? MAX_ALERTS)%nat
     then displayAlert (List.length (store s)) s1
     else set_alertQueue (alertQueue s ++ [List.length (store s)]) s1).
Proof.
  unfold createAlert.
  destruct (config_of _) as [config|] eqn:Hcfg.
  - right. eexists. rewrite (config_sound _ _ Hcfg). reflexivity.
  - left. eexists. reflexivity.
Qed.

Lemma nth_error_remove_nth {A : Type} (k : nat) (l : list A) (t : A) :
  nth_error l k = Some t ->
  exists l1 l2, l = l1 ++ t :: l2 /\ remove_nth k l = l1 ++ l2.
Proof.
  revert k. induction l as [|x l IH]; intros [|k] H; simpl in *; try discriminate.
  - inversion H; subst. now exists [], l.
  - destruct (IH k H) as (l1 & l2 & -> & Hr).
    exists (x :: l1), l2. simpl. now rewrite Hr.
Qed.

Lemma NoDup_snoc {A : Type} (l : list A) (a : A) :
  NoDup l -> ~ In a l -> NoDup (l ++ [a]).
Proof.
  intros Hnd Hnot. apply NoDup_app. repeat split.
  - assumption.
  - repeat constructor. intros [].
  - intros x Hx [<-|[]]. contradiction.
Qed.

Lemma Good_ext (s s' : State) :
  List.length (store s') = List.length (store s) ->
  alertQueue s' = alertQueue s ->
  activeAlerts s' = activeAlerts s ->
  alertContainer s' = alertContainer s ->
  timers s' = timers s ->
  Good s -> Good s'.
Proof.
  intros Hst Hq Ha Hc Ht (HI & [Hnd Hact] & Hb).
  split; [eapply Inv_ext; eauto|].
  split; [constructor|]; rewrite ?Ht, ?Ha; assumption.
Qed.

Lemma Good_createAlert (d : AlertData) (s : State) :
  Good s -> Good (createAlert d s).
Proof.
  intros HG. pose proof HG as (HI & [Hnd Hact] & Hb).
  split; [now apply Inv_createAlert|].
  destruct (createAlert_cases d s) as [(msg & ->)|(el & ->)].
  { split; [constructor|]; assumption. }
  cbv zeta.
  destruct (Nat.ltb_spec (List.length (activeAlerts s)) MAX_ALERTS) as [Hlt|Hge].
  2:{ split; [constructor|]; assumption. }
  destruct HI as [(c & Hc & Hsh) Hsorted Hfresh Hwait].
  assert (Hnew : ~ In (List.length (store s)) (activeAlerts s)).
  { intros Hin. rewrite Forall_app, Forall_forall in Hfresh.
    destruct Hfresh as [Hfa _]. specialize (Hfa _ Hin). lia. }
  unfold displayAlert. simpl. rewrite Hc.
  split; [constructor|]; simpl.
  - rewrite map_app. simpl. apply NoDup_snoc; [assumption|].
    intros Hin. apply in_map_iff in Hin. destruct Hin as (t & Heq & Hin).
    rewrite Forall_forall in Hact. specialize (Hact t Hin).
    rewrite Heq in Hact. contradiction.
  - rewrite Forall_app. split.
    + eapply Forall_impl; [|exact Hact]. simpl. intros t Ht.
      apply in_or_app. now left.
    + repeat constructor. simpl. apply in_or_app. right. now left.
  - rewrite length_app. simpl. lia.
Qed.

Lemma Good_fire (k : nat) (s : State) : Good s -> Good (fire k s).
Proof.
  intros HG. pose proof HG as (HI & [Hnd Hact] & Hb).
  split; [now apply Inv_fire|].
  unfold fire.
  destruct (nth_error (timers s) k) as [t|] eqn:Hk; [|split; [constructor|]; assumption].
  destruct (due t <=? clock s)%nat; [|split; [constructor|]; assumption].
  destruct (nth_error_remove_nth k (timers s) t Hk) as (l1 & l2 & Hl & Hr).
  rewrite Hr. rewrite Hl in Hnd, Hact.
  rewrite map_app in Hnd. simpl in Hnd.
  pose proof (NoDup_remove _ _ _ Hnd) as [Hnd' Hnot].
  rewrite <- map_app in Hnd', Hnot.
  assert (Hmid : In (alert_of_callback (callback t)) (activeAlerts s)).
  { rewrite Forall_forall in Hact. apply Hact. apply in_or_app. right. now left. }
  assert (Hact' : Forall (fun t => In (alert_of_callback (callback t)) (activeAlerts s))
                         (l1 ++ l2)).
  { rewrite Forall_app in *. destruct Hact as [H1 H2].
    inversion H2; subst. now split. }
  destruct HI as [(c & Hc & Hsh) Hsorted Hfresh Hwait].
  destruct (callback t) as [a|a]; simpl in Hmid, Hnot; simpl run_callback.
  - (* the lifetime of [a] is over *)
    unfold removeAlert. simpl.
    split; [constructor|]; simpl.
    + rewrite map_app. simpl. now apply NoDup_snoc.
    + rewrite Forall_app. split; [assumption|]. repeat constructor. assumption.
    + assumption.
  - (* the exit animation of [a] is over *)
    rewrite (removeAlert_done_eq a _ c) by exact Hc. simpl.
    pose proof Hsorted as Hs. apply sorted_app in Hs. destruct Hs as (Hsa & Hsq & Hlt).
    pose proof (filter_differs_length_In a (activeAlerts s) (sorted_NoDup _ Hsa) Hmid) as Hlen.
    assert (Hrest : Forall (fun t => In (alert_of_callback (callback t))
                                        (filter (differs a) (activeAlerts s))) (l1 ++ l2)).
    { rewrite Forall_forall in *. intros t' Ht'.
      apply filter_differs_In. split; [now apply Hact'|].
      intros Heq. apply Hnot. apply in_map_iff. now exists t'. }
    destruct (alertQueue s) as [|h rest] eqn:Hq.
    + split; [constructor|]; simpl; try assumption. lia.
    + assert (Hh : ~ In h (activeAlerts s)).
      { intros Hin. specialize (Hlt h h Hin (or_introl eq_refl)). lia. }
      unfold displayAlert. simpl.
      split; [constructor|]; simpl.
      * rewrite map_app. simpl. apply NoDup_snoc; [assumption|].
        intros Hin. apply in_map_iff in Hin. destruct Hin as (t' & Heq & Hin).
        rewrite Forall_forall in Hact'. specialize (Hact' t' Hin).
        rewrite Heq in Hact'. contradiction.
      * rewrite Forall_app. split.
        -- eapply Forall_impl; [|exact Hrest]. simpl. intros t' Ht'.
           apply in_or_app. now left.
        -- repeat constructor. simpl. apply in_or_app. right. now left.
      * rewrite length_app. simpl. lia.
Qed.

Lemma Good_ready (found : option Element) : Good (ready found).
Proof.
  split; [apply Inv_ready|].
  destruct found; (split; [constructor|]); simpl; try constructor;
    unfold MAX_ALERTS; lia.
Qed.

Lemma Good_run (events : list Event) (s : State) :
  forallb (fun e => negb (is_clear e)) events = true ->
  Good s -> Good (run events s).
Proof.
  revert s. induction events as [|e events IH]; intros s Hno HG; simpl; [assumption|].
  simpl in Hno. apply andb_true_iff in Hno. destruct Hno as [He Hno].
  apply IH; [assumption|].
  destruct e; simpl in *; try discriminate.
  - now apply Good_createAlert.
  - eapply Good_ext; [| | | | |exact HG]; reflexivity.
  - now apply Good_fire.
Qed.

(** As long as [clearAlerts] is not called, no more than [MAX_ALERTS]
    alerts are active, whatever is created and whichever timers fire. *)
Lemma alerts_bound_without_clear (found : option Element) (events : list Event) :
  forallb (fun e => negb (is_clear e)) events = true ->
  List.length (activeAlerts (run events (ready found))) <= MAX_ALERTS.
Proof.
  intros Hno. apply (Good_run events (ready found) Hno (Good_ready found)).
Qed.

End AlertsBound.

(** C2, on the alerts.  A is displayed at time 0 and cleared one second
    later; B, C and D are displayed and E is queued.  The timer of A is still
    pending: it fires at 8000 ms and its exit callback at 8600 ms, before
    any other timer is due, and that callback promotes E into an active set
    that is full.  Four alerts are active, one more than [MAX_ALERTS]. *)
Theorem alerts_active_set_exceeds_max :
  let s := Alerts.run [Alerts.Create (Alerts.alert_of "follow" "A");
                       Alerts.Elapse 1000; Alerts.Clear;
                       Alerts.Create (Alerts.alert_of "follow" "B");
                       Alerts.Create (Alerts.alert_of "follow" "C");
                       Alerts.Create (Alerts.alert_of "follow" "D");
                       Alerts.Create (Alerts.alert_of "follow" "E");
                       Alerts.Elapse 7000; Alerts.Fire 0;
                       Alerts.Elapse 600; Alerts.Fire 3]
                      (Alerts.ready None) in
  Alerts.activeAlerts s = [1; 2; 3; 4] /\
  option_map Alerts.shown (Alerts.alertContainer s) = Some [1; 2; 3; 4] /\
  map Alerts.due (Alerts.timers s) = [9000; 9000; 9000; 16600] /\
  Alerts.clock s = 8600 /\
  List.length (Alerts.activeAlerts s) = 4 /\
  Alerts.MAX_ALERTS = 3.
Proof. vm_compute. repeat split. Qed.

(** ** Chat *)

Section ChatFacts.
Import Chat.

Lemma addChatLine_eq (now : Date) (d : MessageData) (s : State) (c : Container) :
  chatContainer s = Some c ->
  forallb valid_token (default [] (badges d)) = true ->
  addChatLine now d s =
  Some (let m := List.length (store s) in
        let msgs := chatMessages s ++ [m] in
        let sh := filter (differs m) (shown c) ++ [m] in
        let evict := (MAX_MESSAGES <? List.length msgs)%nat in
        let s1 :=
          mkState (store s ++ [element_of now d])
                  (if evict then tl msgs else msgs)
                  (Some (mkContainer (element c)
                           (if evict then filter (differs (hd 0 msgs)) sh else sh)
                           (scrollTop c)))
                  (isAutoScrollEnabled s) (layout s) (console s) in
        if isAutoScrollEnabled s then scrollToBottom s1 else reflow s1).
Proof.
  intros Hc Hv. unfold addChatLine. rewrite Hc, Hv. simpl negb. cbv iota zeta.
  f_equal. fold (element_of now d).
  destruct s as [st msgs cont auto lay con].
  cbn [isAutoScrollEnabled set_chatMessages set_chatContainer set_store
         store chatMessages chatContainer layout console shown].
  destruct (MAX_MESSAGES <? List.length (msgs ++ [List.length st]))%nat eqn:Hev;
    [|reflexivity].
  destruct (msgs ++ [List.length st]) as [|old rest] eqn:Hm.
  { simpl in Hev. discriminate. }
  cbn [hd tl isAutoScrollEnabled set_chatMessages set_chatContainer set_store
         store chatMessages chatContainer layout console shown].
  destruct (existsb (Nat.eqb old)
              (filter (differs (List.length st)) (shown c) ++ [List.length st])) eqn:Hex.
  - reflexivity.
  - assert (Hnot : ~ In old (filter (differs (List.length st)) (shown c)
                             ++ [List.length st])).
    { intros Hin. apply existsb_eqb_In in Hin. congruence. }
    rewrite (filter_differs_notin old _ Hnot). reflexivity.
Qed.

Lemma scrollToBottom_eq (s : State) (c : Container) :
  chatContainer s = Some c ->
  scrollToBottom s =
  set_chatContainer
    (Some (mkContainer (element c) (shown c) (scrollTopMax s c))) s.
Proof.
  intros Hc. unfold scrollToBottom. rewrite Hc. unfold set_scrollTop.
  do 3 f_equal. unfold scrollTopMax, scrollHeight. lia.
Qed.

Lemma reflow_eq (s : State) (c : Container) :
  chatContainer s = Some c ->
  reflow s =
  set_chatContainer
    (Some (mkContainer (element c) (shown c)
             (Nat.min (scrollTop c) (scrollTopMax s c)))) s.
Proof. intros Hc. unfold reflow. rewrite Hc. reflexivity. Qed.

Lemma Inv_reflow (s : State) : Inv s -> Inv (reflow s).
Proof.
  intros [Hm Hb]. unfold reflow. destruct (chatContainer s); constructor; assumption.
Qed.

Lemma addChatLine_no_container (now : Date) (d : MessageData) (s : State) :
  chatContainer s = None ->
  addChatLine now d s = Some (console_error "Chat container not found" s).
Proof. intros Hc. unfold addChatLine. now rewrite Hc. Qed.

Lemma addChatLine_throws (now : Date) (d : MessageData) (s : State) (c : Container) :
  chatContainer s = Some c ->
  forallb valid_token (default [] (badges d)) = false ->
  addChatLine now d s = None.
Proof. intros Hc Hv. unfold addChatLine. now rewrite Hc, Hv. Qed.

Lemma Forall_tl {A : Type} (P : A -> Prop) (l : list A) :
  Forall P l -> Forall P (tl l).
Proof. destruct 1; simpl; [constructor | assumption]. Qed.

Lemma length_tl {A : Type} (l : list A) : List.length (tl l) = List.length l - 1.
Proof. destruct l; simpl; lia. Qed.

Lemma Inv_addChatLine (now : Date) (d : MessageData) (s s' : State) :
  Inv s -> addChatLine now d s = Some s' -> Inv s'.
Proof.
  intros [Hm Hb] Hadd.
  destruct (chatContainer s) as [c|] eqn:Hc.
  2:{ rewrite (addChatLine_no_container now d s Hc) in Hadd.
      inversion Hadd; subst. constructor; assumption. }
  destruct (forallb valid_token (default [] (badges d))) eqn:Hv.
  2:{ rewrite (addChatLine_throws now d s c Hc Hv) in Hadd. discriminate. }
  rewrite (addChatLine_eq now d s c Hc Hv) in Hadd. cbv zeta in Hadd.
  match type of Hadd with
  | Some (if _ then scrollToBottom ?x else _) = _ =>
      set (s1 := x) in *;
      assert (H1 : Inv s1)
  end.
  { assert (Hall : Forall (fun r => r < List.length (store s ++ [element_of now d]))
                          (chatMessages s ++ [List.length (store s)])).
    { rewrite length_app. simpl. rewrite Forall_app. split.
      - eapply Forall_impl; [|exact Hm]. simpl. intros; lia.
      - repeat constructor. lia. }
    constructor; unfold s1; cbn [store chatMessages].
    - destruct (_ <? _)%nat; [now apply Forall_tl | assumption].
    - destruct (Nat.ltb_spec MAX_MESSAGES
                  (List.length (chatMessages s ++ [List.length (store s)]))) as [Hlt|Hge];
        [|assumption].
      rewrite length_tl, length_app. simpl. lia. }
  destruct (isAutoScrollEnabled s); inversion Hadd; subst; [|now apply Inv_reflow].
  destruct H1 as [H1m H1b].
  unfold scrollToBottom. destruct (chatContainer s1); constructor; assumption.
Qed.

Lemma chat_Inv_step (s : State) (e : Event) : Inv s -> Inv (step s e).
Proof.
  intros HI. destruct e as [now d| |b]; simpl.
  - destruct (addChatLine now d s) as [s'|] eqn:Hadd; [|assumption].
    eapply Inv_addChatLine; eassumption.
  - destruct HI. unfold clearChat. apply Inv_reflow.
    constructor; simpl; [constructor | unfold MAX_MESSAGES; lia].
  - destruct HI. constructor; assumption.
Qed.

Lemma chat_Inv_run (events : list Event) (s : State) : Inv s -> Inv (run events s).
Proof.
  revert s. induction events as [|e events IH]; intros s HI; simpl; [assumption|].
  apply IH. now apply chat_Inv_step.
Qed.

Lemma chat_Inv_ready (l : Layout) (found : option (Element * nat)) : Inv (ready l found).
Proof.
  destruct found as [[el top]|]; constructor; simpl;
    try constructor; unfold MAX_MESSAGES; lia.
Qed.

(** The list of messages never holds more than [MAX_MESSAGES] entries. *)
Lemma chat_bound (l : Layout) (found : option (Element * nat)) (events : list Event) :
  List.length (chatMessages (run events (ready l found))) <= MAX_MESSAGES.
Proof. apply chat_Inv_run, chat_Inv_ready. Qed.

Lemma container_step (s : State) (e : Event) :
  chatContainer s <> None -> chatContainer (step s e) <> None.
Proof.
  intros Hc. destruct e as [now d| |b]; simpl; [| |exact Hc].
  - destruct (chatContainer s) as [c|] eqn:Hcs; [|congruence].
    destruct (forallb valid_token (default [] (badges d))) eqn:Hv.
    + rewrite (addChatLine_eq now d s c Hcs Hv). cbv zeta.
      destruct (isAutoScrollEnabled s); [|unfold reflow; simpl; discriminate].
      unfold scrollToBottom. simpl. discriminate.
    + rewrite (addChatLine_throws now d s c Hcs Hv). congruence.
  - unfold clearChat, reflow. destruct (chatContainer s) as [c|] eqn:E; simpl;
      [discriminate | rewrite E; congruence].
Qed.

Lemma container_run (events : list Event) (s : State) :
  chatContainer s <> None -> chatContainer (run events s) <> None.
Proof.
  revert s. induction events as [|e events IH]; intros s Hc; simpl; [assumption|].
  apply IH. now apply container_step.
Qed.

Lemma no_container_step (s : State) (e : Event) :
  chatContainer s = None -> chatMessages s = [] ->
  chatContainer (step s e) = None /\ chatMessages (step s e) = [] /\
  store (step s e) = store s.
Proof.
  intros Hc Hm. destruct e as [now d| |b]; simpl.
  - rewrite (addChatLine_no_container now d s Hc). simpl. auto.
  - unfold clearChat, reflow. rewrite Hc. simpl. rewrite Hc. auto.
  - auto.
Qed.

Lemma no_container_run (events : list Event) (s : State) :
  chatContainer s = None -> chatMessages s = [] ->
  chatContainer (run events s) = None /\ chatMessages (run events s) = [] /\
  store (run events s) = store s.
Proof.
  revert s. induction events as [|e events IH]; intros s Hc Hm; simpl; [auto|].
  destruct (no_container_step s e Hc Hm) as (Hc' & Hm' & Hs').
  destruct (IH _ Hc' Hm') as (? & ? & Hs''). rewrite Hs'' , Hs'. auto.
Qed.

(** [clearChat] twice is [clearChat] once. *)
Lemma clearChat_idempotent (s : State) : clearChat (clearChat s) = clearChat s.
Proof.
  destruct s as [st msgs [c|] auto lay con]; unfold clearChat, reflow; simpl;
    [|reflexivity].
  unfold set_chatContainer, set_scrollTop, scrollTopMax, scrollHeight, children.
  simpl. do 3 f_equal. lia.
Qed.

Lemma last_child_new (st : list Element) (el : Element) (static : list Node)
    (sh : list nat) :
  last (map Some
          (static ++ flat_map (fun r => match nth_error (st ++ [el]) r with
                                        | Some e => [Elem e]
                                        | None => []
                                        end) (sh ++ [List.length st]))) None
  = Some (Elem el).
Proof.
  rewrite flat_map_app. simpl.
  rewrite nth_error_app2, Nat.sub_diag by lia. simpl.
  rewrite app_assoc, map_app. simpl. apply last_last.
Qed.

(** What [addChatLine] does in a reachable state with a container: the new
    element goes to the end of the store and of the container's children,
    whether or not the oldest message is evicted. *)
Lemma addChatLine_appends :
  forall (l : Chat.Layout) (el : Element) (top : nat) (events : list Chat.Event)
         (now : Date) (d : Chat.MessageData),
    forallb valid_token (default [] (Chat.badges d)) = true ->
    let s := Chat.run events (Chat.ready l (Some (el, top))) in
    exists c msgs sh,
      Chat.chatContainer s = Some c /\
      Chat.addChatLine now d s =
      Some (let s1 :=
              Chat.mkState (Chat.store s ++ [Chat.element_of now d]) msgs
                (Some (Chat.mkContainer (Chat.element c)
                         (sh ++ [List.length (Chat.store s)]) (Chat.scrollTop c)))
                (Chat.isAutoScrollEnabled s) (Chat.layout s) (Chat.console s) in
            if Chat.isAutoScrollEnabled s then Chat.scrollToBottom s1
            else Chat.reflow s1).
Proof.
  intros l el top events now d Hv s.
  assert (Hc : Chat.chatContainer s <> None)
    by (apply container_run; simpl; discriminate).
  destruct (Chat.chatContainer s) as [c|] eqn:Hcs; [clear Hc|congruence].
  pose proof (chat_Inv_run events _ (chat_Inv_ready l (Some (el, top)))) as [Hm Hb].
  fold s in Hm, Hb.
  exists c. rewrite (addChatLine_eq now d s c Hcs Hv). cbv zeta.
  set (m := List.length (Chat.store s)).
  set (msgs := Chat.chatMessages s ++ [m]).
  set (sh := filter (differs m) (Chat.shown c) ++ [m]).
  assert (Hsh : exists sh0,
             (if (Chat.MAX_MESSAGES <? List.length msgs)%nat
              then filter (differs (hd 0 msgs)) sh else sh) = sh0 ++ [m]).
  { destruct (Nat.ltb_spec Chat.MAX_MESSAGES (List.length msgs)) as [Hlt|Hge].
    - assert (Hold : hd 0 msgs < m).
      { unfold msgs in *. destruct (Chat.chatMessages s) as [|old rest].
        - simpl in Hlt. unfold Chat.MAX_MESSAGES in Hlt. lia.
        - simpl. inversion Hm; subst. assumption. }
      assert (Hd : differs (hd 0 msgs) m = true)
        by (unfold differs; apply negb_true_iff, Nat.eqb_neq; lia).
      unfold sh. rewrite filter_app. simpl. rewrite Hd.
      eexists. reflexivity.
    - eexists. reflexivity. }
  destruct Hsh as (sh0 & Hsh). rewrite Hsh.
  eexists. exists sh0. split; reflexivity.
Qed.

Lemma lastChild_appended (st : list Element) (new : Element) (msgs sh : list nat)
    (c : Chat.Container) (auto : bool) (l : Chat.Layout) (con : list string) :
  let s1 := Chat.mkState (st ++ [new]) msgs
              (Some (Chat.mkContainer (Chat.element c) (sh ++ [List.length st])
                       (Chat.scrollTop c))) auto l con in
  Chat.lastChild (Chat.reflow s1) = Some (Elem new) /\
  Chat.lastChild (Chat.scrollToBottom s1) = Some (Elem new).
Proof.
  cbv zeta. split.
  - erewrite reflow_eq by reflexivity.
    unfold Chat.lastChild, Chat.children. simpl. apply last_child_new.
  - erewrite scrollToBottom_eq by reflexivity.
    unfold Chat.lastChild, Chat.children. simpl. apply last_child_new.
Qed.

Lemma messageContent_eq (now : Date) (d : Chat.MessageData) :
  Chat.messageContent (Chat.element_of now d) =
  Some (let processedMessage := escapeHtml (default "" (Chat.message d)) in
        if default false (Chat.cheer d) && (0 <? default 0%Z (Chat.bits d))%Z
        then ("Cheered " ++ formatNumber (default 0%Z (Chat.bits d)) ++ " bits: "
              ++ processedMessage)%string
        else processedMessage).
Proof.
  unfold Chat.element_of, Chat.messageElement, Chat.messageContent.
  cbv zeta. unfold appendChild at 1 2. cbn [childNodes set_childNodes].
  match goal with
  | |- context [childNodes (createElement "div" (opts ?cls))] =>
      change (childNodes (createElement "div" (opts cls))) with (@nil Node)
  end.
  match goal with
  | |- context [([] ++ [Elem ?h]) ++ _] => set (hdr := h)
  end.
  assert (Hh : has_class "message-content" (Elem hdr) = false) by reflexivity.
  cbn [find app]. rewrite Hh.
  assert (Hc : forall cls, has_class "message-content"
                  (Elem (set_innerHTML cls (createElement "div" (opts ["message-content"]))))
                = true) by reflexivity.
  rewrite Hc.
  destruct (default false (Chat.cheer d) && (0 <? default 0%Z (Chat.bits d))%Z).
  - reflexivity.
  - unfold Chat.innerHTML, set_innerHTML, set_childNodes. cbn [childNodes].
    unfold truthy.
    destruct (escapeHtml (default "" (Chat.message d))) eqn:E; reflexivity.
Qed.

Lemma in_range_reflow (s : State) : in_range (reflow s).
Proof.
  unfold in_range, reflow. destruct (chatContainer s) as [c|] eqn:Hc; [|now rewrite Hc].
  cbn [set_chatContainer chatContainer set_scrollTop scrollTop].
  apply Nat.le_min_r.
Qed.

Lemma in_range_scrollToBottom (s : State) : in_range s -> in_range (scrollToBottom s).
Proof.
  unfold in_range, scrollToBottom. destruct (chatContainer s) as [c|] eqn:Hc;
    [intros _|now rewrite Hc].
  cbn [set_chatContainer chatContainer set_scrollTop scrollTop].
  apply Nat.le_min_r.
Qed.

Lemma in_range_step (s : State) (e : Event) : in_range s -> in_range (step s e).
Proof.
  intros Hr. destruct e as [now d| |b]; cbn [step].
  - destruct (chatContainer s) as [c|] eqn:Hc.
    + destruct (forallb valid_token (default [] (badges d))) eqn:Hv.
      * rewrite (addChatLine_eq now d s c Hc Hv). cbv zeta.
        destruct (isAutoScrollEnabled s).
        -- unfold in_range, scrollToBottom.
           cbn [set_chatContainer chatContainer set_scrollTop scrollTop].
           apply Nat.le_min_r.
        -- apply in_range_reflow.
      * rewrite (addChatLine_throws now d s c Hc Hv). exact Hr.
    + rewrite (addChatLine_no_container now d s Hc).
      unfold in_range in *. cbn [console_error chatContainer]. rewrite Hc. exact I.
  - apply in_range_reflow.
  - unfold in_range in *. cbn [setAutoScroll chatContainer].
    destruct (chatContainer s); [exact Hr | exact I].
Qed.

Lemma in_range_run (events : list Event) (s : State) :
  in_range s -> in_range (run events s).
Proof.
  revert s. induction events as [|e events IH]; intros s Hr; [exact Hr|].
  cbn [run fold_left]. apply IH, in_range_step, Hr.
Qed.

Lemma in_range_ready (l : Layout) (found : option (Element * nat)) :
  in_range (ready l found).
Proof.
  destruct found as [[el top]|]; [apply in_range_reflow | exact I].
Qed.

End ChatFacts.




(** C9 as stated fails: a record with the [cheer] flag and no [bits] (the
    default is 0) gets the class [cheer] and its message alone as content,
    with no amount before it. *)
Lemma chat_cheer_without_bits_has_no_prefix :
  let d := Chat.mkMessageData (Some "PitCrewPro") (Some "GG!") None None None
             (Some true) None None in
  let el := Chat.element_of (mkDate 20 15 0) d in
  Chat.cheer d = Some true /\
  classList el = ["chat-message"; "cheer"] /\
  Chat.messageContent el = Some "GG!" /\
  Chat.messageContent el <> Some ("Cheered " ++ formatNumber 0%Z ++ " bits: GG!")%string.
Proof.
  cbv zeta. repeat split; try reflexivity. vm_compute. discriminate.
Qed.

(** C9, amended.  In every state the chat reaches once [initChat] has found
    its container, [addChatLine] (with badge types that are class tokens)
    appends the element it builds as the last child of the container.  When
    the [cheer] flag is set and [bits] is greater than 0, the content of
    that element is "Cheered N bits: " followed by the escaped message, N
    being [formatNumber(bits)]; when [bits] is 0, negative or left out, the
    content is the escaped message alone. *)
Theorem chat_cheer_prefix :
  forall (l : Chat.Layout) (el : Element) (top : nat) (events : list Chat.Event)
         (now : Date) (d : Chat.MessageData),
    forallb valid_token (default [] (Chat.badges d)) = true ->
    let s := Chat.run events (Chat.ready l (Some (el, top))) in
    let message := default "" (Chat.message d) in
    let bits := default 0%Z (Chat.bits d) in
    exists s',
      Chat.addChatLine now d s = Some s' /\
      Chat.lastChild s' = Some (Elem (Chat.element_of now d)) /\
      (Chat.cheer d = Some true -> (0 < bits)%Z ->
         Chat.messageContent (Chat.element_of now d) =
         Some ("Cheered " ++ formatNumber bits ++ " bits: " ++ escapeHtml message)%string) /\
      ((bits <= 0)%Z ->
         Chat.messageContent (Chat.element_of now d) = Some (escapeHtml message)).
Proof.
  intros l el top events now d Hv s message bits.
  destruct (addChatLine_appends l el top events now d Hv) as (c & msgs & sh & Hc & Hadd).
  fold s in Hc, Hadd. cbv zeta in Hadd.
  destruct (lastChild_appended (Chat.store s) (Chat.element_of now d) msgs sh c
              (Chat.isAutoScrollEnabled s) (Chat.layout s) (Chat.console s))
    as [Hlast Hlast'].
  cbv zeta in Hlast, Hlast'.
  eexists. split; [exact Hadd|].
  split; [destruct (Chat.isAutoScrollEnabled s); assumption|].
  rewrite messageContent_eq. cbv zeta. fold message bits. split.
  - intros Hcheer Hpos. rewrite Hcheer. simpl default.
    destruct (Z.ltb_spec 0 bits); [reflexivity | lia].
  - intros Hle. destruct (Z.ltb_spec 0 bits); [lia|].
    rewrite andb_false_r. reflexivity.
Qed.

(** A cheer of 1500 bits with markup in its message. *)
Lemma chat_cheer_prefix_witness :
  let l := Chat.mkLayout 100 (fun kids => 40 * List.length kids) in
  let el := createElement "div" (opts ["chat-messages"]) in
  let d := Chat.mkMessageData (Some "PitCrewPro") (Some "<b>GG</b>") None None None
             (Some true) (Some 1500%Z) None in
  forallb valid_token (default [] (Chat.badges d)) = true /\
  Chat.cheer d = Some true /\ (0 < default 0%Z (Chat.bits d))%Z /\
  Chat.messageContent (Chat.element_of (mkDate 20 15 0) d) =
    Some "Cheered 1,500 bits: &lt;b&gt;GG&lt;/b&gt;"%string.
Proof.
  cbv zeta. split; [reflexivity|]. split; [reflexivity|]. split; [reflexivity|].
  destruct (chat_cheer_prefix
              (Chat.mkLayout 100 (fun kids => 40 * List.length kids))
              (createElement "div" (opts ["chat-messages"])) 0 [] (mkDate 20 15 0)
              (Chat.mkMessageData (Some "PitCrewPro") (Some "<b>GG</b>") None None None
                 (Some true) (Some 1500%Z) None)
              eq_refl) as (s' & _ & _ & Hcheer & _).
  exact (Hcheer eq_refl eq_refl).
Defined.

(** ** Ticker *)

Section TickerFacts.
Import Ticker.

Lemma own_lookup_setAttribute (st : list (string * string)) (k v : string) :
  own_lookup (setAttribute st k v) k = Some v.
Proof.
  induction st as [|[k' v'] st IH]; simpl.
  - now rewrite String.eqb_refl.
  - destruct (String.eqb_spec k' k) as [->|Hne]; simpl.
    + now rewrite String.eqb_refl.
    + destruct (String.eqb_spec k' k); [contradiction | exact IH].
Qed.

Lemma track_remove_empty_message (sf : Surface) :
  track (remove_empty_message sf) = track sf.
Proof.
  unfold remove_empty_message.
  destruct (remove_first_in _ (before sf)); [reflexivity|].
  destruct (remove_first_in _ (after sf)); reflexivity.
Qed.

Lemma length_zero_nil {A : Type} (l : list A) :
  (List.length l =? 0)%nat = true <-> l = [].
Proof. destruct l; simpl; split; intros; congruence. Qed.

Lemma renderTicker_empty (s : State) (sf : Surface) :
  tickerTrack s = Some sf ->
  renderTicker [] s =
  set_tickerTrack
    (Some (mkSurface (set_childNodes [] (track sf)) (before sf)
             (after sf ++ [Elem emptyMessage]))) s.
Proof. intros Ht. unfold renderTicker. rewrite Ht. reflexivity. Qed.

Lemma renderTicker_items (items : list ItemData) (s : State) (sf : Surface) :
  tickerTrack s = Some sf -> items <> [] ->
  exists b a,
    renderTicker items s =
    set_tickerTrack
      (Some (mkSurface
               (set_style "animationDuration"
                  (nat_string (Nat.max SCROLL_SPEED (List.length (tickerItems s) * 2)) ++ "s")
                  (set_childNodes (render_set items ++ render_set items) (track sf)))
               b a)) s.
Proof.
  intros Ht Hne. unfold renderTicker. rewrite Ht. cbv zeta.
  destruct (List.length items =? 0)%nat eqn:E.
  { apply length_zero_nil in E. contradiction. }
  set (sf1 := remove_empty_message _).
  assert (Ht1 : track sf1 = set_childNodes [] (track sf))
    by (unfold sf1; now rewrite track_remove_empty_message).
  exists (before sf1), (after sf1).
  unfold updateScrollSpeed. cbn [tickerTrack set_tickerTrack tickerItems track before after].
  rewrite Ht1. destruct s; reflexivity.
Qed.

Lemma renderTicker_tickerItems (items : list ItemData) (s : State) :
  tickerItems (renderTicker items s) = tickerItems s.
Proof.
  unfold renderTicker. destruct (tickerTrack s) as [sf|]; [|reflexivity].
  cbv zeta. destruct (List.length items =? 0)%nat; [reflexivity|].
  unfold updateScrollSpeed. reflexivity.
Qed.

Lemma addTickerItem_eq (d : ItemData) (s : State) :
  exists items,
    items = (if (MAX_ITEMS <? S (List.length (tickerItems s)))%nat
             then firstn MAX_ITEMS (d :: tickerItems s)
             else d :: tickerItems s) /\
    items <> [] /\
    addTickerItem d s = renderTicker items (set_tickerItems items s).
Proof.
  eexists. split; [reflexivity|].
  unfold addTickerItem. cbv zeta. cbn [tickerItems set_tickerItems List.length].
  destruct (MAX_ITEMS <? S (List.length (tickerItems s)))%nat; split;
    try reflexivity; discriminate.
Qed.

Lemma track_step (s : State) (e : Event) :
  tickerTrack s <> None -> tickerTrack (step s e) <> None.
Proof.
  intros Ht. destruct (tickerTrack s) as [sf|] eqn:Hs; [clear Ht|congruence].
  destruct e as [d| |v| |]; simpl.
  - destruct (addTickerItem_eq d s) as (items & _ & Hne & ->).
    edestruct (renderTicker_items items (set_tickerItems items s)) as (b & a & ->);
      [exact Hs | exact Hne |].
    simpl. discriminate.
  - unfold clearTicker. cbv zeta. cbn [tickerItems set_tickerItems].
    erewrite renderTicker_empty by exact Hs. simpl. discriminate.
  - unfold setTickerSpeed, on_track. rewrite Hs. simpl. discriminate.
  - unfold pauseTicker, on_track. rewrite Hs. simpl. discriminate.
  - unfold resumeTicker, on_track. rewrite Hs. simpl. discriminate.
Qed.

Lemma track_run (events : list Event) (s : State) :
  tickerTrack s <> None -> tickerTrack (run events s) <> None.
Proof.
  revert s. induction events as [|e events IH]; intros s Ht; simpl; [assumption|].
  apply IH. now apply track_step.
Qed.

Lemma items_step (s : State) (e : Event) :
  List.length (tickerItems s) <= MAX_ITEMS ->
  List.length (tickerItems (step s e)) <= MAX_ITEMS.
Proof.
  intros Hb. destruct e as [d| |v| |]; simpl.
  - destruct (addTickerItem_eq d s) as (items & Hi & _ & ->).
    rewrite renderTicker_tickerItems. cbn [tickerItems set_tickerItems].
    rewrite Hi.
    destruct (Nat.ltb_spec MAX_ITEMS (S (List.length (tickerItems s)))).
    + rewrite length_firstn. lia.
    + simpl. lia.
  - unfold clearTicker. cbv zeta. rewrite renderTicker_tickerItems. simpl. lia.
  - unfold setTickerSpeed, on_track. destruct (tickerTrack s); exact Hb.
  - unfold pauseTicker, on_track. destruct (tickerTrack s); exact Hb.
  - unfold resumeTicker, on_track. destruct (tickerTrack s); exact Hb.
Qed.

(** The list of ticker items never holds more than [MAX_ITEMS] entries,
    with or without a track. *)
Lemma ticker_bound (found : option Surface) (events : list Event) :
  List.length (tickerItems (run events (ready found))) <= MAX_ITEMS.
Proof.
  assert (H : forall s, List.length (tickerItems s) <= MAX_ITEMS ->
                        List.length (tickerItems (run events s)) <= MAX_ITEMS).
  { induction events as [|e events IH]; intros s Hb; simpl; [assumption|].
    apply IH. now apply items_step. }
  apply H. destruct found; simpl; unfold MAX_ITEMS; lia.
Qed.

Lemma filter_render_set (items : list ItemData) :
  filter (has_class "ticker-item") (render_set items) =
  map (fun d => Elem (createTickerItem d)) items.
Proof.
  induction items as [|d items IH]; [reflexivity|].
  unfold render_set in *. cbn [flat_map app].
  change (filter (has_class "ticker-item")
            (Elem (createTickerItem d) :: Elem separator ::
             flat_map (fun itemData => [Elem (createTickerItem itemData); Elem separator]) items))
    with (Elem (createTickerItem d) ::
          filter (has_class "ticker-item")
            (flat_map (fun itemData => [Elem (createTickerItem itemData); Elem separator]) items)).
  now rewrite IH.
Qed.

Lemma rendered_after_mutation (s : State) (sf : Surface) :
  tickerTrack s = Some sf ->
  (forall d,
     rendered (addTickerItem d s) =
     Some (render_set (tickerItems (addTickerItem d s))
           ++ render_set (tickerItems (addTickerItem d s)))) /\
  rendered (clearTicker s) =
  Some (render_set (tickerItems (clearTicker s))
        ++ render_set (tickerItems (clearTicker s))).
Proof.
  intros Hs. split.
  - intros d. destruct (addTickerItem_eq d s) as (items & _ & Hne & ->).
    rewrite renderTicker_tickerItems. cbn [tickerItems set_tickerItems].
    edestruct (renderTicker_items items (set_tickerItems items s)) as (b & a & ->);
      [exact Hs | exact Hne |].
    reflexivity.
  - unfold clearTicker. cbv zeta. rewrite renderTicker_tickerItems.
    cbn [tickerItems set_tickerItems].
    erewrite renderTicker_empty by exact Hs. reflexivity.
Qed.

Lemma duration_after_render (s : State) (sf : Surface) :
  tickerTrack s = Some sf ->
  (forall items, items <> [] ->
     animationDuration (renderTicker items s) =
     Some (nat_string (Nat.max SCROLL_SPEED (List.length (tickerItems s) * 2)) ++ "s")%string) /\
  animationDuration (renderTicker [] s) = animationDuration s.
Proof.
  intros Hs. split.
  - intros items Hne.
    destruct (renderTicker_items items s sf Hs Hne) as (b & a & ->).
    unfold animationDuration. cbn [tickerTrack set_tickerTrack track].
    unfold set_style. cbn [style]. apply own_lookup_setAttribute.
  - rewrite (renderTicker_empty s sf Hs). unfold animationDuration. rewrite Hs.
    reflexivity.
Qed.

Lemma no_track_step (s : State) (e : Event) :
  tickerTrack s = None ->
  tickerTrack (step s e) = None /\
  (forall d, e = Add d -> console (step s e) = console s ++ ["Ticker track not found"]) /\
  (e = Clear -> console (step s e) = console s ++ ["Ticker track not found"]).
Proof.
  intros Hs. destruct e as [d| |v| |]; simpl.
  - unfold addTickerItem. cbv zeta.
    destruct (MAX_ITEMS <? _)%nat; unfold renderTicker; simpl; rewrite Hs; simpl;
      repeat split; intros; congruence.
  - unfold clearTicker, renderTicker. simpl. rewrite Hs. simpl.
    repeat split; intros; congruence.
  - unfold setTickerSpeed, on_track. rewrite Hs. repeat split; intros; congruence.
  - unfold pauseTicker, on_track. rewrite Hs. repeat split; intros; congruence.
  - unfold resumeTicker, on_track. rewrite Hs. repeat split; intros; congruence.
Qed.

Lemma no_track_run (events : list Event) (s : State) :
  tickerTrack s = None -> tickerTrack (run events s) = None.
Proof.
  revert s. induction events as [|e events IH]; intros s Hs; simpl; [assumption|].
  apply IH. now apply no_track_step.
Qed.

(** With a track, a second [clearTicker] is never without effect: it
    appends one more placeholder after the track. *)
Lemma clearTicker_not_idempotent (s : State) (sf : Surface) :
  tickerTrack s = Some sf -> clearTicker (clearTicker s) <> clearTicker s.
Proof.
  intros Hs Heq. unfold clearTicker in Heq. cbv zeta in Heq.
  cbn [tickerItems set_tickerItems] in Heq.
  rewrite (renderTicker_empty (set_tickerItems [] s) sf Hs) in Heq.
  erewrite renderTicker_empty in Heq by reflexivity.
  apply (f_equal (fun s => option_map (fun sf => List.length (after sf)) (tickerTrack s))) in Heq.
  simpl in Heq. rewrite !length_app in Heq. simpl in Heq.
  inversion Heq. lia.
Qed.

Lemma icon_text_unknown (ty : string) :
  lookup icons ty = Undefined -> icon_text ty = "●"%string.
Proof. intros H. unfold icon_text. now rewrite H. Qed.

End TickerFacts.

(** C3.  In every state the ticker reaches once [initTicker] has found its
    track, after [addTickerItem] and after [clearTicker] the children of the
    track are the rendering of the list of items (every item followed by a
    separator) twice over, in the order of the list: the item elements among
    them are those of the list followed by those of the list again. *)
Theorem ticker_renders_list_twice :
  forall (sf : Ticker.Surface) (events : list Ticker.Event),
    let s := Ticker.run events (Ticker.ready (Some sf)) in
    let twice (s' : Ticker.State) :=
      Ticker.rendered s' =
        Some (Ticker.render_set (Ticker.tickerItems s')
              ++ Ticker.render_set (Ticker.tickerItems s')) /\
      option_map (filter (has_class "ticker-item")) (Ticker.rendered s') =
        Some (map (fun d => Elem (Ticker.createTickerItem d)) (Ticker.tickerItems s')
              ++ map (fun d => Elem (Ticker.createTickerItem d)) (Ticker.tickerItems s')) in
    (forall d, twice (Ticker.addTickerItem d s)) /\ twice (Ticker.clearTicker s).
Proof.
  intros sf events s twice.
  assert (Ht : Ticker.tickerTrack s <> None)
    by (apply track_run; simpl; discriminate).
  destruct (Ticker.tickerTrack s) as [sf0|] eqn:Hs; [clear Ht|congruence].
  destruct (rendered_after_mutation s sf0 Hs) as [Hadd Hclear].
  unfold twice. split.
  - intros d. rewrite Hadd. split; [reflexivity|].
    simpl. now rewrite filter_app, filter_render_set.
  - rewrite Hclear. split; [reflexivity|].
    simpl. now rewrite filter_app, filter_render_set.
Qed.

(** C10 as stated fails on the render of an empty list: with 16 items the
    duration is 32 seconds, and after [clearTicker] has rendered the empty
    list it still is, although the maximum of the base speed and twice the
    number of items is 30. *)
Lemma ticker_empty_render_keeps_duration :
  let item := Ticker.item_of "follow" "SpeedRacer88" "followed" "" in
  let s := Ticker.run (repeat (Ticker.Add item) 16) (Ticker.ready (Some Ticker.bare)) in
  let s' := Ticker.clearTicker s in
  Ticker.animationDuration s = Some "32s"%string /\
  Ticker.tickerItems s' = [] /\
  Ticker.animationDuration s' = Some "32s"%string /\
  (nat_string (Nat.max Ticker.SCROLL_SPEED (List.length (Ticker.tickerItems s') * 2)) ++ "s")%string
    = "30s"%string.
Proof. vm_compute. repeat split. Qed.

(** C10, amended.  In every state the ticker reaches once [initTicker] has
    found its track, a render of a list that is not empty, and so every
    [addTickerItem], sets the animation duration to the maximum of
    [SCROLL_SPEED] (30) and twice the number of items in [tickerItems],
    written in seconds; a render of the empty list, and so [clearTicker],
    leaves the duration as it was. *)
Theorem ticker_scroll_duration :
  forall (sf : Ticker.Surface) (events : list Ticker.Event),
    let s := Ticker.run events (Ticker.ready (Some sf)) in
    let seconds (n : nat) := (nat_string n ++ "s")%string in
    (forall items, items <> [] ->
       Ticker.animationDuration (Ticker.renderTicker items s) =
       Some (seconds (Nat.max Ticker.SCROLL_SPEED (List.length (Ticker.tickerItems s) * 2)))) /\
    (forall d,
       Ticker.animationDuration (Ticker.addTickerItem d s) =
       Some (seconds (Nat.max Ticker.SCROLL_SPEED
                        (List.length (Ticker.tickerItems (Ticker.addTickerItem d s)) * 2)))) /\
    Ticker.animationDuration (Ticker.renderTicker [] s) = Ticker.animationDuration s /\
    Ticker.animationDuration (Ticker.clearTicker s) = Ticker.animationDuration s.
Proof.
  intros sf events s seconds.
  assert (Ht : Ticker.tickerTrack s <> None)
    by (apply track_run; simpl; discriminate).
  destruct (Ticker.tickerTrack s) as [sf0|] eqn:Hs; [clear Ht|congruence].
  destruct (duration_after_render s sf0 Hs) as [Hitems Hempty].
  split; [exact Hitems|]. split; [|split; [exact Hempty|]].
  - intros d. destruct (addTickerItem_eq d s) as (items & _ & Hne & ->).
    rewrite renderTicker_tickerItems.
    destruct (duration_after_render (Ticker.set_tickerItems items s) sf0 Hs) as [H _].
    now apply H.
  - unfold Ticker.clearTicker. cbv zeta.
    destruct (duration_after_render (Ticker.set_tickerItems [] s) sf0 Hs) as [_ H].
    cbn [Ticker.tickerItems Ticker.set_tickerItems]. rewrite H.
    unfold Ticker.animationDuration. reflexivity.
Qed.

(** C4, on the ticker.  On an empty track that is alone in its parent, one
    [clearTicker] leaves one placeholder after the track and a second
    [clearTicker] leaves two; the list and the track are empty both times.
    An item added afterwards removes one placeholder only, so the other
    stays beside the filled track. *)
Theorem ticker_clear_twice_adds_placeholder :
  let s1 := Ticker.clearTicker (Ticker.ready (Some Ticker.bare)) in
  let s2 := Ticker.clearTicker s1 in
  let s3 := Ticker.addTickerItem (Ticker.item_of "follow" "SpeedRacer88" "followed" "") s2 in
  Ticker.tickerItems s1 = [] /\ Ticker.tickerItems s2 = [] /\
  Ticker.rendered s1 = Some [] /\ Ticker.rendered s2 = Some [] /\
  Ticker.placeholders s1 = Some [Elem Ticker.emptyMessage] /\
  Ticker.placeholders s2 = Some [Elem Ticker.emptyMessage; Elem Ticker.emptyMessage] /\
  s2 <> s1 /\
  Ticker.placeholders s3 = Some [Elem Ticker.emptyMessage].
Proof.
  cbv zeta. repeat split; try reflexivity.
  apply (clearTicker_not_idempotent _ Ticker.bare). reflexivity.
Qed.

Section ClearAndInit.

(** [clearAlerts] twice is [clearAlerts] once. *)
Lemma clearAlerts_idempotent (s : Alerts.State) :
  Alerts.clearAlerts (Alerts.clearAlerts s) = Alerts.clearAlerts s.
Proof. unfold Alerts.clearAlerts. reflexivity. Qed.

Lemma alerts_before_init_step (s : Alerts.State) (e : Alerts.Event) :
  Alerts.alertContainer s = None -> Alerts.activeAlerts s = [] ->
  Alerts.alertQueue s = [] -> Alerts.timers s = [] ->
  Alerts.alertContainer (Alerts.step s e) = None /\
  Alerts.activeAlerts (Alerts.step s e) = [] /\
  Alerts.alertQueue (Alerts.step s e) = [] /\
  Alerts.timers (Alerts.step s e) = [] /\
  (forall d, e = Alerts.Create d ->
     exists msg, Alerts.console (Alerts.step s e) = Alerts.console s ++ [msg]).
Proof.
  intros Hc Ha Hq Ht. destruct e as [d| |ms|k]; simpl.
  - destruct (createAlert_cases d s) as [(msg & ->)|(el & ->)].
    + simpl. repeat split; try assumption. intros; now exists msg.
    + cbv zeta. rewrite Ha. simpl.
      unfold Alerts.displayAlert. simpl. rewrite Hc. simpl.
      repeat split; try assumption. intros; eexists; reflexivity.
  - unfold Alerts.clearAlerts. rewrite Ha. simpl.
    repeat split; try assumption. intros; discriminate.
  - repeat split; try assumption. intros; discriminate.
  - unfold Alerts.fire. rewrite Ht. destruct k; simpl;
      repeat split; try assumption; intros; discriminate.
Qed.

Lemma alerts_before_init_run (events : list Alerts.Event) (s : Alerts.State) :
  Alerts.alertContainer s = None -> Alerts.activeAlerts s = [] ->
  Alerts.alertQueue s = [] -> Alerts.timers s = [] ->
  let s' := Alerts.run events s in
  Alerts.alertContainer s' = None /\ Alerts.activeAlerts s' = [] /\
  Alerts.alertQueue s' = [] /\ Alerts.timers s' = [].
Proof.
  revert s. induction events as [|e events IH]; intros s Hc Ha Hq Ht; simpl; [auto|].
  destruct (alerts_before_init_step s e Hc Ha Hq Ht) as (Hc' & Ha' & Hq' & Ht' & _).
  now apply IH.
Qed.

End ClearAndInit.

(** C5 as stated fails.  [initAlerts] does not give up when the page has
    no [#alerts-container]: it logs an error, creates the container, and the
    next [createAlert] displays its alert.  And the ticker without a track
    still takes the item into its list while the render logs the error. *)
Lemma missing_surface_is_not_always_a_no_op :
  let s := Alerts.ready None in
  let s' := Alerts.createAlert (Alerts.alert_of "follow" "SpeedRacer88") s in
  let t := Ticker.ready None in
  let d := Ticker.item_of "follow" "SpeedRacer88" "followed" "" in
  Alerts.console s = ["Alert container not found. Creating one..."%string] /\
  Alerts.activeAlerts s = [] /\
  Alerts.activeAlerts s' = [0] /\
  option_map Alerts.shown (Alerts.alertContainer s') = Some [0] /\
  Alerts.activeAlerts s' <> Alerts.activeAlerts s /\
  Ticker.tickerTrack t = None /\
  Ticker.tickerItems t = [] /\
  Ticker.tickerItems (Ticker.addTickerItem d t) = [d] /\
  Ticker.console (Ticker.addTickerItem d t)
    = ["Ticker track not found"%string; "Ticker track not found"%string].
Proof. cbv zeta. repeat split; try reflexivity. discriminate. Qed.

(** C5, amended.  Without [.chat-messages], [initChat] logs an error and
    from then on every [addChatLine] logs an error and returns, and no call
    changes the list of messages, the message elements or the (missing)
    container.  Without [.ticker-track], [initTicker] logs an error, every
    later call leaves the track missing, and [addTickerItem] and
    [clearTicker] log one error each from their render.  Before
    [initAlerts] has run, [createAlert] logs an error and the alert widget
    keeps no active alert, no queued alert and no timer.  [initAlerts]
    itself, when the page has no [#alerts-container], logs an error and
    creates the container, which is there in every state reached
    afterwards.  No call throws and none schedules a retry. *)
Theorem missing_surface_behaviour :
  (forall (l : Chat.Layout) (events : list Chat.Event) (e : Chat.Event)
          (now : Date) (d : Chat.MessageData),
     let s := Chat.run events (Chat.ready l None) in
     Chat.console (Chat.ready l None) = ["Chat messages container not found"%string] /\
     Chat.addChatLine now d s = Some (Chat.console_error "Chat container not found" s) /\
     Chat.chatContainer (Chat.step s e) = None /\
     Chat.chatMessages (Chat.step s e) = [] /\
     Chat.store (Chat.step s e) = Chat.store (Chat.ready l None)) /\
  (forall (events : list Ticker.Event) (e : Ticker.Event) (d : Ticker.ItemData),
     let s := Ticker.run events (Ticker.ready None) in
     Ticker.console (Ticker.ready None) = ["Ticker track not found"%string] /\
     Ticker.tickerTrack (Ticker.step s e) = None /\
     Ticker.console (Ticker.addTickerItem d s)
       = Ticker.console s ++ ["Ticker track not found"%string] /\
     Ticker.console (Ticker.clearTicker s)
       = Ticker.console s ++ ["Ticker track not found"%string]) /\
  (forall (events : list Alerts.Event) (d : Alerts.AlertData),
     let s := Alerts.run events Alerts.initial in
     let s' := Alerts.createAlert d s in
     (exists msg, Alerts.console s' = Alerts.console s ++ [msg]) /\
     Alerts.alertContainer s' = None /\ Alerts.activeAlerts s' = [] /\
     Alerts.alertQueue s' = [] /\ Alerts.timers s' = []) /\
  (forall (events : list Alerts.Event),
     Alerts.console (Alerts.ready None)
       = ["Alert container not found. Creating one..."%string] /\
     Alerts.alertContainer (Alerts.ready None)
       = Some (Alerts.mkContainer
                 (createElement "div" (opts_attrs [] [("id", "alerts-container")%string])) []) /\
     Alerts.alertContainer (Alerts.run events (Alerts.ready None)) <> None).
Proof.
  split; [|split; [|split]].
  - intros l events e now d s.
    destruct (no_container_run events (Chat.ready l None) eq_refl eq_refl)
      as (Hc & Hm & Hs). fold s in Hc, Hm, Hs.
    destruct (no_container_step s e Hc Hm) as (Hc' & Hm' & Hs').
    split; [reflexivity|]. split; [now apply addChatLine_no_container|].
    split; [exact Hc'|]. split; [exact Hm'|]. now rewrite Hs', Hs.
  - intros events e d s.
    assert (Hs : Ticker.tickerTrack s = None) by (apply no_track_run; reflexivity).
    split; [reflexivity|].
    split; [apply (no_track_step s e Hs)|].
    split.
    + destruct (no_track_step s (Ticker.Add d) Hs) as (_ & H & _). now apply (H d).
    + destruct (no_track_step s Ticker.Clear Hs) as (_ & _ & H). now apply H.
  - intros events d s s'.
    destruct (alerts_before_init_run events Alerts.initial eq_refl eq_refl eq_refl eq_refl)
      as (Hc & Ha & Hq & Ht). fold s in Hc, Ha, Hq, Ht.
    destruct (alerts_before_init_step s (Alerts.Create d) Hc Ha Hq Ht)
      as (Hc' & Ha' & Hq' & Ht' & Hlog).
    split; [now apply (Hlog d)|]. repeat split; assumption.
  - intros events. split; [reflexivity|]. split; [reflexivity|].
    destruct (Inv_reachable None events) as [(c & Hc & _) _ _ _].
    rewrite Hc. discriminate.
Qed.

Section UnknownTypes.

(** A type that [ALERT_CONFIG.types] neither has nor inherits is rejected:
    one error is logged and nothing else changes. *)
Lemma createAlert_rejects_unknown (d : Alerts.AlertData) (s : Alerts.State) :
  lookup Alerts.types (default "follow" (Alerts.type d)) = Undefined ->
  Alerts.createAlert d s =
  Alerts.console_error
    ("Invalid alert type: " ++ default "follow" (Alerts.type d))%string s.
Proof. intros H. unfold Alerts.createAlert. now rewrite H. Qed.

(** A type that [TICKER_CONFIG.icons] neither has nor inherits is accepted
    and rendered with the fallback icon. *)
Lemma ticker_accepts_unknown (d : Ticker.ItemData) (s : Ticker.State)
    (sf : Ticker.Surface) :
  lookup Ticker.icons (default "follow" (Ticker.type d)) = Undefined ->
  Ticker.tickerTrack s = Some sf ->
  Ticker.icon_text (default "follow" (Ticker.type d)) = "●"%string /\
  hd_error (Ticker.tickerItems (Ticker.addTickerItem d s)) = Some d /\
  exists rest,
    Ticker.rendered (Ticker.addTickerItem d s)
    = Some (Elem (Ticker.createTickerItem d) :: rest).
Proof.
  intros Hty Hs. split; [now apply icon_text_unknown|].
  destruct (rendered_after_mutation s sf Hs) as [Hadd _]. rewrite Hadd.
  destruct (addTickerItem_eq d s) as (items & Hi & _ & ->).
  rewrite renderTicker_tickerItems. cbn [Ticker.tickerItems Ticker.set_tickerItems].
  assert (Hitems : exists tl, items = d :: tl).
  { rewrite Hi. destruct (_ <? _)%nat; eexists; reflexivity. }
  destruct Hitems as (tl & ->). split; [reflexivity|].
  eexists. reflexivity.
Qed.

End UnknownTypes.

(** C6.  The type "constructor" is no member of [ALERT_CONFIG.types], yet
    [createAlert] does not reject it: the lookup finds the method that every
    object inherits, no error is logged, and an alert without icon and header
    is displayed.  In the ticker the same lookup yields that method instead
    of the fallback icon.  A type such as "raid", which the alert registry
    neither has nor inherits, is rejected with one error and no alert, and a
    type such as "poll" gets the fallback icon in the ticker. *)
Theorem inherited_type_is_not_rejected :
  let s := Alerts.ready (Some (createElement "div" (opts_attrs [] [("id", "alerts-container")%string]))) in
  let s' := Alerts.createAlert (Alerts.alert_of "constructor" "SpeedRacer88") s in
  let r := Alerts.createAlert (Alerts.alert_of "raid" "SpeedRacer88") s in
  own_lookup Alerts.types "constructor" = None /\
  Alerts.console s' = [] /\
  Alerts.activeAlerts s' = [0] /\
  option_map Alerts.shown (Alerts.alertContainer s') = Some [0] /\
  Alerts.console r = ["Invalid alert type: raid"%string] /\
  Alerts.activeAlerts r = [] /\
  own_lookup Ticker.icons "constructor" = None /\
  Ticker.icon_text "constructor" = "function Object() { [native code] }"%string /\
  Ticker.icon_text "poll" = "●"%string.
Proof. cbv zeta. repeat split. Qed.

(* ================================================================== *)
(** * Further properties of shared.js *)
(* ================================================================== *)

Section EscapeFacts.
Import Text.

Lemma all_chars_append (p : ascii -> bool) (a b : string) :
  all_chars p (a ++ b)%string = all_chars p a && all_chars p b.
Proof.
  induction a as [|c a IH]; simpl; [reflexivity|].
  now rewrite IH, andb_assoc.
Qed.

Lemma escapeHtml_no_angle_upto (n : nat) :
  forall s, String.length s <= n ->
            all_chars (fun c => negb (is_angle c)) (escapeHtml s) = true.
Proof.
  induction n as [|n IH]; intros s Hlen.
  - destruct s; [reflexivity | simpl in Hlen; lia].
  - destruct s as [|c rest]; [reflexivity|].
    simpl in Hlen. cbn [escapeHtml].
    destruct (Ascii.eqb c "&") eqn:Eamp.
    { rewrite all_chars_append, IH by lia. reflexivity. }
    destruct (Ascii.eqb c "<") eqn:Elt.
    { rewrite all_chars_append, IH by lia. reflexivity. }
    destruct (Ascii.eqb c ">") eqn:Egt.
    { rewrite all_chars_append, IH by lia. reflexivity. }
    assert (Hc : negb (is_angle c) = true)
      by (unfold is_angle; now rewrite Elt, Egt).
    destruct rest as [|c2 rest2].
    { simpl. now rewrite Hc. }
    destruct ((nat_of_ascii c =? 194) && (nat_of_ascii c2 =? 160))%nat.
    + rewrite all_chars_append, IH by (simpl in Hlen; lia). reflexivity.
    + cbn [all_chars]. rewrite Hc, IH by lia. reflexivity.
Qed.

Lemma has_nbsp_cons (c c2 : ascii) (rest : string) :
  has_nbsp (String c (String c2 rest))
  = ((nat_of_ascii c =? 194) && (nat_of_ascii c2 =? 160))%nat
    || has_nbsp (String c2 rest).
Proof. reflexivity. Qed.

Lemma needs_escape_cons (c : ascii) (rest : string) :
  needs_escape (String c rest) = false ->
  is_markup c = false /\ needs_escape rest = false /\
  match rest with
  | String c2 _ => ((nat_of_ascii c =? 194) && (nat_of_ascii c2 =? 160))%nat = false
  | EmptyString => True
  end.
Proof.
  unfold needs_escape. cbn [all_chars]. intros H.
  apply orb_false_iff in H. destruct H as [Ha Hn].
  apply negb_false_iff, andb_true_iff in Ha. destruct Ha as [Hc Hrest].
  apply negb_true_iff in Hc. split; [exact Hc|].
  destruct rest as [|c2 rest2].
  - split; [reflexivity | exact I].
  - rewrite has_nbsp_cons in Hn. apply orb_false_iff in Hn. destruct Hn as [Hp Hn].
    rewrite Hrest, Hn. split; [reflexivity | exact Hp].
Qed.

Lemma escapeHtml_plain_upto (n : nat) :
  forall s, String.length s <= n -> needs_escape s = false -> escapeHtml s = s.
Proof.
  induction n as [|n IH]; intros s Hlen Hs.
  - destruct s; [reflexivity | simpl in Hlen; lia].
  - destruct s as [|c rest]; [reflexivity|].
    simpl in Hlen. destruct (needs_escape_cons c rest Hs) as (Hc & Hrest & Hpair).
    unfold is_markup in Hc. apply orb_false_iff in Hc. destruct Hc as [Hc Hgt].
    apply orb_false_iff in Hc. destruct Hc as [Hamp Hlt].
    cbn [escapeHtml]. rewrite Hamp, Hlt, Hgt.
    destruct rest as [|c2 rest2]; [reflexivity|].
    rewrite Hpair. f_equal. apply IH; [lia | exact Hrest].
Qed.

Lemma escapeHtml_longer_upto (n : nat) :
  forall s, String.length s <= n ->
            String.length s <= String.length (escapeHtml s) /\
            (needs_escape s = true -> String.length s < String.length (escapeHtml s)).
Proof.
  induction n as [|n IH]; intros s Hlen.
  - destruct s; [|simpl in Hlen; lia]. split; [reflexivity | discriminate].
  - destruct s as [|c rest]; [split; [reflexivity | discriminate]|].
    simpl in Hlen. destruct (IH rest ltac:(lia)) as [Hle Hlt].
    cbn [escapeHtml].
    destruct (Ascii.eqb c "&") eqn:Hamp; [cbn [append String.length]; split; intros; lia|].
    destruct (Ascii.eqb c "<") eqn:Hl; [cbn [append String.length]; split; intros; lia|].
    destruct (Ascii.eqb c ">") eqn:Hg; [cbn [append String.length]; split; intros; lia|].
    destruct rest as [|c2 rest2].
    + split; [reflexivity|]. unfold needs_escape, is_markup. cbn [all_chars has_nbsp].
      rewrite Hamp, Hl, Hg. discriminate.
    + destruct ((nat_of_ascii c =? 194) && (nat_of_ascii c2 =? 160))%nat eqn:Hpair.
      * destruct (IH rest2 ltac:(simpl in *; lia)) as [Hle2 _].
        cbn [append String.length] in *. split; intros; lia.
      * cbn [String.length] in *. split; [lia|]. intros Hneed.
        assert (Hrest : needs_escape (String c2 rest2) = true).
        { revert Hneed. unfold needs_escape. rewrite has_nbsp_cons, Hpair.
          cbn [all_chars orb]. unfold is_markup at 1. rewrite Hamp, Hl, Hg.
          cbn [orb negb andb]. tauto. }
        specialize (Hlt Hrest). cbn [String.length] in Hlt. lia.
Qed.

End EscapeFacts.

(** X1.  Whatever the text, [escapeHtml] returns markup without any "<" or
    ">": text that passes through it cannot open or close a tag. *)
Theorem escapeHtml_has_no_angle_bracket :
  forall s : string,
    Text.all_chars (fun c => negb (Text.is_angle c)) (escapeHtml s) = true.
Proof. intros s. apply (escapeHtml_no_angle_upto (String.length s)). lia. Qed.



Section NumberFacts.
Import Text.

Lemma digits_of_uint (d : Decimal.uint) :
  all_chars is_digit (NilEmpty.string_of_uint d) = true.
Proof. induction d; simpl; auto. Qed.

Lemma digits_are_digits (n : Z) : all_chars is_digit (digits n) = true.
Proof.
  unfold digits, NilZero.string_of_uint.
  destruct (N.to_uint (Z.to_N (Z.abs n))) eqn:E; try reflexivity;
    rewrite <- E; apply digits_of_uint.
Qed.

Lemma digits_not_empty (n : Z) : 0 < String.length (digits n).
Proof.
  unfold digits, NilZero.string_of_uint.
  destruct (N.to_uint (Z.to_N (Z.abs n))); simpl; lia.
Qed.

Lemma digit_not_comma (c : ascii) : is_digit c = true -> is_comma c = false.
Proof.
  unfold is_digit, is_comma. intros H.
  destruct (Ascii.eqb_spec c ",") as [->|]; [discriminate | reflexivity].
Qed.

Lemma thirds_aligned (n : nat) :
  0 < n -> n mod 3 = 0 -> (n - 1) mod 3 = 2 /\ S ((n - 1) / 3) = n / 3.
Proof.
  intros Hn Hm.
  pose proof (Nat.div_mod_eq n 3). pose proof (Nat.div_mod_eq (n - 1) 3).
  pose proof (Nat.mod_upper_bound (n - 1) 3). lia.
Qed.

Lemma thirds_inside (n : nat) :
  n mod 3 <> 0 -> S ((n - 1) mod 3) = n mod 3 /\ (n - 1) / 3 = n / 3.
Proof.
  intros Hm.
  pose proof (Nat.div_mod_eq n 3). pose proof (Nat.div_mod_eq (n - 1) 3).
  pose proof (Nat.mod_upper_bound (n - 1) 3). pose proof (Nat.mod_upper_bound n 3).
  lia.
Qed.

Lemma group_thousands_spec (ds : string) :
  all_chars is_digit ds = true ->
  drop_chars is_comma (group_thousands ds) = ds /\
  count_chars is_comma (group_thousands ds) = (String.length ds - 1) / 3 /\
  (0 < String.length ds ->
   group_lengths (group_thousands ds)
   = S ((String.length ds - 1) mod 3) :: repeat 3 ((String.length ds - 1) / 3)).
Proof.
  induction ds as [|d rest IH]; intros Hd.
  - repeat split. simpl. lia.
  - cbn [all_chars] in Hd. apply andb_true_iff in Hd. destruct Hd as [Hd Hrest].
    destruct (IH Hrest) as (Hdrop & Hcount & Hgroups).
    pose proof (digit_not_comma d Hd) as Hdc.
    cbn [group_thousands String.length]. rewrite Nat.sub_succ, Nat.sub_0_r.
    set (n := String.length rest) in *.
    destruct ((0 <? n) && (n mod 3 =? 0))%nat eqn:Ecomma.
    + apply andb_true_iff in Ecomma. destruct Ecomma as [Hpos Hmod].
      apply Nat.ltb_lt in Hpos. apply Nat.eqb_eq in Hmod.
      destruct (thirds_aligned n Hpos Hmod) as [Hr Hq].
      cbn [drop_chars count_chars group_lengths append]. rewrite Hdc.
      change (is_comma ",") with true. cbn iota.
      rewrite Hdrop, Hcount, (Hgroups Hpos), Hr, Hmod, <- Hq.
      repeat split.
    + assert (Hn : n = 0 \/ n mod 3 <> 0).
      { apply andb_false_iff in Ecomma. destruct Ecomma as [H|H].
        - apply Nat.ltb_ge in H. left. lia.
        - apply Nat.eqb_neq in H. now right. }
      cbn [drop_chars count_chars group_lengths]. rewrite Hdc, Hdrop, Hcount.
      destruct Hn as [Hz|Hm].
      * rewrite Hz. destruct rest; [|simpl in n; unfold n in Hz; discriminate].
        repeat split.
      * destruct (thirds_inside n Hm) as [Hr Hq].
        assert (Hpos : 0 < n) by (destruct n; [simpl in Hm; congruence | lia]).
        rewrite (Hgroups Hpos), Hq, <- Hr. repeat split.
Qed.

End NumberFacts.

(** X3.  On an integer that a number holds exactly (at most 2^53 - 1 in
    absolute value) [formatNumber] only inserts commas: without them its
    result is the sign and the decimal digits of the number.  The commas cut
    the digits into groups of three counted from the right: the first group
    has one to three digits, every other group has three, and there is one
    comma less than groups. *)
Theorem formatNumber_groups_of_three :
  forall n : Z,
    (Z.abs n <= 9007199254740991)%Z ->
    let len := String.length (digits n) in
    Text.drop_chars Text.is_comma (formatNumber n)
      = ((if (n <? 0)%Z then "-" else "") ++ digits n)%string /\
    Text.count_chars Text.is_comma (formatNumber n) = (len - 1) / 3 /\
    Text.group_lengths (group_thousands (digits n))
      = S ((len - 1) mod 3) :: repeat 3 ((len - 1) / 3).
Proof.
  intros n _ len.
  destruct (group_thousands_spec (digits n) (digits_are_digits n))
    as (Hdrop & Hcount & Hgroups).
  unfold formatNumber.
  destruct (n <? 0)%Z; cbn [append Text.drop_chars Text.count_chars];
    change (Text.is_comma "-") with false; cbn iota;
    rewrite Hdrop, Hcount; (split; [reflexivity|]);
    (split; [reflexivity|]); apply Hgroups, digits_not_empty.
Qed.

Lemma formatNumber_groups_of_three_witness :
  (Z.abs (-1234567) <= 9007199254740991)%Z /\
  formatNumber (-1234567) = "-1,234,567"%string /\
  Text.drop_chars Text.is_comma (formatNumber (-1234567)) = "-1234567"%string /\
  Text.count_chars Text.is_comma (formatNumber (-1234567)) = 2 /\
  Text.group_lengths (group_thousands (digits (-1234567))) = [1; 3; 3].
Proof.
  assert (H : (Z.abs (-1234567) <= 9007199254740991)%Z) by (vm_compute; discriminate).
  split; [exact H|]. split; [reflexivity|].
  pose proof (formatNumber_groups_of_three (-1234567) H) as Hthm.
  vm_compute in Hthm. exact Hthm.
Defined.

Section ElementFacts.

Lemma mem_In (c : string) (l : list string) : mem c l = true <-> In c l.
Proof.
  unfold mem. rewrite existsb_exists. split.
  - intros (x & Hin & Heq). apply String.eqb_eq in Heq. now subst.
  - intros Hin. exists c. split; [assumption | apply String.eqb_refl].
Qed.

Lemma classList_add_In (c : string) (tokens cl : list string) :
  In c (classList_add cl tokens) <-> In c cl \/ In c tokens.
Proof.
  revert cl. induction tokens as [|t rest IH]; intros cl; simpl; [tauto|].
  rewrite IH. destruct (mem t cl) eqn:E.
  - apply mem_In in E. split; [tauto|].
    intros [H|[<-|H]]; auto.
  - rewrite in_app_iff. simpl. tauto.
Qed.

Lemma classList_add_NoDup (tokens cl : list string) :
  NoDup cl -> NoDup (classList_add cl tokens).
Proof.
  revert cl. induction tokens as [|t rest IH]; intros cl Hnd; simpl; [assumption|].
  apply IH. destruct (mem t cl) eqn:E; [assumption|].
  apply NoDup_app. repeat split.
  - assumption.
  - repeat constructor. intros [].
  - intros x Hx [<-|[]]. apply mem_In in Hx. congruence.
Qed.

Lemma own_lookup_setAttribute_any (st : list (string * string)) (k v k' : string) :
  own_lookup (setAttribute st k v) k'
  = if (k =? k')%string then Some v else own_lookup st k'.
Proof.
  induction st as [|[k0 v0] st IH]; simpl.
  - reflexivity.
  - destruct (String.eqb_spec k0 k) as [->|Hne]; simpl.
    + destruct (k =? k')%string; reflexivity.
    + rewrite IH. destruct (String.eqb_spec k0 k') as [->|Hne'].
      * destruct (String.eqb_spec k k'); [congruence | reflexivity].
      * reflexivity.
Qed.

End ElementFacts.

Lemma classList_set_attributes (attrs : list (string * string)) (e : Element) :
  forallb Text.other_attribute attrs = true ->
  classList (fold_left (fun e kv => set_attribute (fst kv) (snd kv) e) attrs e)
  = classList e.
Proof.
  revert e. induction attrs as [|[k v] attrs IH]; intros e H; [reflexivity|].
  cbn [forallb] in H. apply andb_true_iff in H. destruct H as [Hk H].
  cbn [fold_left fst snd]. rewrite (IH _ H).
  unfold Text.other_attribute in Hk. cbn [fst] in Hk.
  apply andb_true_iff in Hk. destruct Hk as [_ Hk]. apply negb_true_iff in Hk.
  unfold set_attribute. cbv zeta. rewrite Hk.
  destruct (toLowerCase k =? "style")%string; reflexivity.
Qed.

(** X4.  The class list of an element made by [createElement] holds every
    class it was given and nothing else, each once, however often a class
    is repeated in the argument, as long as [options.attrs] names no
    [class] attribute.  (The classes are class tokens and the attribute
    names are names: on others the call throws.)  A [class] attribute in
    [options.attrs] is set after the classes and replaces them by its own
    tokens. *)
Theorem createElement_classes_are_a_set :
  forall (tag : string) (options : Options),
    forallb valid_token (classes options) = true ->
    forallb Text.other_attribute (attrs options) = true ->
    NoDup (classList (createElement tag options)) /\
    (forall c, In c (classList (createElement tag options)) <-> In c (classes options)) /\
    (forall value,
       classList (createElement tag
                    (mkOptions (classes options) (attrs options ++ [("class", value)])
                       (text options) (html options)))
       = class_tokens value).
Proof.
  intros tag options _ Hattrs. cbn [createElement classList]. cbv zeta.
  rewrite classList_set_attributes by exact Hattrs. cbn [classList].
  split; [|split].
  - apply classList_add_NoDup. constructor.
  - intros c. rewrite classList_add_In. simpl. tauto.
  - intros value. cbn [createElement classList classes attrs text html]. cbv zeta.
    rewrite fold_left_app. reflexivity.
Qed.

Lemma createElement_classes_are_a_set_witness :
  let options := opts_attrs ["badge"; "vip"; "badge"] [("data-type", "vip")] in
  forallb valid_token (classes options) = true /\
  forallb Text.other_attribute (attrs options) = true /\
  classList (createElement "span" options) = ["badge"; "vip"] /\
  classList (createElement "span"
               (opts_attrs ["badge"; "vip"; "badge"]
                  [("data-type", "vip"); ("class", "lap  leader lap")]))
    = ["lap"; "leader"] /\
  NoDup (classList (createElement "span" options)) /\
  (forall c, In c (classList (createElement "span" options)) <-> In c (classes options)).
Proof.
  intros options.
  split; [reflexivity|]. split; [reflexivity|]. split; [reflexivity|].
  split; [reflexivity|].
  destruct (createElement_classes_are_a_set "span" options eq_refl eq_refl) as (H1 & H2 & _).
  split; [exact H1 | exact H2].
Defined.

(* ================================================================== *)
(** * Further properties of ticker.js *)
(* ================================================================== *)

Section TickerMore.
Import Ticker TickerView.

Lemma firstn_app_firstn {A : Type} (n : nat) (a b : list A) :
  firstn n (a ++ firstn n b) = firstn n (a ++ b).
Proof.
  rewrite !firstn_app, firstn_firstn. do 2 f_equal. lia.
Qed.

Lemma tickerItems_on_track (f : Element -> Element) (s : State) :
  tickerItems (on_track f s) = tickerItems s.
Proof. unfold on_track. destruct (tickerTrack s); reflexivity. Qed.

Lemma tickerItems_addTickerItem (d : ItemData) (s : State) :
  tickerItems (addTickerItem d s) = firstn MAX_ITEMS (d :: tickerItems s).
Proof.
  destruct (addTickerItem_eq d s) as (items & Hitems & _ & ->).
  rewrite renderTicker_tickerItems. cbn [set_tickerItems tickerItems].
  rewrite Hitems.
  destruct (Nat.ltb_spec MAX_ITEMS (S (List.length (tickerItems s)))); [reflexivity|].
  symmetry. apply firstn_all2. simpl. lia.
Qed.

Lemma tickerItems_adds (ds : list ItemData) (s : State) :
  List.length (tickerItems s) <= MAX_ITEMS ->
  tickerItems (run (map Add ds) s) = firstn MAX_ITEMS (rev ds ++ tickerItems s).
Proof.
  revert s. induction ds as [|d ds IH]; intros s Hlen.
  - cbn [map run fold_left rev app]. symmetry. apply firstn_all2. exact Hlen.
  - cbn [map run fold_left]. change (fold_left step (map Add ds) ?x) with (run (map Add ds) x).
    rewrite IH by (apply items_step; exact Hlen).
    cbn [step]. rewrite tickerItems_addTickerItem, firstn_app_firstn.
    cbn [rev]. rewrite <- app_assoc. reflexivity.
Qed.

Lemma mem_filter_neq (c r : string) (l : list string) :
  mem c (filter (fun x => negb (x =? r)%string) l) = mem c l && negb (c =? r)%string.
Proof.
  unfold mem. induction l as [|x l IH]; [reflexivity|].
  cbn [filter existsb].
  destruct (String.eqb_spec x r) as [->|Hne]; cbn [negb existsb].
  - rewrite IH. destruct (String.eqb_spec c r); cbn [negb orb];
      [now rewrite !andb_false_r | reflexivity].
  - rewrite IH. destruct (String.eqb_spec c x) as [->|]; cbn [orb andb]; [|reflexivity].
    destruct (String.eqb_spec x r); [contradiction | reflexivity].
Qed.

Lemma mem_app (c : string) (l1 l2 : list string) :
  mem c (l1 ++ l2) = mem c l1 || mem c l2.
Proof. unfold mem. apply existsb_app. Qed.

Lemma mem_classList_add_one (c t : string) (l : list string) :
  mem c (classList_add l [t]) = mem c l || (c =? t)%string.
Proof.
  cbn [classList_add]. destruct (mem t l) eqn:E.
  - destruct (String.eqb_spec c t) as [->|]; [now rewrite E | now rewrite orb_false_r].
  - rewrite mem_app. unfold mem at 2. cbn [existsb]. now rewrite orb_false_r.
Qed.

Lemma ticker_track_found (sf : Surface) (events : list Event) :
  exists sf', tickerTrack (run events (ready (Some sf))) = Some sf'.
Proof.
  destruct (tickerTrack (run events (ready (Some sf)))) eqn:E; [eauto|].
  exfalso. revert E. apply track_run. discriminate.
Qed.

Lemma playState_step (s : State) (e : Event) (v : string) :
  is_resume e = false ->
  tickerTrack s <> None ->
  animationPlayState s = Some v ->
  (if match e with Pause => true | _ => false end
   then animationPlayState (step s e) = Some "paused"%string
   else animationPlayState (step s e) = Some v).
Proof.
  intros He Htrack Hv. unfold animationPlayState in *.
  destruct (tickerTrack s) as [sf|] eqn:Hsf; [clear Htrack | congruence].
  destruct e as [d| |speed| |]; try discriminate; cbn [step].
  - destruct (addTickerItem_eq d s) as (items & _ & Hne & ->).
    destruct (renderTicker_items items (set_tickerItems items s) sf Hsf Hne)
      as (b & a & ->).
    cbn [set_tickerTrack tickerTrack track set_style style set_childNodes].
    rewrite own_lookup_setAttribute_any. exact Hv.
  - change (clearTicker s) with (renderTicker [] (set_tickerItems [] s)).
    rewrite (renderTicker_empty (set_tickerItems [] s) sf Hsf).
    cbn [set_tickerTrack tickerTrack track set_childNodes style]. exact Hv.
  - unfold setTickerSpeed, on_track. rewrite Hsf.
    cbn [set_tickerTrack tickerTrack track].
    destruct (speed =? "slow")%string; [|destruct (speed =? "fast")%string];
      cbn [add_class remove_class style]; exact Hv.
  - unfold pauseTicker, on_track. rewrite Hsf.
    cbn [set_tickerTrack tickerTrack track set_style style].
    apply own_lookup_setAttribute_any.
Qed.

Lemma paused_run (later : list Event) (s : State) :
  forallb (fun e => negb (is_resume e)) later = true ->
  tickerTrack s <> None ->
  animationPlayState s = Some "paused"%string ->
  tickerTrack (run later s) <> None /\
  animationPlayState (run later s) = Some "paused"%string.
Proof.
  revert s. induction later as [|e later IH]; intros s Hno Htrack Hp; [now split|].
  cbn [forallb] in Hno. apply andb_true_iff in Hno. destruct Hno as [He Hno].
  apply negb_true_iff in He.
  cbn [run fold_left]. apply IH; [exact Hno | now apply track_step |].
  pose proof (playState_step s e _ He Htrack Hp) as H.
  destruct e; exact H.
Qed.

End TickerMore.

(** X5.  The ticker keeps the most recent events, newest first: after any
    run of the widget, adding the events [ds] one after the other leaves the
    Backing List with the new events in reverse order of their arrival
    before the old ones, cut to [MAX_ITEMS] entries. *)
Theorem ticker_keeps_newest_first :
  forall (found : option Ticker.Surface) (events : list Ticker.Event)
         (ds : list Ticker.ItemData),
    let s := Ticker.run events (Ticker.ready found) in
    Ticker.tickerItems (Ticker.run (map Ticker.Add ds) s)
    = firstn Ticker.MAX_ITEMS (rev ds ++ Ticker.tickerItems s).
Proof.
  intros found events ds s. apply tickerItems_adds, ticker_bound.
Qed.

(** X6.  After [setTickerSpeed] the track has the class [slow] exactly when
    the speed asked for is "slow" and the class [fast] exactly when it is
    "fast", whatever it had before: the two never stay together, and any
    other speed clears both.  Every other class, the style, the children
    and the Backing List are as they were. *)
Theorem ticker_speed_classes_exclusive :
  forall (sf : Ticker.Surface) (events : list Ticker.Event) (speed : string),
    let s := Ticker.run events (Ticker.ready (Some sf)) in
    exists old new,
      Ticker.tickerTrack s = Some old /\
      Ticker.tickerTrack (Ticker.setTickerSpeed speed s) = Some new /\
      (forall c,
         mem c (classList (Ticker.track new)) =
         if (c =? "slow")%string || (c =? "fast")%string
         then (c =? speed)%string
         else mem c (classList (Ticker.track old))) /\
      style (Ticker.track new) = style (Ticker.track old) /\
      childNodes (Ticker.track new) = childNodes (Ticker.track old) /\
      Ticker.tickerItems (Ticker.setTickerSpeed speed s) = Ticker.tickerItems s.
Proof.
  intros sf events speed s.
  destruct (ticker_track_found sf events) as (old & Hold). fold s in Hold.
  unfold Ticker.setTickerSpeed, Ticker.on_track. rewrite Hold.
  eexists old, _. split; [reflexivity|]. split; [reflexivity|].
  cbn [Ticker.set_tickerTrack Ticker.tickerTrack Ticker.track Ticker.tickerItems].
  split; [|destruct (speed =? "slow")%string; [|destruct (speed =? "fast")%string];
           repeat split].
  intros c.
  assert (Hbase : mem c (classList (remove_class "fast" (remove_class "slow" (Ticker.track old))))
                  = mem c (classList (Ticker.track old))
                    && negb ((c =? "slow")%string || (c =? "fast")%string)).
  { cbn [remove_class classList]. rewrite !mem_filter_neq, <- andb_assoc.
    f_equal. now rewrite negb_orb. }
  destruct (String.eqb_spec speed "slow") as [->|Hslow];
    [|destruct (String.eqb_spec speed "fast") as [->|Hfast]].
  - unfold add_class. cbn [classList]. rewrite mem_classList_add_one.
    cbn [remove_class classList] in Hbase |- *. rewrite Hbase.
    destruct (c =? "slow")%string, (c =? "fast")%string; cbn [orb negb];
      rewrite ?andb_false_r, ?andb_true_r, ?orb_false_r; reflexivity.
  - unfold add_class. cbn [classList]. rewrite mem_classList_add_one.
    cbn [remove_class classList] in Hbase |- *. rewrite Hbase.
    destruct (c =? "slow")%string, (c =? "fast")%string; cbn [orb negb];
      rewrite ?andb_false_r, ?andb_true_r, ?orb_false_r; reflexivity.
  - rewrite Hbase.
    destruct (c =? "slow")%string eqn:E1; [|destruct (c =? "fast")%string eqn:E2];
      cbn [orb negb]; rewrite ?andb_false_r, ?andb_true_r.
    + apply String.eqb_eq in E1. subst c. symmetry. apply String.eqb_neq. congruence.
    + apply String.eqb_eq in E2. subst c. symmetry. apply String.eqb_neq. congruence.
    + reflexivity.
Qed.

(** X7.  A paused ticker stays paused: once [pauseTicker] has run on a
    ticker with a track, additions, clears, speed changes and further
    pauses leave the play state "paused", until [resumeTicker] sets it to
    "running".  Pausing changes nothing of what is listed or rendered. *)
Theorem ticker_stays_paused_until_resumed :
  forall (sf : Ticker.Surface) (events later : list Ticker.Event),
    forallb (fun e => negb (TickerView.is_resume e)) later = true ->
    let s := Ticker.run events (Ticker.ready (Some sf)) in
    let paused := Ticker.run later (Ticker.pauseTicker s) in
    TickerView.animationPlayState paused = Some "paused"%string /\
    TickerView.animationPlayState (Ticker.resumeTicker paused) = Some "running"%string /\
    Ticker.tickerItems (Ticker.pauseTicker s) = Ticker.tickerItems s /\
    Ticker.rendered (Ticker.pauseTicker s) = Ticker.rendered s /\
    Ticker.animationDuration (Ticker.pauseTicker s) = Ticker.animationDuration s.
Proof.
  intros sf events later Hlater s paused.
  destruct (ticker_track_found sf events) as (t & Ht). fold s in Ht.
  assert (Hp : Ticker.tickerTrack (Ticker.pauseTicker s) <> None /\
               TickerView.animationPlayState (Ticker.pauseTicker s) = Some "paused"%string).
  { unfold TickerView.animationPlayState, Ticker.pauseTicker, Ticker.on_track.
    rewrite Ht. cbn [Ticker.set_tickerTrack Ticker.tickerTrack Ticker.track set_style style].
    split; [discriminate | apply own_lookup_setAttribute_any]. }
  destruct Hp as [Hp1 Hp2].
  destruct (paused_run later _ Hlater Hp1 Hp2) as [Hq1 Hq2]. fold paused in Hq1, Hq2.
  split; [exact Hq2|]. split.
  - unfold TickerView.animationPlayState, Ticker.resumeTicker, Ticker.on_track.
    destruct (Ticker.tickerTrack paused) as [p|]; [|congruence].
    cbn [Ticker.set_tickerTrack Ticker.tickerTrack Ticker.track set_style style].
    apply own_lookup_setAttribute_any.
  - unfold Ticker.rendered, Ticker.animationDuration, Ticker.pauseTicker, Ticker.on_track.
    rewrite Ht.
    cbn [Ticker.set_tickerTrack Ticker.tickerTrack Ticker.tickerItems Ticker.track
         set_style style childNodes option_map].
    rewrite own_lookup_setAttribute_any. repeat split.
Qed.

Lemma ticker_stays_paused_until_resumed_witness :
  let later := [Ticker.Add (Ticker.item_of "raid" "FastLane99" "raided with" "100 viewers");
                Ticker.Speed "fast"; Ticker.Clear; Ticker.Pause] in
  let s := Ticker.run [Ticker.Add (Ticker.item_of "follow" "SpeedRacer88" "followed" "")]
             (Ticker.ready (Some Ticker.bare)) in
  forallb (fun e => negb (TickerView.is_resume e)) later = true /\
  TickerView.animationPlayState (Ticker.run later (Ticker.pauseTicker s))
    = Some "paused"%string /\
  TickerView.animationPlayState
    (Ticker.resumeTicker (Ticker.run later (Ticker.pauseTicker s))) = Some "running"%string.
Proof.
  intros later s.
  split; [reflexivity|].
  pose proof (ticker_stays_paused_until_resumed Ticker.bare
                [Ticker.Add (Ticker.item_of "follow" "SpeedRacer88" "followed" "")]
                later eq_refl) as H.
  cbv zeta in H. destruct H as (H1 & H2 & _).
  split; [exact H1 | exact H2].
Defined.

(* ================================================================== *)
(** * Further properties of chat.js *)
(* ================================================================== *)

Section ChatMore.
Import Chat ChatView Text.

Lemma filter_differs_seq_high (m a n : nat) :
  a + n <= m -> filter (differs m) (seq a n) = seq a n.
Proof.
  intros H. apply filter_differs_notin. rewrite in_seq. lia.
Qed.

Lemma filter_differs_seq_head (a n : nat) :
  filter (differs a) (seq a (S n)) = seq (S a) n.
Proof.
  cbn [seq filter]. unfold differs at 1. rewrite Nat.eqb_refl. cbn [negb].
  apply filter_differs_notin. rewrite in_seq. lia.
Qed.

Lemma Window_scrollToBottom (s : State) : Window s -> Window (scrollToBottom s).
Proof.
  intros [H1 H2 H3]. unfold scrollToBottom.
  destruct (chatContainer s) as [c|] eqn:Hc; [|now split; rewrite ?Hc].
  split; cbn [set_chatContainer chatMessages store chatContainer set_scrollTop shown];
    assumption.
Qed.

Lemma Window_reflow (s : State) : Window s -> Window (reflow s).
Proof.
  intros [H1 H2 H3]. unfold reflow.
  destruct (chatContainer s) as [c|] eqn:Hc; [|now split; rewrite ?Hc].
  split; cbn [set_chatContainer chatMessages store chatContainer set_scrollTop shown];
    assumption.
Qed.

Lemma Window_addChatLine (now : Date) (d : MessageData) (s s' : State) :
  Window s -> addChatLine now d s = Some s' -> Window s'.
Proof.
  intros [H1 H2 H3] Hadd.
  destruct (chatContainer s) as [c|] eqn:Hc.
  - destruct (forallb valid_token (default [] (badges d))) eqn:Hv.
    + rewrite (addChatLine_eq now d s c Hc Hv) in Hadd. injection Hadd as <-.
      cbv zeta.
      set (m := List.length (store s)) in *.
      set (n := List.length (chatMessages s)) in *.
      assert (Hmsgs : chatMessages s ++ [m] = seq (m - n) (S n)).
      { rewrite seq_S, <- H2. do 2 f_equal. lia. }
      assert (Hsh : filter (differs m) (shown c) ++ [m] = seq (m - n) (S n)).
      { rewrite H3, <- Hmsgs. f_equal. rewrite H2.
        apply filter_differs_seq_high. lia. }
      rewrite Hmsgs, Hsh, length_seq.
      assert (Hs1 : forall auto lay con el,
                 Window (mkState (store s ++ [element_of now d])
                           (if (MAX_MESSAGES <? S n)%nat
                            then tl (seq (m - n) (S n)) else seq (m - n) (S n))
                           (Some (mkContainer el
                                    (if (MAX_MESSAGES <? S n)%nat
                                     then filter (differs (hd 0 (seq (m - n) (S n))))
                                            (seq (m - n) (S n))
                                     else seq (m - n) (S n))
                                    (scrollTop c)))
                           auto lay con)).
      { intros auto lay con el.
        destruct (MAX_MESSAGES <? S n)%nat.
        - change (hd 0 (seq (m - n) (S n))) with (m - n).
          rewrite filter_differs_seq_head. change (tl (seq (m - n) (S n))) with (seq (S (m - n)) n).
          split; cbn [store chatMessages chatContainer shown];
            rewrite ?length_app, ?length_seq; cbn [List.length]; fold m.
          + lia.
          + f_equal. lia.
          + reflexivity.
        - split; cbn [store chatMessages chatContainer shown];
            rewrite ?length_app, ?length_seq; cbn [List.length]; fold m.
          + lia.
          + f_equal. lia.
          + reflexivity. }
      destruct (isAutoScrollEnabled s);
        [apply Window_scrollToBottom | apply Window_reflow]; apply Hs1.
    + rewrite (addChatLine_throws now d s c Hc Hv) in Hadd. discriminate.
  - rewrite (addChatLine_no_container now d s Hc) in Hadd. injection Hadd as <-.
    split; cbn [console_error store chatMessages chatContainer]; rewrite ?Hc; assumption.
Qed.

Lemma Window_step (s : State) (e : Event) : Window s -> Window (step s e).
Proof.
  intros HW. destruct e as [now d| |b]; cbn [step].
  - destruct (addChatLine now d s) as [s'|] eqn:E; [|exact HW].
    eapply Window_addChatLine; eassumption.
  - destruct HW as [H1 H2 H3]. unfold clearChat. apply Window_reflow.
    destruct (chatContainer s) as [c|] eqn:Hc;
      split; cbn [set_chatMessages set_chatContainer store chatMessages chatContainer
                  shown List.length seq]; rewrite ?Hc; try reflexivity; lia.
  - destruct HW as [H1 H2 H3]. split; cbn [setAutoScroll store chatMessages chatContainer];
      assumption.
Qed.

Lemma Window_run (events : list Event) (s : State) : Window s -> Window (run events s).
Proof.
  revert s. induction events as [|e events IH]; intros s HW; [exact HW|].
  cbn [run fold_left]. apply IH, Window_step, HW.
Qed.

Lemma Window_ready (l : Layout) (found : option (Element * nat)) : Window (ready l found).
Proof.
  destruct found as [[el top]|]; [apply Window_reflow|];
    split; reflexivity || (cbn; lia).
Qed.

Lemma all_chars_group_thousands (p : ascii -> bool) (ds : string) :
  p ","%char = true -> all_chars p ds = true -> all_chars p (group_thousands ds) = true.
Proof.
  intros Hc. induction ds as [|d rest IH]; intros H; [reflexivity|].
  cbn [all_chars] in H. apply andb_true_iff in H. destruct H as [Hd Hrest].
  cbn [group_thousands].
  destruct ((0 <? String.length rest) && (String.length rest mod 3 =? 0))%nat;
    cbn [all_chars append]; rewrite Hd, ?Hc, (IH Hrest); reflexivity.
Qed.

Lemma all_chars_weaken (p q : ascii -> bool) (s : string) :
  (forall c, p c = true -> q c = true) ->
  all_chars p s = true -> all_chars q s = true.
Proof.
  intros Hpq. induction s as [|c s IH]; [reflexivity|].
  cbn [all_chars]. rewrite !andb_true_iff. intros [H1 H2]. auto.
Qed.

Lemma digit_not_angle (c : ascii) : is_digit c = true -> negb (is_angle c) = true.
Proof.
  unfold is_digit, is_angle. intros H.
  destruct (Ascii.eqb_spec c "<") as [->|]; [discriminate|].
  destruct (Ascii.eqb_spec c ">") as [->|]; [discriminate | reflexivity].
Qed.

Lemma formatNumber_no_angle (n : Z) :
  all_chars (fun c => negb (is_angle c)) (formatNumber n) = true.
Proof.
  unfold formatNumber. rewrite all_chars_append.
  apply andb_true_iff. split; [destruct (n <? 0)%Z; reflexivity|].
  apply all_chars_group_thousands; [reflexivity|].
  apply (all_chars_weaken is_digit); [apply digit_not_angle | apply digits_are_digits].
Qed.

End ChatMore.

(** X8.  In every state of the chat the Backing List is a sliding window on
    the message elements in the order of their creation: it holds the most
    recently created ones, oldest first and with no gap, at most
    [MAX_MESSAGES] of them, so that a message that makes the list too long
    evicts the oldest one.  The container shows exactly the elements of the
    list, in the same order. *)
Theorem chat_list_is_latest_window :
  forall (l : Chat.Layout) (found : option (Element * nat)) (events : list Chat.Event),
    let s := Chat.run events (Chat.ready l found) in
    let n := List.length (Chat.chatMessages s) in
    n <= Chat.MAX_MESSAGES /\
    n <= List.length (Chat.store s) /\
    Chat.chatMessages s = seq (List.length (Chat.store s) - n) n /\
    match Chat.chatContainer s with
    | Some c => Chat.shown c = Chat.chatMessages s
    | None => Chat.chatMessages s = []
    end.
Proof.
  intros l found events s n.
  destruct (Window_run events _ (Window_ready l found)) as [H1 H2 H3].
  split; [apply chat_bound|]. repeat split; assumption.
Qed.

(** X9.  Whatever a chat record holds, the markup [addChatLine] assigns to
    the [innerHTML] of the message content has no "<" and no ">" in it: the
    message text is escaped and the cheer prefix is made of words, digits
    and commas, so the text of a viewer cannot open a tag. *)
Theorem chat_content_has_no_angle_bracket :
  forall (now : Date) (d : Chat.MessageData),
    exists markup,
      Chat.messageContent (Chat.element_of now d) = Some markup /\
      Text.all_chars (fun c => negb (Text.is_angle c)) markup = true.
Proof.
  intros now d. rewrite messageContent_eq. eexists. split; [reflexivity|].
  cbv zeta.
  pose proof (escapeHtml_no_angle_upto _ (default "" (Chat.message d)) (le_n _)) as He.
  destruct (default false (Chat.cheer d) && (0 <? default 0%Z (Chat.bits d))%Z);
    [|exact He].
  rewrite !all_chars_append, formatNumber_no_angle, He. reflexivity.
Qed.

(** X10.  [addSystemMessage] never throws.  With a container it appends, as
    the last child, a message element with the classes [chat-message] and
    [system] and no badges, whose content is the escaped text; without a
    container it logs the error of [addChatLine] and changes nothing
    else. *)
Theorem chat_system_message_is_appended :
  forall (l : Chat.Layout) (found : option (Element * nat)) (events : list Chat.Event)
         (now : Date) (message : string),
    let s := Chat.run events (Chat.ready l found) in
    let e := Chat.element_of now (ChatView.systemData message) in
    exists s',
      Chat.addSystemMessage now message s = Some s' /\
      classList e = ["chat-message"; "system"] /\
      Chat.messageContent e = Some (escapeHtml message) /\
      match found with
      | Some _ => Chat.lastChild s' = Some (Elem e)
      | None => s' = Chat.console_error "Chat container not found" s
      end.
Proof.
  intros l found events now message s e.
  change (Chat.addSystemMessage now message s)
    with (Chat.addChatLine now (ChatView.systemData message) s).
  destruct found as [[el top]|].
  - destruct (addChatLine_appends l el top events now (ChatView.systemData message) eq_refl)
      as (c & msgs & sh & Hc & Hadd).
    fold s in Hc, Hadd. cbv zeta in Hadd. rewrite Hadd. eexists. split; [reflexivity|].
    split; [reflexivity|]. split; [apply messageContent_eq|].
    pose proof (lastChild_appended (Chat.store s) e msgs sh c
                  (Chat.isAutoScrollEnabled s) (Chat.layout s) (Chat.console s)) as [Ha Hb].
    destruct (Chat.isAutoScrollEnabled s); [exact Hb | exact Ha].
  - destruct (no_container_run events (Chat.ready l None) eq_refl eq_refl) as (Hc & _).
    fold s in Hc. rewrite (addChatLine_no_container _ _ _ Hc).
    eexists. split; [reflexivity|]. split; [reflexivity|].
    split; [apply messageContent_eq | reflexivity].
Qed.

(* ================================================================== *)
(** * Further properties of alerts.js *)
(* ================================================================== *)

Section AlertsMore.
Import Alerts AlertsView.

Lemma Covered_displayAlert (a : nat) (s : State) :
  Covered s -> Covered (displayAlert a s).
Proof.
  intros [Ha Hd]. unfold displayAlert.
  destruct (alertContainer s) as [c|]; [|split; assumption].
  split; unfold pending in *;
    cbn [setTimeout set_timers set_alertContainer set_activeAlerts
         timers activeAlerts clock].
  - rewrite map_app, Forall_app. split.
    + eapply Forall_impl; [|exact Ha]. cbn beta. intros b Hb.
      apply in_or_app. now left.
    + constructor; [|constructor]. apply in_or_app. right. now left.
  - rewrite Forall_app. split; [assumption|].
    constructor; [|constructor]. cbn [due]. lia.
Qed.

Lemma Covered_createAlert (d : AlertData) (s : State) :
  Covered s -> Covered (createAlert d s).
Proof.
  intros HC.
  destruct (createAlert_cases d s) as [(msg & ->) | (el & ->)].
  - destruct HC; split; assumption.
  - cbv zeta.
    destruct (List.length (activeAlerts s) <? MAX_ALERTS)%nat.
    + apply Covered_displayAlert. destruct HC; split; assumption.
    + destruct HC; split; assumption.
Qed.

Lemma Covered_fire (k : nat) (s : State) : Inv s -> Covered s -> Covered (fire k s).
Proof.
  intros HI HC. pose proof HC as [Ha Hd]. unfold fire.
  destruct (nth_error (timers s) k) as [t|] eqn:Hk; [|exact HC].
  destruct (due t <=? clock s)%nat; [|exact HC].
  destruct (nth_error_remove_nth k (timers s) t Hk) as (l1 & l2 & Hl & Hr).
  rewrite Hr. unfold pending in Ha. rewrite Hl in Ha, Hd.
  assert (Hd' : Forall (fun t => due t <= clock s + ALERT_LIFETIME) (l1 ++ l2)).
  { rewrite Forall_app in *. destruct Hd as [H1 H2]. inversion H2; subst. now split. }
  assert (Hother : forall b, In b (activeAlerts s) ->
                     b <> alert_of_callback (callback t) ->
                     In b (map (fun t => alert_of_callback (callback t)) (l1 ++ l2))).
  { intros b Hb Hne. rewrite Forall_forall in Ha. specialize (Ha b Hb).
    rewrite map_app in *. cbn [map] in Ha.
    apply in_app_or in Ha. apply in_or_app.
    destruct Ha as [H|[H|H]]; [now left | congruence | now right]. }
  destruct HI as [(c & Hc & Hsh) _ _ _].
  destruct (callback t) as [a|a]; cbn [alert_of_callback] in Hother; cbn [run_callback].
  - (* the lifetime of [a] is over *)
    unfold removeAlert.
    split; unfold pending;
      cbn [setTimeout set_timers set_store timers activeAlerts clock].
    + rewrite Forall_forall. intros b Hb. rewrite map_app. apply in_or_app.
      destruct (Nat.eq_dec b a) as [->|Hne]; [right; now left | left; now apply Hother].
    + rewrite Forall_app. split; [assumption|].
      constructor; [|constructor]. simpl.
      apply Nat.add_le_mono_l, Nat.leb_le. vm_compute. reflexivity.
  - (* the exit animation of [a] is over *)
    rewrite (removeAlert_done_eq a _ c) by exact Hc. cbv zeta.
    assert (Hs1 : forall q,
               Covered (set_alertQueue q
                          (set_activeAlerts (filter (differs a) (activeAlerts s))
                             (set_alertContainer (Some (removeChild a c))
                                (set_timers (l1 ++ l2) s))))).
    { intros q. split; unfold pending;
        cbn [set_alertQueue set_activeAlerts set_alertContainer set_timers
             timers activeAlerts clock]; [|assumption].
      rewrite Forall_forall. intros b Hb. apply filter_differs_In in Hb.
      destruct Hb as [Hb Hne]. now apply Hother. }
    cbn [set_timers alertQueue].
    destruct (alertQueue s) as [|h rest].
    + destruct (Hs1 []) as [H1 H2]. split; assumption.
    + apply Covered_displayAlert. apply Hs1.
Qed.

Lemma Covered_step (s : State) (e : Event) : Inv s -> Covered s -> Covered (step s e).
Proof.
  intros HI HC. destruct e as [d| |ms|k]; cbn [step].
  - now apply Covered_createAlert.
  - destruct HI as [(c & Hc & Hsh) _ _ _]. rewrite (clearAlerts_eq s c Hc Hsh).
    destruct HC as [Ha Hd]. split; [constructor | assumption].
  - destruct HC as [Ha Hd]. split; [assumption|].
    cbn [set_clock timers clock]. eapply Forall_impl; [|exact Hd].
    cbn beta. intros t Ht. lia.
  - now apply Covered_fire.
Qed.

Lemma Covered_run (events : list Event) (s : State) :
  Inv s -> Covered s -> Covered (run events s).
Proof.
  revert s. induction events as [|e events IH]; intros s HI HC; [exact HC|].
  cbn [run fold_left]. apply IH; [now apply Inv_step | now apply Covered_step].
Qed.

Lemma Covered_ready (found : option Element) : Covered (ready found).
Proof. destruct found; split; constructor. Qed.

End AlertsMore.

(** X11.  In every state of the alert widget after [initAlerts] the
    container shows exactly the active alerts, in the same order; no alert
    is both active and queued, or twice in either list; and no alert waits
    in the queue while fewer than [MAX_ALERTS] alerts are active. *)
Theorem alerts_display_matches_active :
  forall (found : option Element) (events : list Alerts.Event),
    let s := Alerts.run events (Alerts.ready found) in
    (exists c, Alerts.alertContainer s = Some c /\ Alerts.shown c = Alerts.activeAlerts s) /\
    NoDup (Alerts.activeAlerts s ++ Alerts.alertQueue s) /\
    (Alerts.alertQueue s = [] \/
     Alerts.MAX_ALERTS <= List.length (Alerts.activeAlerts s)).
Proof.
  intros found events s.
  destruct (Inv_reachable found events) as [Hc Hsorted _ Hwait]. fold s in Hc, Hsorted, Hwait.
  split; [exact Hc|]. split; [now apply sorted_NoDup|].
  destruct (Alerts.alertQueue s) as [|h rest]; [now left|].
  right. apply Hwait. discriminate.
Qed.

(** X12.  No alert is displayed without a timer that will retire it: in
    every state after [initAlerts], also after [clearAlerts], each active
    alert has a pending timer (its lifetime or its exit delay), and every
    pending timer is due within [ALERT_LIFETIME] milliseconds. *)
Theorem alerts_active_alert_has_pending_timer :
  forall (found : option Element) (events : list Alerts.Event),
    let s := Alerts.run events (Alerts.ready found) in
    Forall (fun a => In a (AlertsView.pending s)) (Alerts.activeAlerts s) /\
    Forall (fun t => Alerts.due t <= Alerts.clock s + Alerts.ALERT_LIFETIME)
           (Alerts.timers s).
Proof.
  intros found events s.
  destruct (Covered_run events _ (Inv_ready found) (Covered_ready found)) as [H1 H2].
  split; assumption.
Qed.

(** X13.  As long as [clearAlerts] is not called, timers and active alerts
    match one to one: every pending timer is about an active alert, every
    active alert has exactly one pending timer, and at most [MAX_ALERTS]
    alerts are active. *)
Theorem alerts_timers_match_active_without_clear :
  forall (found : option Element) (events : list Alerts.Event),
    forallb (fun e => negb (Alerts.is_clear e)) events = true ->
    let s := Alerts.run events (Alerts.ready found) in
    List.length (Alerts.activeAlerts s) <= Alerts.MAX_ALERTS /\
    NoDup (AlertsView.pending s) /\
    (forall a, In a (AlertsView.pending s) <-> In a (Alerts.activeAlerts s)) /\
    List.length (Alerts.timers s) = List.length (Alerts.activeAlerts s).
Proof.
  intros found events Hno s.
  destruct (Good_run events _ Hno (Good_ready found)) as (HI & [Hnd Hact] & Hb).
  destruct (Covered_run events _ (Inv_ready found) (Covered_ready found)) as [Hcov _].
  fold s in HI, Hnd, Hact, Hb, Hcov.
  assert (Hiff : forall a, In a (AlertsView.pending s) <-> In a (Alerts.activeAlerts s)).
  { intros a. split.
    - unfold AlertsView.pending. rewrite in_map_iff. intros (t & <- & Ht).
      rewrite Forall_forall in Hact. now apply Hact.
    - rewrite Forall_forall in Hcov. apply Hcov. }
  split; [exact Hb|]. split; [exact Hnd|]. split; [exact Hiff|].
  assert (Hnda : NoDup (Alerts.activeAlerts s)).
  { destruct HI as [_ Hsorted _ _]. apply sorted_NoDup in Hsorted.
    now apply NoDup_app_remove_r in Hsorted. }
  rewrite <- (length_map (fun t => Alerts.alert_of_callback (Alerts.callback t))).
  fold (AlertsView.pending s).
  apply Nat.le_antisymm; apply NoDup_incl_length; try assumption;
    intros a Ha; now apply Hiff.
Qed.

Lemma alerts_timers_match_active_without_clear_witness :
  let events := [Alerts.Create (Alerts.alert_of "follow" "SpeedRacer88");
                 Alerts.Create (Alerts.alert_of "cheer" "PitCrewPro");
                 Alerts.Create (Alerts.alert_of "donation" "CheckeredFlag");
                 Alerts.Create (Alerts.alert_of "subscribe" "TurboDriver");
                 Alerts.Elapse 8000; Alerts.Fire 1; Alerts.Elapse 600; Alerts.Fire 2] in
  let s := Alerts.run events (Alerts.ready None) in
  forallb (fun e => negb (Alerts.is_clear e)) events = true /\
  Alerts.activeAlerts s = [0; 2; 3] /\
  AlertsView.pending s = [0; 2; 3] /\
  List.length (Alerts.activeAlerts s) <= Alerts.MAX_ALERTS /\
  NoDup (AlertsView.pending s).
Proof.
  intros events s.
  split; [reflexivity|]. split; [reflexivity|]. split; [reflexivity|].
  pose proof (alerts_timers_match_active_without_clear None events eq_refl) as H.
  cbv zeta in H. destruct H as (H1 & H2 & _).
  split; [exact H1 | exact H2].
Defined.

(** X14.  [clearAlerts] takes every displayed alert off the screen: after it,
    in any state after [initAlerts], no alert is active or queued and the
    container shows none, while the element store and the pending timers
    are left as they were (no timer is cancelled). *)
Theorem alerts_clear_empties_display :
  forall (found : option Element) (events : list Alerts.Event),
    let s := Alerts.run events (Alerts.ready found) in
    let s' := Alerts.clearAlerts s in
    Alerts.activeAlerts s' = [] /\
    Alerts.alertQueue s' = [] /\
    (exists c, Alerts.alertContainer s = Some c /\
               Alerts.alertContainer s' = Some (Alerts.mkContainer (Alerts.element c) [])) /\
    Alerts.timers s' = Alerts.timers s /\
    Alerts.store s' = Alerts.store s /\
    Alerts.clock s' = Alerts.clock s.
Proof.
  intros found events s s'.
  destruct (Inv_reachable found events) as [(c & Hc & Hsh) _ _ _]. fold s in Hc, Hsh.
  unfold s'. rewrite (clearAlerts_eq s c Hc Hsh).
  repeat split. exists c. split; [exact Hc | reflexivity].
Qed.

(* ================================================================== *)
(** * Further properties of shared.js: random choices *)
(* ================================================================== *)

Section RandomFacts.
Import Shared.

Lemma den_pos (r : Random) : 0 < den r.
Proof. unfold den. lia. Qed.

Lemma floor_mul_lt (r : Random) (n : nat) : 0 < n -> floor_mul r n < n.
Proof.
  intros Hn. unfold floor_mul.
  apply Nat.Div0.div_lt_upper_bound. unfold den. nia.
Qed.

Lemma floor_mulZ_bounds (r : Random) (k : Z) :
  ((0 < k -> 0 <= floor_mulZ r k < k) /\
   (k <= 0 -> k <= floor_mulZ r k <= 0))%Z.
Proof.
  unfold floor_mulZ. pose proof (den_pos r) as Hd.
  assert (Hn : (Z.of_nat (num r) < Z.of_nat (den r))%Z) by (unfold den; lia).
  split; intros Hk.
  - split.
    + apply Z.div_pos; nia.
    + apply Z.div_lt_upper_bound; nia.
  - split.
    + apply Z.div_le_lower_bound; nia.
    + apply Z.div_le_upper_bound; nia.
Qed.

Lemma perm_update_head {A : Type} (x y : A) (t : list A) (j : nat) :
  nth_error t j = Some y ->
  Permutation (y :: Alerts.update j (fun _ => x) t) (x :: t).
Proof.
  revert j. induction t as [|h t IH]; intros [|j] Hj; try discriminate.
  - injection Hj as ->. apply perm_swap.
  - cbn [Alerts.update]. cbn [nth_error] in Hj.
    etransitivity; [apply perm_swap|].
    etransitivity; [apply perm_skip, (IH _ Hj)|]. apply perm_swap.
Qed.

Lemma swap_Permutation {A : Type} (i j : nat) (a : list A) :
  Permutation (swap i j a) a.
Proof.
  unfold swap.
  destruct (nth_error a i) as [x|] eqn:Hi; [|reflexivity].
  destruct (nth_error a j) as [y|] eqn:Hj; [|reflexivity].
  revert i j Hi Hj. induction a as [|h t IH]; intros [|i] [|j] Hi Hj; try discriminate;
    cbn [nth_error] in Hi, Hj; cbn [Alerts.update].
  - injection Hi as ->. reflexivity.
  - injection Hi as ->. now apply perm_update_head.
  - injection Hj as ->. now apply perm_update_head.
  - apply perm_skip. now apply IH.
Qed.

Lemma shuffle_from_spec {A : Type} (i : nat) (shuffled : list A)
    (source : nat -> Random) (calls : nat) :
  Permutation (fst (shuffle_from i shuffled source calls)) shuffled /\
  snd (shuffle_from i shuffled source calls) = calls + i.
Proof.
  revert shuffled calls. induction i as [|i IH]; intros shuffled calls.
  - cbn. split; [reflexivity | lia].
  - cbn [shuffle_from]. unfold bind, random.
    destruct (IH (swap (S i) (floor_mul (source calls) (S i + 1)) shuffled) (S calls))
      as [Hp Hc].
    split; [|rewrite Hc; lia].
    etransitivity; [exact Hp | apply swap_Permutation].
Qed.

End RandomFacts.

(** X15.  [randomItem] returns a member of the array, whatever
    [Math.random()] gives, and [undefined] only for an empty array; it
    calls [Math.random()] once. *)
Theorem randomItem_returns_a_member :
  forall (A : Type) (array : list A) (source : nat -> Shared.Random) (calls : nat),
    snd (Shared.randomItem array source calls) = S calls /\
    match fst (Shared.randomItem array source calls) with
    | Some x => In x array
    | None => array = []
    end.
Proof.
  intros A array source calls.
  unfold Shared.randomItem, Shared.bind, Shared.random, Shared.ret. cbn [fst snd].
  split; [reflexivity|].
  destruct (nth_error array _) as [x|] eqn:E.
  - eapply nth_error_In, E.
  - apply nth_error_None in E.
    destruct array as [|a array]; [reflexivity|].
    pose proof (floor_mul_lt (source calls) (List.length (a :: array))) as Hlt.
    cbn [List.length] in *. lia.
Qed.


(** X17.  [shuffleArray] returns a rearrangement of its argument: the same
    elements, each as often as before, so also as many; it calls
    [Math.random()] once for every element but one, and an array of at most
    one element comes back as it is. *)
Theorem shuffleArray_is_a_permutation :
  forall (A : Type) (array : list A) (source : nat -> Shared.Random) (calls : nat),
    Permutation array (fst (Shared.shuffleArray array source calls)) /\
    List.length (fst (Shared.shuffleArray array source calls)) = List.length array /\
    snd (Shared.shuffleArray array source calls) = calls + (List.length array - 1) /\
    (List.length array <= 1 -> fst (Shared.shuffleArray array source calls) = array).
Proof.
  intros A array source calls. unfold Shared.shuffleArray. cbv zeta.
  destruct (shuffle_from_spec (List.length array - 1) array source calls) as [Hp Hc].
  split; [now symmetry|]. split; [now apply Permutation_length|]. split; [exact Hc|].
  intros Hlen. replace (List.length array - 1) with 0 by lia. reflexivity.
Qed.

(* ================================================================== *)
(** * Further properties of shared.js: throttle and debounce *)
(* ================================================================== *)

Section ThrottleFacts.
Import Throttle.
Variable Args : Type.
Variable limit : nat.

Lemma sorted_snoc {A : Type} (R : A -> A -> Prop) (l : list A) (x : A) :
  StronglySorted R l -> Forall (fun a => R a x) l -> StronglySorted R (l ++ [x]).
Proof.
  induction 1 as [|a l Hs IH Ha]; intros Hx; cbn [app].
  - repeat constructor.
  - inversion Hx; subst. constructor; [now apply IH|].
    rewrite Forall_app. split; [assumption | now repeat constructor].
Qed.

Lemma throttle_Inv_step (s : State Args) (e : Event Args) :
  is_plain e = true -> Inv limit s -> Inv limit (step limit s e).
Proof.
  intros He [Hs Ht Hp]. destruct e as [a b|ms|k]; cbn [step].
  - destruct b as [[|nested rest] [|]]; try discriminate. clear He.
    cbn [executedFunction]. destruct (inThrottle s) eqn:Hin.
    + split; rewrite ?Hin; assumption.
    + destruct Ht as [Ht Hold].
      split; cbn [inThrottle timers clock invoked].
      * apply sorted_snoc; assumption.
      * exists (clock s + limit). rewrite Ht. split; [reflexivity|]. split; [lia|].
        rewrite Forall_app. split.
        -- eapply Forall_impl; [|exact Hold]. cbn beta. intros x Hx. lia.
        -- constructor; [|constructor]. cbn [fst]. lia.
      * rewrite Forall_app. split; [assumption|]. constructor; [|constructor].
        cbn [fst]. lia.
  - split; cbn [inThrottle timers clock invoked]; [assumption| |].
    + destruct (inThrottle s).
      * destruct Ht as (d & H1 & H2 & H3). exists d.
        split; [assumption|]. split; [lia | assumption].
      * destruct Ht as [H1 H2]. split; [assumption|].
        eapply Forall_impl; [|exact H2]. cbn beta. intros x Hx. lia.
    + eapply Forall_impl; [|exact Hp]. cbn beta. intros x Hx. lia.
  - unfold fire. destruct (nth_error (timers s) k) as [d|] eqn:Hk; [|now split].
    destruct (Nat.leb_spec d (clock s)) as [Hdue|]; [|now split].
    split; cbn [inThrottle timers clock invoked]; [assumption| |assumption].
    destruct (inThrottle s).
    + destruct Ht as (d' & H1 & H2 & H3). rewrite H1 in Hk |- *.
      destruct k as [|k]; [|destruct k; discriminate].
      injection Hk as <-. split; [reflexivity|].
      eapply Forall_impl; [|exact H3]. cbn beta. intros x Hx. lia.
    + destruct Ht as [H1 _]. rewrite H1 in Hk. destruct k; discriminate.
Qed.

Lemma throttle_Inv_run (events : list (Event Args)) (s : State Args) :
  forallb is_plain events = true -> Inv limit s -> Inv limit (run limit events s).
Proof.
  revert s. induction events as [|e events IH]; intros s He HI; [exact HI|].
  cbn [forallb] in He. apply andb_true_iff in He. destruct He as [He Hes].
  cbn [run fold_left]. apply IH; [exact Hes | apply throttle_Inv_step; assumption].
Qed.

Lemma throttle_Inv_initial : Inv limit (initial (Args := Args)).
Proof. split; cbn; [constructor | split; constructor | constructor]. Qed.

Lemma executedFunction_closed (args : Args) (b : Behaviour Args) (s : State Args) :
  inThrottle s = true -> executedFunction limit args b s = s.
Proof. intros H. destruct b. cbn [executedFunction]. now rewrite H. Qed.

End ThrottleFacts.



Section DebounceFacts.
Import Debounce.
Variable Args : Type.
Variable wait : nat.

Lemma debounce_clock_fire (k : nat) (s : State Args) : clock (fire k s) = clock s.
Proof.
  unfold fire. destruct (nth_error (timers s) k) as [t|]; [|reflexivity].
  destruct (due t <=? clock s)%nat; [|reflexivity].
  unfold later, clearTimeout. cbn [timeout]. destruct (timeout s); reflexivity.
Qed.

Lemma debounce_clock_step (s : State Args) (e : Event Args) :
  clock (step wait s e) = match e with Elapse ms => clock s + ms | _ => clock s end.
Proof.
  destruct e as [a|ms|k]; cbn [step].
  - unfold executedFunction, clearTimeout. destruct (timeout s); reflexivity.
  - reflexivity.
  - apply debounce_clock_fire.
Qed.

Lemma Pending_step (s : State Args) (e : Event Args) (previous : option (nat * Args)) :
  Pending wait s previous ->
  Pending wait (step wait s e)
    (match e with Call a => Some (clock s, a) | _ => previous end).
Proof.
  intros HP. destruct e as [a|ms|k]; cbn [step].
  - right. unfold executedFunction.
    assert (Hclear : timers (clearTimeout (timeout s) s) = []).
    { destruct HP as [H|(i & called & a' & H1 & H2 & _)].
      - unfold clearTimeout. destruct (timeout s); cbn [timers]; rewrite H; reflexivity.
      - rewrite H2. cbn [clearTimeout timers]. rewrite H1. cbn [filter id].
        rewrite Nat.eqb_refl. reflexivity. }
    cbv zeta. rewrite Hclear.
    assert (Hclock : clock (clearTimeout (timeout s) s) = clock s)
      by (unfold clearTimeout; destruct (timeout s); reflexivity).
    rewrite Hclock. cbn [app timers timeout].
    eexists _, (clock s), a. repeat split.
  - destruct HP as [H|(i & called & a' & H1 & H2 & H3)]; [now left|].
    right. exists i, called, a'. repeat split; assumption.
  - unfold fire. destruct (nth_error (timers s) k) as [t|] eqn:Hk; [|exact HP].
    destruct (due t <=? clock s)%nat; [|exact HP].
    left. destruct HP as [H|(i & called & a' & H1 & H2 & H3)].
    + rewrite H in Hk. destruct k; discriminate.
    + rewrite H1 in Hk |- *. destruct k as [|k]; [|destruct k; discriminate].
      unfold later, clearTimeout. cbn [timeout Alerts.remove_nth].
      destruct (timeout s); reflexivity.
Qed.

Lemma Pending_run (events : list (Event Args)) (s : State Args)
    (previous : option (nat * Args)) :
  Pending wait s previous ->
  Pending wait (run wait events s) (last_from events (clock s) previous).
Proof.
  revert s previous. induction events as [|e events IH]; intros s previous HP; [exact HP|].
  cbn [run fold_left].
  pose proof (IH _ _ (Pending_step s e previous HP)) as H.
  rewrite debounce_clock_step in H. destruct e; exact H.
Qed.

End DebounceFacts.


(* ================================================================== *)
(** * Further properties of shared.js: time stamps *)
(* ================================================================== *)

Section TimeFacts.
Import Text.

Lemma pad2_two_digits (n : nat) :
  n < 100 ->
  exists a b, pad2 n = String a (String b EmptyString) /\ two_digits a b = Some n.
Proof.
  intros Hn.
  assert (H : forallb (fun n => match pad2 n with
                                | String a (String b EmptyString) =>
                                    match two_digits a b with
                                    | Some v => (v =? n)%nat
                                    | None => false
                                    end
                                | _ => false
                                end) (seq 0 100) = true) by (vm_compute; reflexivity).
  rewrite forallb_forall in H. specialize (H n). rewrite in_seq in H.
  specialize (H ltac:(lia)).
  destruct (pad2 n) as [|a [|b [|]]]; try discriminate.
  destruct (two_digits a b) as [v|] eqn:E; [|discriminate].
  apply Nat.eqb_eq in H. subst v. eauto.
Qed.

End TimeFacts.

(** X20.  For a time of day (hours below 24, minutes and seconds below 60)
    [formatTimestamp] writes a text of fixed width, "HH:MM" or, with the
    seconds asked for, "HH:MM:SS", every field in two digits with a leading
    zero where needed: the fields read back from the text are those of the
    date. *)
Theorem formatTimestamp_reads_back :
  forall (date : Date) (includeSeconds : bool),
    getHours date < 24 -> getMinutes date < 60 -> getSeconds date < 60 ->
    String.length (formatTimestamp date includeSeconds) = (if includeSeconds then 8 else 5) /\
    Text.read_time (formatTimestamp date includeSeconds)
    = Some (getHours date, getMinutes date,
            if includeSeconds then Some (getSeconds date) else None).
Proof.
  intros [h m sec] inc Hh Hm Hs. cbn [getHours getMinutes getSeconds] in *.
  destruct (pad2_two_digits h ltac:(lia)) as (h1 & h2 & Hph & Hvh).
  destruct (pad2_two_digits m ltac:(lia)) as (m1 & m2 & Hpm & Hvm).
  destruct (pad2_two_digits sec ltac:(lia)) as (s1 & s2 & Hps & Hvs).
  unfold formatTimestamp. cbn [getHours getMinutes getSeconds].
  rewrite Hph, Hpm, Hps.
  destruct inc; cbn [append String.length Text.read_time];
    change (Ascii.eqb ":" ":") with true; cbn iota;
    rewrite Hvh, Hvm, ?Hvs; split; reflexivity.
Qed.

Lemma formatTimestamp_reads_back_witness :
  formatTimestamp (mkDate 9 5 7) true = "09:05:07"%string /\
  String.length (formatTimestamp (mkDate 9 5 7) true) = 8 /\
  Text.read_time (formatTimestamp (mkDate 9 5 7) true) = Some (9, 5, Some 7).
Proof.
  split; [reflexivity|].
  apply (formatTimestamp_reads_back (mkDate 9 5 7) true); cbn; lia.
Defined.

(* ================================================================== *)
(** * Further properties: the demo generators *)
(* ================================================================== *)

Section DemoFacts.
Import Shared.

Lemma bind_eq {A B : Type} (m : Gen A) (f : A -> Gen B) (source : nat -> Random)
    (calls : nat) :
  bind m f source calls = f (fst (m source calls)) source (snd (m source calls)).
Proof. unfold bind. destruct (m source calls). reflexivity. Qed.

Lemma randomItem_fst {A : Type} (array : list A) (source : nat -> Random) (calls : nat) :
  array <> [] ->
  exists x, randomItem array source calls = (Some x, S calls) /\ In x array.
Proof.
  intros Hne. unfold randomItem, bind, random, ret.
  destruct (nth_error array (floor_mul (source calls) (List.length array))) as [x|] eqn:E.
  - exists x. split; [reflexivity | eapply nth_error_In, E].
  - apply nth_error_None in E. destruct array as [|a array]; [congruence|].
    pose proof (floor_mul_lt (source calls) (List.length (a :: array))) as Hlt.
    cbn [List.length] in *. lia.
Qed.

Lemma randomInt_fst (min max : Z) (source : nat -> Random) (calls : nat) :
  (min <= max)%Z ->
  exists v, randomInt min max source calls = (v, S calls) /\ (min <= v <= max)%Z.
Proof.
  intros H. unfold randomInt, bind, random, ret. eexists. split; [reflexivity|].
  destruct (floor_mulZ_bounds (source calls) (max - min + 1)) as [Hpos _].
  specialize (Hpos ltac:(lia)). lia.
Qed.

End DemoFacts.

(** X21.  Whatever [Math.random()] gives, the record [generateDemoAlert]
    builds has a type of the alert registry and a user name of the demo
    list; a subscription has 1 to 24 months, a donation an amount from 1 to
    100 and is [mega] exactly from 50 on, a cheer 100 to 10000 bits and is
    [mega] exactly from 5000 on, and no other type has these members.  So
    [createAlert] never rejects a demo alert: after [initAlerts] it creates
    one element and logs nothing. *)
Theorem demo_alert_is_never_rejected :
  forall (found : option Element) (events : list Alerts.Event)
         (source : nat -> Shared.Random) (calls : nat),
    let s := Alerts.run events (Alerts.ready found) in
    let d := fst (AlertsDemo.alertData source calls) in
    (exists ty user,
       Alerts.type d = Some ty /\ In ty ["follow"; "subscribe"; "donation"; "cheer"] /\
       Alerts.username d = Some user /\ In user AlertsDemo.usernames) /\
    match Alerts.months d with
    | Some n => Alerts.type d = Some "subscribe"%string /\ (1 <= n <= 24)%Z
    | None => Alerts.type d <> Some "subscribe"%string
    end /\
    match Alerts.amount d with
    | Some n => Alerts.type d = Some "donation"%string /\ (1 <= n <= 100)%Z /\
                Alerts.mega d = Some (50 <=? n)%Z
    | None => Alerts.type d <> Some "donation"%string
    end /\
    match Alerts.bits d with
    | Some n => Alerts.type d = Some "cheer"%string /\ (100 <= n <= 10000)%Z /\
                Alerts.mega d = Some (5000 <=? n)%Z
    | None => Alerts.type d <> Some "cheer"%string
    end /\
    fst (AlertsDemo.generateDemoAlert s source calls) = Alerts.createAlert d s /\
    List.length (Alerts.store (Alerts.createAlert d s)) = S (List.length (Alerts.store s)) /\
    Alerts.console (Alerts.createAlert d s) = Alerts.console s.
Proof.
  intros found events source calls s d.
  assert (Hgen : fst (AlertsDemo.generateDemoAlert s source calls) = Alerts.createAlert d s).
  { unfold AlertsDemo.generateDemoAlert, Shared.bind, Shared.ret, d.
    destruct (AlertsDemo.alertData source calls). reflexivity. }
  assert (Hd : exists ty user msg,
             In ty ["follow"; "subscribe"; "donation"; "cheer"] /\
             In user AlertsDemo.usernames /\
             ((ty = "follow"%string /\
               d = Alerts.mkAlertData (Some ty) (Some user) msg None None None None) \/
              (ty = "subscribe"%string /\ exists n, (1 <= n <= 24)%Z /\
               d = Alerts.mkAlertData (Some ty) (Some user) msg None None (Some n) None) \/
              (ty = "donation"%string /\ exists n, (1 <= n <= 100)%Z /\
               d = Alerts.mkAlertData (Some ty) (Some user) msg (Some n) None None
                     (Some (50 <=? n)%Z)) \/
              (ty = "cheer"%string /\ exists n, (100 <= n <= 10000)%Z /\
               d = Alerts.mkAlertData (Some ty) (Some user) msg None (Some n) None
                     (Some (5000 <=? n)%Z)))).
  { unfold d, AlertsDemo.alertData. cbv zeta. rewrite bind_eq.
    destruct (randomItem_fst ["follow"; "subscribe"; "donation"; "cheer"]%string source calls
                ltac:(discriminate)) as (ty & Hr & Hty).
    rewrite Hr. cbn [fst snd]. clear Hr. rewrite bind_eq.
    destruct (randomItem_fst AlertsDemo.usernames source (S calls) ltac:(discriminate))
      as (user & Hr & Huser).
    rewrite Hr. cbn [fst snd]. clear Hr. rewrite bind_eq.
    cbn [fst snd Shared.random]. rewrite bind_eq.
    destruct ((if AlertsDemo.above_0_7 (source (S (S calls)))
               then Shared.randomItem AlertsDemo.messages
               else Shared.ret (Some ""%string)) source (S (S (S calls))))
      as [msg calls']. cbn [fst snd].
    exists ty, user, msg. split; [exact Hty|]. split; [exact Huser|].
    cbn [In] in Hty.
    destruct Hty as [<-|[<-|[<-|[<-|[]]]]]; cbn [AlertsDemo.equals String.eqb Ascii.eqb Bool.eqb].
    - left. split; reflexivity.
    - right; left. split; [reflexivity|]. rewrite bind_eq.
      destruct (randomInt_fst 1 24 source calls' ltac:(lia)) as (n & -> & Hn).
      exists n. split; [exact Hn | reflexivity].
    - right; right; left. split; [reflexivity|]. rewrite bind_eq.
      destruct (randomInt_fst 1 100 source calls' ltac:(lia)) as (n & -> & Hn).
      exists n. split; [exact Hn | reflexivity].
    - right; right; right. split; [reflexivity|]. rewrite bind_eq.
      destruct (randomInt_fst 100 10000 source calls' ltac:(lia)) as (n & -> & Hn).
      exists n. split; [exact Hn | reflexivity]. }
  destruct Hd as (ty & user & msg & Hty & Huser & Hcases).
  assert (Hvalid : Alerts.valid_type d /\ Alerts.type d = Some ty /\
                   Alerts.username d = Some user).
  { cbn [In] in Hty. unfold Alerts.valid_type.
    destruct Hcases as [(-> & ->)|[(-> & n & _ & ->)|[(-> & n & _ & ->)|(-> & n & _ & ->)]]];
      (split; [eexists; reflexivity | split; reflexivity]). }
  destruct Hvalid as (Hvalid & Htype & Huserd).
  split; [exists ty, user; repeat split; assumption|].
  split; [|split; [|split; [|split; [exact Hgen|]]]].
  - destruct Hcases as [(-> & ->)|[(-> & n & Hn & ->)|[(-> & n & _ & ->)|(-> & n & _ & ->)]]];
      cbn [Alerts.months Alerts.type]; try discriminate. split; [reflexivity | exact Hn].
  - destruct Hcases as [(-> & ->)|[(-> & n & _ & ->)|[(-> & n & Hn & ->)|(-> & n & _ & ->)]]];
      cbn [Alerts.amount Alerts.type Alerts.mega]; try discriminate.
    split; [reflexivity|]. split; [exact Hn | reflexivity].
  - destruct Hcases as [(-> & ->)|[(-> & n & _ & ->)|[(-> & n & _ & ->)|(-> & n & Hn & ->)]]];
      cbn [Alerts.bits Alerts.type Alerts.mega]; try discriminate.
    split; [reflexivity|]. split; [exact Hn | reflexivity].
  - destruct (createAlert_valid d s Hvalid) as (el & ->).
    destruct (Inv_reachable found events) as [(c & Hc & _) _ _ _]. fold s in Hc.
    cbv zeta.
    destruct (List.length (Alerts.activeAlerts s) <? Alerts.MAX_ALERTS)%nat.
    + unfold Alerts.displayAlert.
      cbn [Alerts.set_store Alerts.alertContainer]. rewrite Hc.
      cbn [Alerts.setTimeout Alerts.set_timers Alerts.set_alertContainer
           Alerts.set_activeAlerts Alerts.set_store Alerts.store Alerts.console].
      rewrite length_app. cbn [List.length]. split; [lia | reflexivity].
    + cbn [Alerts.set_alertQueue Alerts.set_store Alerts.store Alerts.console].
      rewrite length_app. cbn [List.length]. split; [lia | reflexivity].
Qed.

Section TickerDemoFacts.
Import Shared.

Lemma append_not_empty (a : string) (c : ascii) (b : string) :
  (a ++ String c b)%string <> ""%string.
Proof. destruct a; discriminate. Qed.

Lemma describe_cases (type : string) (source : nat -> Random) (calls : nat) :
  In type TickerDemo.types ->
  exists action detail,
    fst (TickerDemo.describe (Some type) source calls) = (action, detail) /\
    action <> ""%string /\
    (detail = ""%string <-> action = "followed"%string \/ action = "subscribed"%string).
Proof.
  intros Hty. cbn [In TickerDemo.types] in Hty. unfold TickerDemo.describe.
  destruct Hty as [<-|[<-|[<-|[<-|[<-|[]]]]]];
    cbn [AlertsDemo.equals String.eqb Ascii.eqb Bool.eqb].
  - exists "followed"%string, ""%string. split; [reflexivity|]. split; [discriminate|].
    split; auto.
  - rewrite bind_eq.
    destruct (fst (randomInt 1 24 source calls) =? 1)%Z.
    + exists "subscribed"%string, ""%string. split; [reflexivity|]. split; [discriminate|].
      split; auto.
    + eexists "subscribed for"%string, _. split; [reflexivity|]. split; [discriminate|].
      split; [intros H; now apply append_not_empty in H | intros [H|H]; discriminate].
  - rewrite bind_eq.
    eexists "donated"%string, _. split; [reflexivity|]. split; [discriminate|].
    split; [intros H; discriminate | intros [H|H]; discriminate].
  - rewrite bind_eq.
    eexists "cheered"%string, _. split; [reflexivity|]. split; [discriminate|].
    split; [intros H; now apply append_not_empty in H | intros [H|H]; discriminate].
  - rewrite bind_eq.
    eexists "raided with"%string, _. split; [reflexivity|]. split; [discriminate|].
    split; [intros H; now apply append_not_empty in H | intros [H|H]; discriminate].
Qed.

End TickerDemoFacts.

(** X22.  Whatever [Math.random()] gives, the event [generateDemoEvent]
    builds has one of the five demo types, each of which has an icon of its
    own in the ticker's registry (the fallback dot is never shown), a user
    name of the demo list and an action that is not empty; its detail is
    empty exactly for a follow and for a subscription of one month.
    [addTickerItem] puts the event at the head of the Backing List. *)
Theorem demo_event_has_an_icon :
  forall (s : Ticker.State) (source : nat -> Shared.Random) (calls : nat),
    let d := fst (TickerDemo.itemData source calls) in
    (exists ty user icon,
       Ticker.type d = Some ty /\ In ty TickerDemo.types /\
       Ticker.username d = Some user /\ In user TickerDemo.usernames /\
       own_lookup Ticker.icons ty = Some icon /\ Ticker.icon_text ty = icon) /\
    (exists action detail,
       Ticker.action d = Some action /\ Ticker.detail d = Some detail /\
       action <> ""%string /\
       (detail = ""%string <-> action = "followed"%string \/ action = "subscribed"%string)) /\
    fst (TickerDemo.generateDemoEvent s source calls) = Ticker.addTickerItem d s /\
    hd_error (Ticker.tickerItems (Ticker.addTickerItem d s)) = Some d.
Proof.
  intros s source calls d.
  assert (Hgen : fst (TickerDemo.generateDemoEvent s source calls) = Ticker.addTickerItem d s).
  { unfold TickerDemo.generateDemoEvent. rewrite bind_eq. reflexivity. }
  assert (Hd : exists ty user,
             In ty TickerDemo.types /\ In user TickerDemo.usernames /\
             d = Ticker.mkItemData (Some ty) (Some user)
                   (Some (fst (fst (TickerDemo.describe (Some ty) source (S (S calls))))))
                   (Some (snd (fst (TickerDemo.describe (Some ty) source (S (S calls))))))).
  { unfold d, TickerDemo.itemData. rewrite bind_eq.
    destruct (randomItem_fst TickerDemo.types source calls ltac:(discriminate))
      as (ty & Hr & Hty).
    rewrite Hr. cbn [fst snd]. clear Hr. rewrite bind_eq.
    destruct (randomItem_fst TickerDemo.usernames source (S calls) ltac:(discriminate))
      as (user & Hr & Huser).
    rewrite Hr. cbn [fst snd]. clear Hr. rewrite bind_eq.
    exists ty, user. split; [exact Hty|]. split; [exact Huser | reflexivity]. }
  destruct Hd as (ty & user & Hty & Huser & Hd).
  destruct (describe_cases ty source (S (S calls)) Hty) as (action & detail & He & Hne & Hiff).
  rewrite He in Hd. cbn [fst snd] in Hd.
  split; [|split; [|split; [exact Hgen|]]].
  - assert (Hicon : exists icon, own_lookup Ticker.icons ty = Some icon /\
                                 Ticker.icon_text ty = icon).
    { cbn [In TickerDemo.types] in Hty.
      destruct Hty as [<-|[<-|[<-|[<-|[<-|[]]]]]]; eexists; split; reflexivity. }
    destruct Hicon as (icon & H1 & H2).
    exists ty, user, icon. rewrite Hd. repeat split; assumption.
  - exists action, detail. rewrite Hd. repeat split; try assumption; apply Hiff.
  - rewrite tickerItems_addTickerItem. reflexivity.
Qed.

Section ChatDemoFacts.
Import Shared.

Lemma addChatLine_grows (l : Chat.Layout) (found : option (Element * nat))
    (events : list Chat.Event) (now : Date) (d : Chat.MessageData) :
  forallb valid_token (default [] (Chat.badges d)) = true ->
  let s := Chat.run events (Chat.ready l found) in
  exists s',
    Chat.addChatLine now d s = Some s' /\
    match found with
    | Some _ => Chat.store s' = (Chat.store s ++ [Chat.element_of now d])%list
    | None => Chat.store s' = Chat.store s
    end.
Proof.
  intros Hv s. destruct found as [[el top]|].
  - destruct (addChatLine_appends l el top events now d Hv) as (c & msgs & sh & Hc & Hadd).
    fold s in Hc, Hadd. cbv zeta in Hadd. rewrite Hadd. eexists. split; [reflexivity|].
    destruct (Chat.isAutoScrollEnabled s); reflexivity.
  - destruct (no_container_run events (Chat.ready l None) eq_refl eq_refl) as (Hc & _).
    fold s in Hc. rewrite (addChatLine_no_container _ _ _ Hc).
    eexists. split; reflexivity.
Qed.

Lemma demo_badges_valid (u : ChatDemo.User) :
  In u ChatDemo.usernames -> forallb valid_token (ChatDemo.badges u) = true.
Proof.
  assert (H : forallb (fun u => forallb valid_token (ChatDemo.badges u)) ChatDemo.usernames
              = true) by (vm_compute; reflexivity).
  rewrite forallb_forall in H. apply H.
Qed.

End ChatDemoFacts.

(** X23.  [generateDemoMessage] never throws, whatever [Math.random()]
    gives: the demo users are read from a list that is not empty and their
    badges are class tokens, so [addChatLine] accepts every demo record.
    With a container each call creates exactly one message element; without
    one it creates none. *)
Theorem demo_message_never_throws :
  forall (l : Chat.Layout) (found : option (Element * nat)) (events : list Chat.Event)
         (now : Date) (source : nat -> Shared.Random) (calls : nat),
    let s := Chat.run events (Chat.ready l found) in
    exists s',
      fst (ChatDemo.generateDemoMessage now s source calls) = Some s' /\
      List.length (Chat.store s')
      = match found with
        | Some _ => S (List.length (Chat.store s))
        | None => List.length (Chat.store s)
        end.
Proof.
  intros l found events now source calls s.
  assert (Hadd : forall d, forallb valid_token (default [] (Chat.badges d)) = true ->
            exists s', Chat.addChatLine now d s = Some s' /\
              List.length (Chat.store s')
              = match found with
                | Some _ => S (List.length (Chat.store s))
                | None => List.length (Chat.store s)
                end).
  { intros d Hv. destruct (addChatLine_grows l found events now d Hv) as (s' & H1 & H2).
    fold s in H1, H2. exists s'. split; [exact H1|].
    destruct found; rewrite H2; [rewrite length_app; cbn [List.length]; lia | reflexivity]. }
  unfold ChatDemo.generateDemoMessage. rewrite bind_eq.
  destruct (randomItem_fst ChatDemo.usernames source calls ltac:(discriminate))
    as (u & Hr & Hu).
  rewrite Hr. cbn [fst snd]. clear Hr. rewrite bind_eq.
  set (message := fst (Shared.randomItem ChatDemo.messages source (S calls))).
  set (calls2 := snd (Shared.randomItem ChatDemo.messages source (S calls))).
  rewrite bind_eq. cbn [fst snd Shared.random].
  pose proof (demo_badges_valid u Hu) as Hvalid.
  destruct (ChatDemo.below_0_05 (source calls2));
    [|destruct (ChatDemo.below_0_1 (source calls2));
      [|destruct (ChatDemo.below_0_15 (source calls2))]].
  - rewrite bind_eq.
    destruct (randomItem_fst ChatDemo.systemMessages source (S calls2) ltac:(discriminate))
      as (m & Hr & _).
    rewrite Hr. cbn [fst snd]. clear Hr. rewrite bind_eq.
    destruct (randomItem_fst ChatDemo.usernames source (S (S calls2)) ltac:(discriminate))
      as (u' & Hr & _).
    rewrite Hr. cbn [fst snd Shared.ret]. clear Hr.
    apply (Hadd (ChatView.systemData (ChatDemo.replace "{user}" (ChatDemo.name u') m))).
    reflexivity.
  - rewrite bind_eq. cbn [fst snd Shared.ret]. apply Hadd. exact Hvalid.
  - cbn [fst snd Shared.ret]. apply Hadd. exact Hvalid.
  - cbn [fst snd Shared.ret]. apply Hadd. exact Hvalid.
Qed.

(* ================================================================== *)
(** * Further properties: fading and demo mode *)
(* ================================================================== *)

Section FadeFacts.
Import Fade.

Lemma fade_counts_step (s : State) (e : Event) :
  List.length (timers (step s e)) + resolved (step s e)
  = List.length (timers s) + resolved s
    + match e with FadeOut _ => 1 | _ => 0 end.
Proof.
  destruct e as [d|d|ms|k]; cbn [step].
  - cbn. lia.
  - cbn. rewrite length_app. cbn. lia.
  - cbn. lia.
  - unfold fire. destruct (nth_error (timers s) k) as [due|] eqn:Hk; [|lia].
    destruct (due <=? clock s)%nat; [|lia].
    destruct (nth_error_remove_nth k (timers s) due Hk) as (l1 & l2 & Hl & Hr).
    cbn [on_element timers resolved]. rewrite Hr, Hl, !length_app. cbn [List.length]. lia.
Qed.

Lemma fade_counts_run (events : list Event) (s : State) :
  List.length (timers (run events s)) + resolved (run events s)
  = List.length (timers s) + resolved s + fadeOuts events.
Proof.
  revert s. induction events as [|e events IH]; intros s.
  - cbn. lia.
  - cbn [run fold_left]. change (fold_left step events ?x) with (run events x).
    rewrite IH, fade_counts_step. unfold fadeOuts. cbn [filter].
    destruct e; cbn [List.length]; lia.
Qed.

Lemma display_fire (k : nat) (s : State) :
  resolved (fire k s) = S (resolved s) -> display (fire k s) = Some "none"%string.
Proof.
  unfold fire. destruct (nth_error (timers s) k) as [due|]; [|lia].
  destruct (due <=? clock s)%nat; [|lia].
  intros _. unfold display. cbn [on_element element set_style style].
  apply own_lookup_setAttribute_any.
Qed.

End FadeFacts.

(** X24.  [fadeOut] never cancels its timer and [fadeIn] does not either:
    every call of [fadeOut] either still has its timer pending or has
    hidden the element and resolved its promise.  So a [fadeIn] that comes
    while a [fadeOut] is still pending does not keep the element on
    screen: when the timer of the [fadeOut] fires after it, the element has
    [display: none] although its opacity is "1". *)
Theorem fadeOut_hides_after_a_later_fadeIn :
  forall (e : Element) (before : list Fade.Event) (out again pause rest : nat),
    out <= pause + rest ->
    let s := Fade.run before (Fade.start e) in
    let k := List.length (Fade.timers s) in
    let s' := Fade.run [Fade.FadeOut out; Fade.Elapse pause; Fade.FadeIn again;
                        Fade.Elapse rest; Fade.Fire k] s in
    List.length (Fade.timers s) + Fade.resolved s = Fade.fadeOuts before /\
    Fade.display s' = Some "none"%string /\
    Fade.opacity s' = Some "1"%string /\
    Fade.resolved s' = S (Fade.resolved s).
Proof.
  intros e before out again pause rest Hdue s k s'.
  split; [apply (fade_counts_run before (Fade.start e))|].
  assert (Hs' : s' = Fade.mkState
                       (set_style "display" "none"
                          (Fade.element (Fade.fadeIn again (Fade.fadeOut out s))))
                       (Fade.timers s) (Fade.clock s + pause + rest)
                       (S (Fade.resolved s))).
  { unfold s'. cbn [Fade.run fold_left Fade.step].
    unfold Fade.fire.
    cbn [Fade.fadeIn Fade.fadeOut Fade.on_element Fade.timers Fade.clock Fade.element
         Fade.resolved].
    fold k. rewrite nth_error_app2, Nat.sub_diag by lia. cbn [nth_error].
    destruct (Nat.leb_spec (Fade.clock s + out) (Fade.clock s + pause + rest)); [|lia].
    f_equal.
    assert (Hrm : forall (l : list nat) x, Alerts.remove_nth (List.length l) (l ++ [x]) = l).
    { induction l as [|y l IH]; intros x; [reflexivity|].
      cbn [List.length app Alerts.remove_nth]. now rewrite IH. }
    apply Hrm. }
  rewrite Hs'. unfold Fade.display, Fade.opacity.
  cbn [Fade.element Fade.resolved Fade.fadeIn Fade.fadeOut Fade.on_element set_style style].
  rewrite !own_lookup_setAttribute_any. cbn. repeat split.
Qed.

Lemma fadeOut_hides_after_a_later_fadeIn_witness :
  let s' := Fade.run [Fade.FadeOut 400; Fade.Elapse 100; Fade.FadeIn 400;
                      Fade.Elapse 300; Fade.Fire 0]
              (Fade.start (createElement "div" (opts ["alert"]))) in
  400 <= 100 + 300 /\
  Fade.display s' = Some "none"%string /\
  Fade.opacity s' = Some "1"%string.
Proof.
  intros s'.
  assert (H : 400 <= 100 + 300) by (apply Nat.leb_le; vm_compute; reflexivity).
  split; [exact H|].
  pose proof (fadeOut_hides_after_a_later_fadeIn (createElement "div" (opts ["alert"]))
                [] 400 400 100 300 H) as Hthm.
  cbv zeta in Hthm. destruct Hthm as (_ & H1 & H2 & _).
  split; [exact H1 | exact H2].
Defined.

Section DemoModeFacts.
Import DemoMode.
Variable DEMO_INTERVAL : nat.
Variable first : list nat.

Lemma demo_registry_step (s : State) (e : Event) :
  registry DEMO_INTERVAL first s -> registry DEMO_INTERVAL first (step DEMO_INTERVAL first s e).
Proof.
  intros (Hn & Hi & Hd & Ht). destruct e as [| |ms|k|k]; cbn [step].
  - unfold startDemoMode.
    destruct (Nat.ltb_spec 0 DEMO_INTERVAL) as [Hpos|Hzero]; cbn [andb];
      [|now repeat split].
    destruct (demoInterval s) as [i|] eqn:E; cbn [truthy_id].
    + destruct (Nat.eqb_spec i 0); [lia|]. cbn [negb].
      unfold registry. rewrite E. now repeat split.
    + cbv zeta. unfold registry.
      cbn [negb demoInterval intervals nextId timeouts]. rewrite Hi. cbn [app].
      repeat split; try lia.
      intros [Hz|Hf]; [lia|]. rewrite Hf, Ht by now right. reflexivity.
  - unfold stopDemoMode. destruct (demoInterval s) as [i|] eqn:E;
      [|unfold registry; rewrite E; now repeat split].
    cbn [truthy_id]. destruct (Nat.eqb_spec i 0); [lia|].
    unfold registry. cbn [negb demoInterval intervals nextId timeouts].
    rewrite Hi. cbn [filter]. rewrite Nat.eqb_refl. cbn [negb]. now repeat split.
  - unfold registry. cbn [demoInterval intervals nextId timeouts].
    now repeat split.
  - unfold fire. destruct (nth_error (timeouts s) k) as [due|] eqn:Hk;
      [|now repeat split].
    destruct (due <=? clock s)%nat; [|now repeat split].
    unfold registry. cbn [demoInterval intervals nextId timeouts].
    repeat split; try assumption.
    intros H. rewrite (Ht H) in Hk. destruct k; discriminate.
  - unfold tick. destruct (nth_error (intervals s) k); now repeat split.
Qed.

Lemma demo_registry_run (events : list Event) (s : State) :
  registry DEMO_INTERVAL first s -> registry DEMO_INTERVAL first (run DEMO_INTERVAL first events s).
Proof.
  revert s. induction events as [|e events IH]; intros s H; [exact H|].
  cbn [run fold_left]. apply IH, demo_registry_step, H.
Qed.

End DemoModeFacts.

(** X25.  Demo mode never runs two intervals at once: whatever the
    sequence of [startDemoMode] and [stopDemoMode] calls and of timers, at
    most one interval is running, it is the one [demoInterval] names, and
    none is running when [demoInterval] is [null].  A start while demo mode
    runs changes nothing, and with [DEMO_INTERVAL] 0 it never starts.  A
    stop clears the interval and nothing else: the one-shot timers a start
    has set stay pending.  The alerts and the ticker set none, so for them
    a stop ends demo mode; the five messages the chat's start has scheduled
    still arrive after a stop. *)
Theorem demo_mode_has_at_most_one_interval :
  forall (DEMO_INTERVAL : nat) (first : list nat) (events : list DemoMode.Event),
    let s := DemoMode.run DEMO_INTERVAL first events DemoMode.initial in
    let start := DemoMode.startDemoMode DEMO_INTERVAL first in
    DemoMode.intervals s
      = match DemoMode.demoInterval s with Some i => [i] | None => [] end /\
    DemoMode.intervals (DemoMode.stopDemoMode s) = [] /\
    DemoMode.timeouts (DemoMode.stopDemoMode s) = DemoMode.timeouts s /\
    match DemoMode.demoInterval s with
    | Some _ => start s = s
    | None =>
        DemoMode.stopDemoMode s = s /\
        if (DEMO_INTERVAL =? 0)%nat then start s = s
        else List.length (DemoMode.intervals (start s)) = 1 /\
             DemoMode.intervals (DemoMode.stopDemoMode (start s)) = [] /\
             DemoMode.timeouts (DemoMode.stopDemoMode (start s))
             = DemoMode.timeouts s ++ map (fun delay => DemoMode.clock s + delay) first
    end /\
    (if (DEMO_INTERVAL =? 0)%nat then DemoMode.intervals s = [] else True) /\
    match first with
    | [] => DemoMode.timeouts s = []
    | _ => True
    end.
Proof.
  intros DEMO_INTERVAL first events s start.
  destruct (demo_registry_run DEMO_INTERVAL first events DemoMode.initial)
    as (Hn & Hi & Hd & Ht).
  { unfold DemoMode.registry. cbn. repeat split; lia. }
  fold s in Hn, Hi, Hd, Ht.
  assert (Hzero : DEMO_INTERVAL = 0 -> DemoMode.demoInterval s = None).
  { intros ->. unfold s. clear.
    induction events as [|e events IH] using rev_ind; [reflexivity|].
    unfold DemoMode.run in *. rewrite fold_left_app. cbn [fold_left].
    set (t := fold_left (DemoMode.step 0 first) events DemoMode.initial) in *.
    destruct e as [| |ms|k|k]; cbn [DemoMode.step].
    - unfold DemoMode.startDemoMode. cbn [Nat.ltb Nat.leb andb]. exact IH.
    - unfold DemoMode.stopDemoMode. now rewrite IH.
    - exact IH.
    - unfold DemoMode.fire. destruct (nth_error (DemoMode.timeouts t) k) as [due|];
        [|exact IH]. destruct (due <=? DemoMode.clock t)%nat; exact IH.
    - unfold DemoMode.tick. destruct (nth_error (DemoMode.intervals t) k); exact IH. }
  split; [exact Hi|].
  unfold start, DemoMode.startDemoMode, DemoMode.stopDemoMode.
  destruct (DemoMode.demoInterval s) as [i|] eqn:E; cbn [DemoMode.truthy_id].
  - destruct (Nat.eqb_spec i 0); [lia|]. cbn [negb DemoMode.intervals DemoMode.timeouts].
    rewrite andb_false_r, Hi. cbn [filter]. rewrite Nat.eqb_refl. cbn [negb].
    split; [reflexivity|]. split; [reflexivity|]. split; [reflexivity|]. split.
    + destruct (Nat.eqb_spec DEMO_INTERVAL 0) as [Hz|Hz]; [|exact I].
      specialize (Hzero Hz). discriminate.
    + destruct first; [apply Ht; now right | exact I].
  - split; [exact Hi|]. split; [reflexivity|]. split.
    + split; [reflexivity|].
      destruct (Nat.eqb_spec DEMO_INTERVAL 0) as [Hz|Hz].
      * rewrite Hz. reflexivity.
      * destruct (Nat.ltb_spec 0 DEMO_INTERVAL); [|lia].
        cbn [andb negb]. cbv zeta.
        cbn [DemoMode.demoInterval DemoMode.intervals DemoMode.timeouts DemoMode.truthy_id].
        destruct (Nat.eqb_spec (DemoMode.nextId s + List.length first) 0); [lia|].
        cbn [negb DemoMode.intervals DemoMode.timeouts].
        rewrite Hi. cbn [app filter List.length]. rewrite Nat.eqb_refl. cbn [negb].
        repeat split.
    + split.
      * destruct (DEMO_INTERVAL =? 0)%nat; [exact Hi | exact I].
      * destruct first; [apply Ht; now right | exact I].
Qed.

(** The chat: a start followed at once by a stop leaves no interval and
    five timers pending, and each of them still runs the generator. *)
Lemma demo_mode_has_at_most_one_interval_witness :
  let stopped := DemoMode.run 5000 DemoMode.chat_first [DemoMode.Start; DemoMode.Stop]
                   DemoMode.initial in
  let later := DemoMode.run 5000 DemoMode.chat_first
                 [DemoMode.Elapse 2000; DemoMode.Fire 0; DemoMode.Fire 0; DemoMode.Fire 0;
                  DemoMode.Fire 0; DemoMode.Fire 0] stopped in
  DemoMode.demoInterval stopped = None /\
  DemoMode.generated later = 5 /\
  DemoMode.intervals stopped = [] /\
  DemoMode.timeouts stopped = [0; 500; 1000; 1500; 2000].
Proof.
  intros stopped later.
  split; [reflexivity|]. split; [vm_compute; reflexivity|].
  pose proof (demo_mode_has_at_most_one_interval 5000 DemoMode.chat_first []) as H.
  cbv zeta in H. destruct H as (_ & _ & _ & H & _).
  change (DemoMode.demoInterval (DemoMode.run 5000 DemoMode.chat_first [] DemoMode.initial))
    with (@None nat) in H.
  destruct H as (_ & H).
  change (5000 =? 0)%nat with false in H. destruct H as (_ & H1 & H2).
  split; [exact H1 | exact H2].
Defined.
